(** * QuickADB: the text-scraping and command-orchestration logic, embedded in Rocq

    QuickADB is a PyQt front end for [adb] and [fastboot].  What it computes
    itself is small: it splits the text printed by shell commands into rows
    ([ls -la], [ls -l /dev/block/by-name], [pm list packages -f], ...),
    validates a HOST:PORT address, stores presets as JSON, and sequences
    subprocess calls from worker threads.  This development embeds that logic
    function by function and states the properties listed for it.

    Conventions.
    - A Python [str] is a [string]; a character is a code point below 256,
      and the classification of characters (white space, line boundaries,
      digits, case) is Python's on that range.
    - A Python [int] is a [Z]; a [float] is a binary64 [spec_float].
    - A call into the [subprocess] module is answered by a [world], which
      says how the external process behaves; a worker's [run] is a state
      passing function that records what it spawns and what it emits. *)

From Stdlib Require Import ZArith NArith List Bool Ascii String Lia.
From Stdlib Require Import Floats.SpecFloat Numbers.DecimalString Numbers.DecimalPos.
From stdpp Require Import base tactics option list gmap strings sorting.

Local Open Scope Z_scope.

(* ===================================================================== *)
(** * Part I.  The Python runtime, as far as the program uses it          *)
(* ===================================================================== *)

Module Py.

(** ** Characters *)

Definition code (c : ascii) : N := N_of_ascii c.

Definition between (lo hi : N) (c : ascii) : bool :=
  (lo <=? code c)%N && (code c <=? hi)%N.

(** [str.isspace] on one character: TAB..CR, FS..US, SPACE, NEL, NBSP. *)
Definition isspace (c : ascii) : bool :=
  between 9 13 c || between 28 32 c || (code c =? 133)%N || (code c =? 160)%N.

(** Line boundaries of [str.splitlines]: LF, VT, FF, CR, FS, GS, RS, NEL. *)
Definition is_linebreak (c : ascii) : bool :=
  between 10 13 c || between 28 30 c || (code c =? 133)%N.

(** The decimal digits accepted by [int()] and matched by [\d]. *)
Definition isdecimal_char (c : ascii) : bool := between 48 57 c.

(** [str.isdigit] also accepts the superscripts two, three and one. *)
Definition isdigit_char (c : ascii) : bool :=
  isdecimal_char c || (code c =? 178)%N || (code c =? 179)%N || (code c =? 185)%N.

Definition digit_value (c : ascii) : Z := Z.of_N (code c) - 48.

Definition shift_code (d : Z) (c : ascii) : ascii :=
  ascii_of_N (Z.to_N (Z.of_N (code c) + d)).

Definition is_upper_char (c : ascii) : bool :=
  between 65 90 c || (between 192 222 c && negb (code c =? 215)%N).

Definition is_lower_char (c : ascii) : bool :=
  between 97 122 c || (between 224 254 c && negb (code c =? 247)%N).

Definition lower_char (c : ascii) : ascii :=
  if is_upper_char c then shift_code 32 c else c.

(** [str.upper] on one character.  Sharp s becomes two letters; the upper
    case of the micro sign and of y with diaeresis lies above code point
    255 and these two characters are left as they are. *)
Definition upper_char (c : ascii) : string :=
  if is_lower_char c then String (shift_code (-32) c) EmptyString
  else if (code c =? 223)%N then "SS"
  else String c EmptyString.

Definition title_char (c : ascii) : string :=
  if (code c =? 223)%N then "Ss" else upper_char c.

(** ** Strings *)

Fixpoint lower (s : string) : string :=
  match s with
  | EmptyString => EmptyString
  | String c s' => String (lower_char c) (lower s')
  end.

Fixpoint upper (s : string) : string :=
  match s with
  | EmptyString => EmptyString
  | String c s' => upper_char c +:+ upper s'
  end.

(** [str.capitalize]: first character in title case, the rest in lower case. *)
Definition capitalize (s : string) : string :=
  match s with
  | EmptyString => EmptyString
  | String c s' => title_char c +:+ lower s'
  end.

Fixpoint all_chars (p : ascii -> bool) (s : string) : bool :=
  match s with
  | EmptyString => true
  | String c s' => p c && all_chars p s'
  end.

Definition nonempty (s : string) : bool :=
  match s with EmptyString => false | String _ _ => true end.

(** [str.isdigit]: at least one character and all of them digits. *)
Definition isdigit (s : string) : bool := nonempty s && all_chars isdigit_char s.

Fixpoint lstrip (s : string) : string :=
  match s with
  | EmptyString => EmptyString
  | String c s' => if isspace c then lstrip s' else s
  end.

Fixpoint rstrip (s : string) : string :=
  match s with
  | EmptyString => EmptyString
  | String c s' =>
      match rstrip s' with
      | EmptyString => if isspace c then EmptyString else String c EmptyString
      | r => String c r
      end
  end.

Definition strip (s : string) : string := rstrip (lstrip s).

Definition startswith (s p : string) : bool := String.prefix p s.

Fixpoint endswith (s p : string) : bool :=
  String.eqb s p ||
  match s with
  | EmptyString => false
  | String _ s' => endswith s' p
  end.

(** [sub in s] *)
Fixpoint contains (sub s : string) : bool :=
  String.prefix sub s ||
  match s with
  | EmptyString => false
  | String _ s' => contains sub s'
  end.

(** Prepend a character to the first field of a list of fields. *)
Definition cons_head (c : ascii) (l : list string) : list string :=
  match l with
  | [] => [String c EmptyString]
  | f :: fs => String c f :: fs
  end.

(** [str.splitlines()] *)
Fixpoint splitlines (s : string) : list string :=
  match s with
  | EmptyString => []
  | String c s' =>
      if is_linebreak c then
        match s' with
        | String c' s'' =>
            if (code c =? 13)%N && (code c' =? 10)%N
            then EmptyString :: splitlines s''
            else EmptyString :: splitlines s'
        | EmptyString => [EmptyString]
        end
      else cons_head c (splitlines s')
  end.

(** [str.split(sep, maxsplit)] for a non-empty separator.  [limit] is the
    number of splits still allowed ([None]: no limit); [skip] counts the
    characters of a separator just matched that are still to be passed. *)
Fixpoint split_go (sep : string) (limit : option nat) (skip : nat) (s : string)
  : list string :=
  match s with
  | EmptyString => [EmptyString]
  | String c s' =>
      match skip with
      | S k => split_go sep limit k s'
      | O =>
          if String.prefix sep s && negb (bool_decide (limit = Some O))
          then EmptyString :: split_go sep (Nat.pred <$> limit) (String.length sep - 1) s'
          else cons_head c (split_go sep limit O s')
      end
  end.

Definition split (sep s : string) : list string := split_go sep None O s.
Definition split_max (sep : string) (maxsplit : nat) (s : string) : list string :=
  split_go sep (Some maxsplit) O s.

(** [str.rsplit(c, 1)] for a one-character separator: [None] stands for the
    one-element list [[s]] returned when [c] does not occur. *)
Fixpoint rsplit1 (c : ascii) (s : string) : option (string * string) :=
  match s with
  | EmptyString => None
  | String a s' =>
      match rsplit1 c s' with
      | Some (h, p) => Some (String a h, p)
      | None => if Ascii.eqb a c then Some (EmptyString, s') else None
      end
  end.

(** [str.split()] and [str.split(maxsplit=n)]: fields separated by runs of
    white space.  [cur] is the field being read; once [n] fields have been
    cut off the rest of the string, without its leading white space, is the
    last field. *)
Fixpoint fields_go (limit : option nat) (cur : option string) (s : string)
  : list string :=
  match cur with
  | None =>
      match s with
      | EmptyString => []
      | String c s' =>
          if isspace c then fields_go limit None s'
          else if bool_decide (limit = Some O) then [s]
          else fields_go limit (Some (String c EmptyString)) s'
      end
  | Some w =>
      match s with
      | EmptyString => [w]
      | String c s' =>
          if isspace c then w :: fields_go (Nat.pred <$> limit) None s'
          else fields_go limit (Some (w +:+ String c EmptyString)) s'
      end
  end.

Definition fields (s : string) : list string := fields_go None None s.
Definition fields_max (maxsplit : nat) (s : string) : list string :=
  fields_go (Some maxsplit) None s.

(** [str.replace(old, new)] for a non-empty [old]. *)
Fixpoint replace_go (old new : string) (skip : nat) (s : string) : string :=
  match s with
  | EmptyString => EmptyString
  | String c s' =>
      match skip with
      | S k => replace_go old new k s'
      | O =>
          if String.prefix old s
          then new +:+ replace_go old new (String.length old - 1) s'
          else String c (replace_go old new O s')
      end
  end.

Definition replace (old new s : string) : string := replace_go old new O s.

Definition join (sep : string) (l : list string) : string := String.concat sep l.

(** [s[:n]] *)
Definition take (n : nat) (s : string) : string := String.substring 0 n s.

(** [l[-1]], [l[-3]] and [l[:-1]] on lists. *)
Definition last_item {A} (l : list A) : option A := last l.
Definition item_from_end {A} (k : nat) (l : list A) : option A :=
  if decide (k < length l)%nat then l !! (length l - S k)%nat else None.
Definition but_last {A} (l : list A) : list A := removelast l.

(** [str(n)] for an [int]. *)
Definition str_of_int (z : Z) : string := NilZero.string_of_int (Z.to_int z).

(** ** Exceptions and results *)

(** The exceptions the modelled code can meet.  [exn_text] is [str(e)]. *)
Inductive exn :=
  | IndexError (text : string)
  | ValueError (text : string)
  | OverflowError (text : string)
  | RuntimeError (text : string)
  | AttributeError (text : string)
  | TypeError (text : string)
  | TimeoutExpired
  | CalledProcessError (returncode : Z) (output : string) (text : string)
  | OSError (text : string).

Definition exn_text (e : exn) : string :=
  match e with
  | IndexError t | ValueError t | OverflowError t | RuntimeError t | OSError t => t
  | AttributeError t | TypeError t => t
  | CalledProcessError _ _ t => t
  | TimeoutExpired => "timed out"
  end.

(** The result of evaluating a piece of Python that touches nothing outside
    the program: a value, or an exception. *)
Inductive res (A : Type) :=
  | Ret (a : A)
  | Raise (e : exn).
Arguments Ret {A} a.
Arguments Raise {A} e.

Definition bind {A B} (r : res A) (k : A -> res B) : res B :=
  match r with
  | Ret a => k a
  | Raise e => Raise e
  end.

(** [try: r  except Exception as e: h e] *)
Definition try_except {A} (r : res A) (h : exn -> res A) : res A :=
  match r with
  | Raise e => h e
  | other => other
  end.

(** [l[i]] for a non-negative index. *)
Definition index {A} (l : list A) (i : nat) : res A :=
  match l !! i with
  | Some a => Ret a
  | None => Raise (IndexError "list index out of range")
  end.

(** ** [repr] of a string *)

Definition dquote : ascii := ascii_of_N 34.
Definition squote : ascii := ascii_of_N 39.
Definition backslash : ascii := ascii_of_N 92.

Definition hex_digit (n : N) : ascii :=
  if (n <? 10)%N then ascii_of_N (48 + n) else ascii_of_N (87 + n).

Definition hex_escape (c : ascii) : string :=
  String backslash (String "x" (String (hex_digit (code c / 16))
    (String (hex_digit (code c mod 16)) EmptyString))).

Definition isprintable (c : ascii) : bool :=
  between 32 126 c || (between 161 255 c && negb (code c =? 173)%N).

Definition repr_char (quote c : ascii) : string :=
  if Ascii.eqb c quote || Ascii.eqb c backslash then String backslash (String c EmptyString)
  else if (code c =? 9)%N then String backslash "t"
  else if (code c =? 10)%N then String backslash "n"
  else if (code c =? 13)%N then String backslash "r"
  else if isprintable c then String c EmptyString
  else hex_escape c.

Fixpoint repr_body (quote : ascii) (s : string) : string :=
  match s with
  | EmptyString => EmptyString
  | String c s' => repr_char quote c +:+ repr_body quote s'
  end.

Definition repr (s : string) : string :=
  let quote :=
    if contains (String squote EmptyString) s && negb (contains (String dquote EmptyString) s)
    then dquote else squote in
  String quote (repr_body quote s +:+ String quote EmptyString).

(** ** [int(s)] *)

(** The digits of a decimal literal: digits with single underscores between
    them.  [seen] says a digit was read, [us] that the last character was an
    underscore. *)
Fixpoint int_digits (acc : Z) (us seen : bool) (s : string) : option Z :=
  match s with
  | EmptyString => if us || negb seen then None else Some acc
  | String c s' =>
      if isdecimal_char c then int_digits (acc * 10 + digit_value c) false true s'
      else if Ascii.eqb c "_" then
        if us || negb seen then None else int_digits acc true seen s'
      else None
  end.

Definition int_literal (s : string) : option Z :=
  match strip s with
  | String "+" r => int_digits 0 false false r
  | String "-" r => Z.opp <$> int_digits 0 false false r
  | t => int_digits 0 false false t
  end.

(** [int(s)] for a [str] in an interpreter whose limit on the number of
    digits is switched off ([sys.set_int_max_str_digits(0)]): the value, or
    [ValueError]. *)
Definition to_int_unlimited (s : string) : res Z :=
  match int_literal s with
  | Some z => Ret z
  | None =>
      Raise (ValueError ("invalid literal for int() with base 10: " +:+ take 200 (repr s)))
  end.

(** The digits [int] counts before it converts: those of the longest run of
    digits and single underscores at the start of [s].  [None] when the run
    has two underscores in a row or ends in one, which is refused before the
    digits are counted. *)
Fixpoint count_digits (us : bool) (n : Z) (s : string) : option Z :=
  match s with
  | EmptyString => if us then None else Some n
  | String c s' =>
      if isdecimal_char c then count_digits false (n + 1) s'
      else if Ascii.eqb c "_" then if us then None else count_digits true n s'
      else if us then None else Some n
  end.

(** [sys.get_int_max_str_digits()], as the interpreter starts. *)
Definition max_str_digits : Z := 4300.

(** A literal without its sign. *)
Definition unsigned (t : string) : string :=
  match t with
  | String "+" r => r
  | String "-" r => r
  | _ => t
  end.

(** [int(s)] for a [str]: the value, or [ValueError]; a literal of more
    than 4300 digits is refused. *)
Definition to_int (s : string) : res Z :=
  let body := unsigned (strip s) in
  match body with
  | String "_" _ => to_int_unlimited s
  | _ =>
      match count_digits false 0 body with
      | Some n =>
          if max_str_digits <? n then
            Raise (ValueError
                     ("Exceeds the limit (4300 digits) for integer string conversion: "
                      +:+ "value has " +:+ str_of_int n
                      +:+ " digits; use sys.set_int_max_str_digits() to increase the limit"))
          else to_int_unlimited s
      | None => to_int_unlimited s
      end
  end.

(** ** Numbers: [int] and binary64 [float] *)

Definition prec : Z := 53.
Definition emax : Z := 1024.

Inductive num :=
  | Int (z : Z)
  | Float (f : spec_float).

(** [float(z)], correctly rounded; too large an [int] raises. *)
Definition float_of_int (z : Z) : res spec_float :=
  match binary_normalize prec emax z 0 false with
  | S754_infinity _ => Raise (OverflowError "int too large to convert to float")
  | f => Ret f
  end.

(** [z / 2**k] for an [int] [z]: true division is correctly rounded. *)
Definition int_truediv_pow2 (z : Z) (k : Z) : res spec_float :=
  match binary_normalize prec emax z (- k) false with
  | S754_infinity _ => Raise (OverflowError "integer division result too large for a float")
  | f => Ret f
  end.

Definition float_1024 : spec_float := binary_normalize prec emax 1024 0 false.

(** [x / 1024] *)
Definition num_div_1024 (x : num) : res num :=
  match x with
  | Int z => bind (int_truediv_pow2 z 10) (fun f => Ret (Float f))
  | Float f => Ret (Float (SFdiv prec emax f float_1024))
  end.

(** [x < 1024] *)
Definition num_lt_1024 (x : num) : bool :=
  match x with
  | Int z => z <? 1024
  | Float f => SFltb f float_1024
  end.

(** [math.ceil(x)] *)
Definition ceil (x : spec_float) : res Z :=
  match x with
  | S754_zero _ => Ret 0
  | S754_finite s m e =>
      let v := if 0 <=? e then Zpos m * 2 ^ e
               else if s then Zpos m / 2 ^ (- e)
               else - ((- Zpos m) / 2 ^ (- e)) in
      Ret (if s then - v else v)
  | S754_infinity _ => Raise (OverflowError "cannot convert float infinity to integer")
  | S754_nan => Raise (ValueError "cannot convert float NaN to integer")
  end.

Definition round_half_even (n d : Z) : Z :=
  let q := n / d in
  match (2 * (n mod d) ?= d) with
  | Lt => q
  | Gt => q + 1
  | Eq => if Z.even q then q else q + 1
  end.

Fixpoint zeros (n : nat) : string :=
  match n with O => EmptyString | S k => String "0" (zeros k) end.

(** The digits of [n / 10**d] with [d] decimals. *)
Definition fixed (d : nat) (n : Z) : string :=
  let p := 10 ^ Z.of_nat d in
  let frac := str_of_int (n mod p) in
  str_of_int (n / p) +:+ "." +:+ zeros (d - String.length frac) +:+ frac.

(** [format(x, '.<d>f')] for a [float], rounding the exact value half to even. *)
Definition format_float (d : nat) (x : spec_float) : string :=
  match x with
  | S754_nan => "nan"
  | S754_infinity s => if s then "-inf" else "inf"
  | S754_zero s => (if s then "-" else EmptyString) +:+ fixed d 0
  | S754_finite s m e =>
      let scaled := if 0 <=? e then Zpos m * 2 ^ e * 10 ^ Z.of_nat d
                    else round_half_even (Zpos m * 10 ^ Z.of_nat d) (2 ^ (- e)) in
      (if s then "-" else EmptyString) +:+ fixed d scaled
  end.

(** [format(x, '.<d>f')] for an [int] or a [float]. *)
Definition format_num (d : nat) (x : num) : res string :=
  match x with
  | Int z => bind (float_of_int z) (fun f => Ret (format_float d f))
  | Float f => Ret (format_float d f)
  end.

End Py.

(* ===================================================================== *)
(** * Part II.  The [subprocess] module and the effects of a worker       *)
(* ===================================================================== *)

Module Proc.
Import Py.

(** A command: an argument vector, or one line handed to the shell
    ([shell=True]). *)
Inductive cmdline :=
  | Argv (args : list string)
  | Shell (line : string).

(** What an external process does.  For a process started with
    [stderr=STDOUT] the field [stdout] is the merged stream.  [CannotStart e]
    is a call of the library that raises [e] instead of returning: the
    program cannot be started, or what it printed cannot be decoded as
    text. *)
Inductive process :=
  | Exits (seconds : N) (returncode : Z) (stdout stderr : string)
  | NeverExits (stdout : string)
  | CannotStart (e : exn).

(** The world outside the program: the behaviour of the n-th process a run
    spawns, the text the library gives a [CalledProcessError], whether a
    path exists once n processes have been spawned, and, for a pipe that is
    read line by line as text, whether the output of the n-th process stops
    being text: after how many lines, and the exception [readline] then
    raises. *)
Record world := {
  behaviour : nat -> cmdline -> process;
  cpe_text : cmdline -> Z -> string;
  path_exists : nat -> string -> bool;
  readline_error : nat -> option (nat * exn)
}.

Record call := { call_cmd : cmdline; call_timeout : option N }.

Record CompletedProcess := {
  returncode : Z;
  stdout : string;
  stderr : string
}.

(** The outcome of a run: it returns, it raises, or it waits for ever on a
    process that does not exit. *)
Inductive outcome (A : Type) :=
  | Returns (a : A)
  | Raises (e : exn)
  | Blocks.
Arguments Returns {A} a.
Arguments Raises {A} e.
Arguments Blocks {A}.

Section Effects.
Context {E : Type}.

(** The state a run threads: the processes spawned so far and the events
    (signals, dialogs, log lines) emitted so far, oldest first. *)
Record state := { spawned : list call; emitted : list E }.

Definition M (A : Type) : Type := world -> state -> outcome A * state.

Definition ret {A} (a : A) : M A := fun _ s => (Returns a, s).

Definition raise {A} (e : exn) : M A := fun _ s => (Raises e, s).

(** Waiting on a process that never exits. *)
Definition block {A} : M A := fun _ s => (Blocks, s).

Definition mbind {A B} (m : M A) (k : A -> M B) : M B :=
  fun w s =>
    match m w s with
    | (Returns a, s') => k a w s'
    | (Raises e, s') => (Raises e, s')
    | (Blocks, s') => (Blocks, s')
    end.

(** [try: m  except Exception as e: h e] *)
Definition try_catch {A} (m : M A) (h : exn -> M A) : M A :=
  fun w s =>
    match m w s with
    | (Raises e, s') => h e w s'
    | other => other
    end.

Definition lift {A} (r : res A) : M A :=
  match r with
  | Ret a => ret a
  | Raise e => raise e
  end.

Definition emit (e : E) : M unit :=
  fun _ s => (Returns tt, {| spawned := spawned s; emitted := emitted s ++ [e] |}).

(** Start a process and ask the world how it behaves. *)
Definition spawn (cmd : cmdline) (timeout : option N) : M process :=
  fun w s =>
    (Returns (behaviour w (length (spawned s)) cmd),
     {| spawned := spawned s ++ [{| call_cmd := cmd; call_timeout := timeout |}];
        emitted := emitted s |}).

(** [os.path.exists(p)] *)
Definition exists_path (p : string) : M bool :=
  fun w s => (Returns (path_exists w (length (spawned s)) p), s).

(** [subprocess.run(cmd, capture, text=True, timeout=t)].  With a timeout a
    process that is still running after [t] seconds is killed and
    [TimeoutExpired] is raised; without one the call returns when the process
    exits, if it does. *)
Definition run (cmd : cmdline) (timeout : option N) : M CompletedProcess :=
  mbind (spawn cmd timeout) (fun p =>
    match p, timeout with
    | Exits d rc out err, Some t =>
        if (t <? d)%N then raise TimeoutExpired
        else ret {| returncode := rc; stdout := out; stderr := err |}
    | Exits _ rc out err, None =>
        ret {| returncode := rc; stdout := out; stderr := err |}
    | NeverExits _, Some _ => raise TimeoutExpired
    | NeverExits _, None => block
    | CannotStart e, _ => raise e
    end).

(** [subprocess.check_output(cmd, text=True, stderr=subprocess.STDOUT)] *)
Definition check_output (cmd : cmdline) : M string :=
  fun w =>
    mbind (spawn cmd None) (fun p =>
      match p with
      | Exits _ rc out _ =>
          if rc =? 0 then ret out
          else raise (CalledProcessError rc out (cpe_text w cmd rc))
      | NeverExits _ => block
      | CannotStart e => raise e
      end) w.

Fixpoint for_each {A} (l : list A) (body : A -> M unit) : M unit :=
  match l with
  | [] => ret tt
  | a :: l' => mbind (body a) (fun _ => for_each l' body)
  end.

End Effects.

Arguments state : clear implicits.
Arguments M : clear implicits.

Definition start {E} : state E := {| spawned := []; emitted := [] |}.

(** A world in which every pipe read line by line holds text. *)
Definition all_text : nat -> option (nat * exn) := fun _ => None.

(** The lines [readline()] yields from a text-mode pipe, each without its
    line end: CR LF and CR count as LF. *)
Fixpoint text_lines (s : string) : list string :=
  match s with
  | EmptyString => []
  | String c s' =>
      if (code c =? 10)%N then EmptyString :: text_lines s'
      else if (code c =? 13)%N then
        match s' with
        | String c' s'' =>
            if (code c' =? 10)%N then EmptyString :: text_lines s''
            else EmptyString :: text_lines s'
        | EmptyString => [EmptyString]
        end
      else cons_head c (text_lines s')
  end.

(** What a [readline] loop gets from the n-th process, which printed [out]:
    the lines, and the exception that ends the loop when the output stops
    being text. *)
Definition lines_read (w : world) (n : nat) (out : string) : list string * option exn :=
  match readline_error w n with
  | Some (k, e) => (firstn k (text_lines out), Some e)
  | None => (text_lines out, None)
  end.

End Proc.

Declare Scope eff_scope.
Delimit Scope eff_scope with eff.
Notation "x <- m ;; k" := (Proc.mbind m (fun x => k))
  (at level 100, m at next level, right associativity) : eff_scope.
Notation "m ;; k" := (Proc.mbind m (fun _ => k))
  (at level 100, right associativity) : eff_scope.
Notation "x <~ r ;; k" := (Py.bind r (fun x => k))
  (at level 100, r at next level, right associativity) : eff_scope.

(* ===================================================================== *)
(** * Part III.  The program                                              *)
(* ===================================================================== *)

Module Os.
Import Py.

(** [os.path.join(a, b)] with POSIX separators. *)
Definition path_join (a b : string) : string :=
  if startswith b "/" then b
  else if negb (nonempty a) || endswith a "/" then a +:+ b
  else a +:+ "/" +:+ b.

(** A string between double quotes, as the f-strings that build shell
    commands write it. *)
Definition quoted (s : string) : string :=
  String dquote (s +:+ String dquote EmptyString).

Definition newline : string := String (ascii_of_N 10) EmptyString.

End Os.

(** ** modules/fileexplorer.py *)

Module fileexplorer.
Import Py Proc Os.
Local Open Scope eff_scope.

Inductive event :=
  | command_finished (output : string) (is_error : bool)
  | transfer_progress (line : string)
  | transfer_finished (output : string) (is_error : bool) (dest : string)
  | critical (title text : string)
  | showMessage (text : string)
  | setLabelText (text : string)
  | close_progress.

(** *** ADBThread *)

Record ADBThread := {
  adb_path : string;
  command : list string;
  params : list string
}.

(** [ADBThread.run].  The value returned is the pair the signal carries; the
    slot connected to the signal is run on it by whoever started the thread. *)
Definition ADBThread_run (t : ADBThread) : M event (string * bool) :=
  try_catch
    (let full_command := command t ++ params t in
     first <- lift (index full_command 0) ;;
     let full_command :=
       if bool_decide (first <> adb_path t) then adb_path t :: full_command
       else full_command in
     output <- check_output (Argv full_command) ;;
     emit (command_finished output false) ;;
     ret (output, false))
    (fun e =>
       match e with
       | CalledProcessError _ out _ =>
           let text := if nonempty out then out else exn_text e in
           emit (command_finished text true) ;; ret (text, true)
       | _ =>
           emit (command_finished (exn_text e) true) ;; ret (exn_text e, true)
       end).

(** *** TransferRunner *)

Record TransferRunner := {
  tr_adb_path : string;
  args : list string
}.

(** A slot connected to [transfer_progress]; [no_slot] when none is. *)
Definition no_slot : string -> M event unit := fun _ => ret tt.

(** [Popen], the [readline] loop and [wait]: every line read from the
    process is emitted as progress, and the slot connected to the signal is
    run on it; the call returns the last line and the return code when the
    process exits, and raises what [readline] raises when the output stops
    being text. *)
Definition read_to_exit (on_progress : string -> M event unit) (cmd : cmdline)
  : M event (string * Z) :=
  fun w s =>
    (p <- spawn cmd None ;;
     match p with
     | Exits _ rc out _ =>
         let '(lines, broken) := lines_read w (length (spawned s)) out in
         for_each lines (fun l => emit (transfer_progress l) ;; on_progress l) ;;
         match broken with
         | Some e => raise e
         | None => ret (List.last lines EmptyString, rc)
         end
     | NeverExits out =>
         let '(lines, broken) := lines_read w (length (spawned s)) out in
         for_each lines (fun l => emit (transfer_progress l) ;; on_progress l) ;;
         match broken with
         | Some e => raise e
         | None => block
         end
     | CannotStart e => raise e
     end) w s.

(** [TransferRunner.run], with the slot connected to its progress signal. *)
Definition TransferRunner_run (on_progress : string -> M event unit) (t : TransferRunner)
  : M event (string * bool * string) :=
  try_catch
    (lr <- read_to_exit on_progress (Argv (tr_adb_path t :: args t)) ;;
     let '(last_line, code) := lr in
     if code =? 0 then
       let local_target :=
         if decide (2 <= length (args t))%nat then List.last (args t) EmptyString
         else EmptyString in
       let text := if nonempty last_line then last_line else "Transfer completed" in
       emit (transfer_finished text false local_target) ;;
       ret (text, false, local_target)
     else
       let text := if nonempty last_line then last_line
                   else "Transfer failed (code " +:+ str_of_int code +:+ ")" in
       emit (transfer_finished text true EmptyString) ;;
       ret (text, true, EmptyString))
    (fun e =>
       emit (transfer_finished (exn_text e) true EmptyString) ;;
       ret (exn_text e, true, EmptyString)).

(** *** Pulling a file or a directory

    Starting a thread whose signals are connected to slots is modelled as
    running the thread, each slot being run on what a signal carries when
    the signal is emitted. *)

Definition handle_transfer_progress (line : string) : M event unit :=
  emit (showMessage line).

Definition finish_chmod_pull (output : string) (error : bool) (name : string)
  : M event unit :=
  emit close_progress ;;
  if error then
    emit (critical "Error" ("Failed to pull " +:+ name +:+ " even after chmod: " +:+ output)) ;;
    emit (showMessage ("Failed to pull " +:+ name))
  else
    emit (showMessage ("Successfully pulled " +:+ name +:+ " using chmod method")).

Definition perform_pull_after_chmod (adb : string) (output : string) (error : bool)
    (source_path dest_path name : string) : M event unit :=
  if error then
    emit close_progress ;;
    emit (critical "Error" ("Failed to set permissions for " +:+ name +:+ ": " +:+ output)) ;;
    emit (showMessage ("Failed to set permissions for " +:+ name))
  else
    emit (setLabelText ("Pulling " +:+ name +:+ " after chmod...")) ;;
    r <- TransferRunner_run handle_transfer_progress
           {| tr_adb_path := adb; args := ["pull"; source_path; dest_path] |} ;;
    let '(out, err, _) := r in
    finish_chmod_pull out err name.

Definition chmod_and_pull (adb : string) (source_path dest_path name : string)
  : M event unit :=
  r <- ADBThread_run {| adb_path := adb; command := ["shell"];
                        params := ["chmod -R 777 " +:+ quoted source_path] |} ;;
  let '(out, err) := r in
  perform_pull_after_chmod adb out err source_path dest_path name.

Definition handle_pull_result (adb : string) (output : string) (error : bool)
    (name source_path dest_path : string) : M event unit :=
  if error then
    emit (showMessage ("Regular pull failed for " +:+ name +:+ ", trying chmod fallback...")) ;;
    emit (setLabelText ("Regular pull failed, trying chmod for " +:+ name +:+ "...")) ;;
    chmod_and_pull adb source_path dest_path name
  else
    emit close_progress ;;
    emit (showMessage ("Successfully pulled " +:+ name)).

Definition start_pull (adb : string) (source_path dest_dir name : string)
    (is_directory : bool) : M event unit :=
  let dest_path := path_join dest_dir name in
  let android_path := replace (String backslash EmptyString) "/" source_path in
  if is_directory then chmod_and_pull adb android_path dest_path name
  else
    r <- TransferRunner_run handle_transfer_progress
           {| tr_adb_path := adb; args := ["pull"; android_path; dest_path] |} ;;
    let '(out, err, dest) := r in
    handle_pull_result adb out err name android_path dest.

(** *** The directory listing *)

Definition detect_type (name : string) : string :=
  if contains "." name then upper (List.last (split "." name) EmptyString)
  else "File".

Definition safe_int (s : string) : Z :=
  match to_int (replace "," EmptyString s) with
  | Ret z => z
  | _ => 0
  end.

(** The loop of [format_size_safe] over the units still to try. *)
Fixpoint format_units (units : list string) (size : num) : res string :=
  match units with
  | [] => t <~ format_num 1 size ;; Ret (t +:+ " TB")
  | unit :: rest =>
      if num_lt_1024 size then t <~ format_num 1 size ;; Ret (t +:+ " " +:+ unit)
      else size' <~ num_div_1024 size ;; format_units rest size'
  end.

(** [format_size_safe]: only [ValueError] and [TypeError] are caught. *)
Definition format_size_safe (size_bytes_str : string) : res string :=
  match (size <~ to_int size_bytes_str ;; format_units ["B"; "KB"; "MB"; "GB"] (Int size)) with
  | Raise (ValueError _) => Ret "-"
  | r => r
  end.

(** One element of [rows]. *)
Record row := {
  name : string;
  file_type : string;
  size_str : string;
  date_str : string;
  size_int : Z;
  is_folder : bool;
  symlink_info : option string
}.

(** [name_part.split("->", 1)], name and target stripped. *)
Definition split_symlink (name_part : string) : string * string :=
  match split_max "->" 1 name_part with
  | [n] => (strip n, EmptyString)
  | n :: t :: _ => (strip n, strip t)
  | [] => (EmptyString, EmptyString)
  end.

(** The body of the loop over the lines: [None] where the source says
    [continue]. *)
Definition listing_row (line : string) : res (option row) :=
  if negb (nonempty (strip line)) || startswith line "total" then Ret None
  else if contains "Permission denied" line || startswith line "ls:"
          || startswith line "cannot access" then Ret None
  else
    match fields_max 7 line with
    | perms :: _ :: _ :: _ :: size :: date1 :: date2 :: name_part :: _ =>
        let is_symlink := contains "->" name_part in
        let '(name, target_path) :=
          if is_symlink then split_symlink name_part else (name_part, EmptyString) in
        if negb (nonempty name) || bool_decide (name = ".") || bool_decide (name = "..")
        then Ret None
        else
          let is_folder := startswith perms "d" || startswith perms "l" in
          let file_type := if is_folder then "Folder" else detect_type name in
          size_str <~ (if is_folder then Ret "-" else format_size_safe size) ;;
          Ret (Some {| name := name; file_type := file_type; size_str := size_str;
                       date_str := date1 +:+ " " +:+ date2; size_int := safe_int size;
                       is_folder := is_folder;
                       symlink_info := if is_symlink then Some target_path else None |})
    | _ => Ret None
    end.

Fixpoint listing_rows (lines : list string) : res (list row) :=
  match lines with
  | [] => Ret []
  | line :: rest =>
      r <~ listing_row line ;;
      rs <~ listing_rows rest ;;
      Ret (match r with Some x => x :: rs | None => rs end)
  end.

(** [rows.sort(key=lambda x: (not x[5], x[0].lower()))]: a stable sort. *)
Definition sort_key (r : row) : bool * string := (negb (is_folder r), lower (name r)).

Definition key_lt (a b : bool * string) : bool :=
  if Bool.eqb (fst a) (fst b) then String.ltb (snd a) (snd b)
  else negb (fst a) && fst b.

Fixpoint insert_row (r : row) (sorted : list row) : list row :=
  match sorted with
  | [] => [r]
  | x :: rest =>
      if key_lt (sort_key x) (sort_key r) then x :: insert_row r rest
      else r :: sorted
  end.

Definition sort_rows (rows : list row) : list row := foldr insert_row [] rows.

(** The part of the window the listing reads and writes: the table (name,
    type, size, date of each row), the symlink targets by row number, the
    dialogs and status bar messages shown, oldest first, the sort indicator
    of the table's header (section, and whether the order is descending)
    and the index chosen in the sort box of the toolbar. *)
Record explorer := {
  current_path : string;
  table : list (string * string * string * string);
  symlink_targets : gmap nat string;
  shown : list event;
  sort_indicator : nat * bool;
  sort_combo : nat
}.

Definition cells (r : row) : string * string * string * string :=
  (name r, file_type r, size_str r, date_str r).

(** The loop that fills the table: a row is inserted at [table.rowCount()]. *)
Fixpoint populate (rows : list row) (self : explorer) : explorer :=
  match rows with
  | [] => self
  | r :: rest =>
      let n := length (table self) in
      let targets :=
        match symlink_info r with
        | Some t => if nonempty t then <[n := t]> (symlink_targets self)
                    else symlink_targets self
        | None => symlink_targets self
        end in
      populate rest {| current_path := current_path self;
                       table := table self ++ [cells r];
                       symlink_targets := targets;
                       shown := shown self;
                       sort_indicator := sort_indicator self;
                       sort_combo := sort_combo self |}
  end.

Definition show (e : event) (self : explorer) : explorer :=
  {| current_path := current_path self; table := table self;
     symlink_targets := symlink_targets self; shown := shown self ++ [e];
     sort_indicator := sort_indicator self; sort_combo := sort_combo self |}.

Definition set_table (t : list (string * string * string * string)) (self : explorer)
  : explorer :=
  {| current_path := current_path self; table := t;
     symlink_targets := symlink_targets self; shown := shown self;
     sort_indicator := sort_indicator self; sort_combo := sort_combo self |}.

(** The text of the item of a row in a column; the table has four. *)
Definition item_text (column : nat) (r : string * string * string * string)
  : option string :=
  let '(c0, c1, c2, c3) := r in
  match column with
  | 0%nat => Some c0
  | 1%nat => Some c1
  | 2%nat => Some c2
  | 3%nat => Some c3
  | _ => None
  end.

(** The toolkit's sort of the rows of a table by a column
    ([QTableWidget]'s model: a stable sort of the rows that have an item in
    the column, by the order [lessThan] the toolkit has on the texts of the
    items, which is left open here; the rows without an item follow).
    [before] says that the first row is put ahead of the second. *)
Fixpoint insert_item (before : string -> string -> bool) (column : nat)
    (r : string * string * string * string)
    (sorted : list (string * string * string * string))
  : list (string * string * string * string) :=
  match sorted with
  | [] => [r]
  | x :: rest =>
      match item_text column x, item_text column r with
      | Some tx, Some tr =>
          if before tx tr then x :: insert_item before column r rest else r :: sorted
      | _, _ => r :: sorted
      end
  end.

Definition sort_items (lessThan : string -> string -> bool) (column : nat)
    (descending : bool) (t : list (string * string * string * string))
  : list (string * string * string * string) :=
  let before a b := if descending then lessThan b a else lessThan a b in
  foldr (insert_item before column) []
        (List.filter (fun r => bool_decide (is_Some (item_text column r))) t)
  ++ List.filter (fun r => negb (bool_decide (is_Some (item_text column r)))) t.

(** [table.sortByColumn(column, order)]: the header shows the indicator
    and the rows are sorted. *)
Definition sortByColumn (lessThan : string -> string -> bool) (column : nat)
    (descending : bool) (self : explorer) : explorer :=
  {| current_path := current_path self;
     table := sort_items lessThan column descending (table self);
     symlink_targets := symlink_targets self; shown := shown self;
     sort_indicator := (column, descending); sort_combo := sort_combo self |}.

(** [table.setSortingEnabled(True)]: the table is sorted as the indicator
    of its header says. *)
Definition setSortingEnabled_True (lessThan : string -> string -> bool) (self : explorer)
  : explorer :=
  sortByColumn lessThan (fst (sort_indicator self)) (snd (sort_indicator self)) self.

(** [sort_table]: by the column chosen in the sort box, ascending. *)
Definition sort_table (lessThan : string -> string -> bool) (self : explorer) : explorer :=
  sortByColumn lessThan (sort_combo self) false self.

Definition count_folders (rows : list row) : nat :=
  length (List.filter is_folder rows).

(** [process_directory_listing(output, error)], given the order
    [lessThan] the toolkit sorts the texts of the items by. *)
Definition process_directory_listing (lessThan : string -> string -> bool)
    (self : explorer) (output : string) (error : bool) : res explorer :=
  if error && negb (nonempty (strip output)) then
    Ret (show (showMessage "Error loading directory")
           (show (critical "Error"
                    (if nonempty output then output else "Unknown error listing directory"))
              self))
  else
    let warned := error && nonempty (strip output) in
    let permission_issue :=
      warned && (contains "permission denied" (lower output) || startswith output "ls:"
                 || contains "cannot access" (lower output)) in
    let self := if warned then show (showMessage "Directory loaded with some warnings") self
                else self in
    let self := set_table [] self in
    rows <~ listing_rows (splitlines output) ;;
    let rows := sort_rows rows in
    let self :=
      if negb (bool_decide (current_path self = "/")) && negb (endswith (current_path self) ":/")
      then set_table [("..", "Folder", "-", "-")] self
      else self in
    let self := populate rows self in
    let self := setSortingEnabled_True lessThan self in
    let self := sort_table lessThan self in
    let folder_count := count_folders rows in
    let file_count := (length rows - folder_count)%nat in
    let status_msg :=
      "Directory: " +:+ current_path self +:+ " | " +:+ str_of_int (Z.of_nat folder_count)
      +:+ " folder(s), " +:+ str_of_int (Z.of_nat file_count) +:+ " file(s)"
      +:+ (if permission_issue then " (some items may be inaccessible)" else EmptyString) in
    Ret (show (showMessage status_msg) self).

End fileexplorer.

(** ** main/adbfunc.py *)

Module adbfunc.
Import Py Proc Os.
Local Open Scope eff_scope.

Inductive event :=
  | info_ready (text : string)
  | critical (title text : string)
  | run_command_async (command description tool : string)
  | accept.

(** *** DeviceInfoWorker *)

Definition _get_device_commands (adb_path : string) : list (string * string) :=
  [ ("IMEI", adb_path +:+ " shell service call iphonesubinfo 3");
    ("Fingerprint", adb_path +:+ " shell getprop ro.build.fingerprint");
    ("Board", adb_path +:+ " shell getprop ro.product.board");
    ("Build ID", adb_path +:+ " shell getprop ro.build.id");
    ("Android Version", adb_path +:+ " shell getprop ro.build.version.release");
    ("Manufacturer", adb_path +:+ " shell getprop ro.product.manufacturer");
    ("Model", adb_path +:+ " shell getprop ro.product.model");
    ("Product Name", adb_path +:+ " shell getprop ro.product.name");
    ("Architecture", adb_path +:+ " shell getprop ro.product.cpu.abi");
    ("Resolution", adb_path +:+ " shell wm size");
    ("Total RAM", adb_path +:+ " shell cat /proc/meminfo");
    ("Total Storage", adb_path +:+ " shell df");
    ("Root Method", adb_path +:+ " shell su -v") ].

(** [re.findall(r"\d+", s)]: the maximal runs of decimal digits. *)
Fixpoint digit_runs (cur : string) (s : string) : list string :=
  match s with
  | EmptyString => if nonempty cur then [cur] else []
  | String c s' =>
      if isdecimal_char c then digit_runs (cur +:+ String c EmptyString) s'
      else if nonempty cur then cur :: digit_runs EmptyString s'
      else digit_runs EmptyString s'
  end.

Definition _parse_imei (raw_output : string) : string :=
  match digit_runs EmptyString raw_output with
  | [] => "Unknown"
  | matches =>
      let imei := join EmptyString matches in
      if decide (14 <= String.length imei)%nat then take 15 imei else "Unknown"
  end.

Fixpoint _parse_total_ram_lines (lines : list string) : res Z :=
  match lines with
  | [] => Ret 0
  | line :: rest =>
      if contains "MemTotal" line then
        field <~ index (fields line) 1 ;; to_int field
      else _parse_total_ram_lines rest
  end.

Definition _parse_total_ram (output : string) : res Z :=
  _parse_total_ram_lines (splitlines output).

Definition storage_patterns : list string := ["/data"; "/data/media"; "/storage/emulated"].

Fixpoint _parse_total_storage_lines (lines : list string) : res Z :=
  match lines with
  | [] => Ret 0
  | line :: rest =>
      if existsb (fun pattern => contains pattern line) storage_patterns then
        match fields line with
        | _ :: size :: _ =>
            if isdigit size then to_int size else _parse_total_storage_lines rest
        | _ => _parse_total_storage_lines rest
        end
      else _parse_total_storage_lines rest
  end.

Definition _parse_total_storage (output : string) : res Z :=
  _parse_total_storage_lines (splitlines output).

(** [f"{math.ceil(n / (1024 ** 2))} GB"] *)
Definition gigabytes (n : Z) : res string :=
  q <~ int_truediv_pow2 n 20 ;;
  c <~ ceil q ;;
  Ret (str_of_int c +:+ " GB").

Definition _format_output (label output : string) : res string :=
  if bool_decide (label = "Total RAM") then
    n <~ _parse_total_ram output ;; gigabytes n
  else if bool_decide (label = "Total Storage") then
    n <~ _parse_total_storage output ;; gigabytes n
  else if bool_decide (label = "IMEI") then Ret (_parse_imei output)
  else Ret output.

(** The body of the loop of [DeviceInfoWorker.run]: the entry appended to
    [results] for one command. *)
Definition device_result (label command : string) : M event string :=
  try_catch
    (result <- run (Shell command) (Some 10%N) ;;
     if returncode result =? 0 then
       formatted_output <- lift (_format_output label (strip (stdout result))) ;;
       ret (label +:+ ": " +:+ formatted_output)
     else
       ret (label +:+ ": Error - " +:+ strip (stderr result)))
    (fun e =>
       match e with
       | TimeoutExpired => ret (label +:+ ": Timeout")
       | _ => ret (label +:+ ": Error - " +:+ exn_text e)
       end).

Fixpoint device_results (commands : list (string * string)) : M event (list string) :=
  match commands with
  | [] => ret []
  | (label, command) :: rest =>
      r <- device_result label command ;;
      rs <- device_results rest ;;
      ret (r :: rs)
  end.

Definition DeviceInfoWorker_run (adb_path : string) : M event unit :=
  results <- device_results (_get_device_commands adb_path) ;;
  emit (info_ready (join newline results)).

(** *** WirelessADBDialog *)

(** [_validate_address]: the only exception caught is [ValueError], raised
    by the unpacking of a one-element list or by [int]. *)
Definition _validate_address (address : string) : res bool :=
  if negb (nonempty address) then Ret false
  else if negb (contains ":" address) then Ret false
  else
    match
      match rsplit1 ":" address with
      | None => Raise (ValueError "not enough values to unpack (expected 2, got 1)")
      | Some (host, port) =>
          port_num <~ to_int port ;;
          Ret ((0 <? String.length host)%nat && (1 <=? port_num) && (port_num <=? 65535))
      end
    with
    | Raise (ValueError _) => Ret false
    | r => r
    end.


End adbfunc.

(** ** modules/partitionmanager.py *)

Module partitionmanager.
Import Py Proc Os.
Local Open Scope eff_scope.

(** *** FormatSize *)

(** The [while] loop of [human_readable_size]: [unit] is [size_names[i]] and
    [rest] the names after it. *)
Fixpoint human_loop (unit : string) (rest : list string) (size_bytes : num) : res string :=
  match rest with
  | next :: rest' =>
      if negb (num_lt_1024 size_bytes) then
        size' <~ num_div_1024 size_bytes ;; human_loop next rest' size'
      else t <~ format_num 2 size_bytes ;; Ret (t +:+ " " +:+ unit)
  | [] => t <~ format_num 2 size_bytes ;; Ret (t +:+ " " +:+ unit)
  end.

Definition human_readable_size (size_bytes : Z) : res string :=
  if size_bytes =? 0 then Ret "0 B"
  else human_loop "B" ["KB"; "MB"; "GB"; "TB"] (Int size_bytes).

(** *** PartitionLoadWorker *)

Record partition_info := {
  name : string;
  path : string;
  permissions : string;
  size_bytes : Z;
  size_human : string
}.

Inductive event :=
  | partitions_loaded (partitions : list partition_info)
  | log_message (text : string)
  | progress_update (current total : nat)
  | finished_loading
  | error_occurred (text : string)
  | progress (text : string)
  | finished_with_status (success : bool)
  | warning (title text : string)
  | critical (title text : string)
  | information (title text : string)
  | statusMessage (text : string).

Definition adb (platform_tools_path : string) : string :=
  path_join platform_tools_path "adb".

Definition get_partition_size (platform_tools_path partition_name : string) : M event Z :=
  try_catch
    (result <- run (Argv [adb platform_tools_path; "shell"; "su"; "-c";
                          "blockdev --getsize64 /dev/block/by-name/" +:+ partition_name])
                   None ;;
     if returncode result =? 0 then
       let size := strip (stdout result) in
       if isdigit size then lift (to_int size) else ret 0
     else ret 0)
    (fun _ => ret 0).

(** [parts[-k-1]] *)
Definition from_end (parts : list string) (k : nat) : res string :=
  match item_from_end k parts with
  | Some x => Ret x
  | None => Raise (IndexError "list index out of range")
  end.

(** The body of the loop over the lines: the entry appended, if any. *)
Definition load_line (platform_tools_path : string) (current total : nat) (line : string)
  : M event (option partition_info) :=
  let parts := fields line in
  if decide (9 <= length parts)%nat then
    try_catch
      (permissions <- lift (index parts 0) ;;
       partition_name <- lift (from_end parts 2) ;;
       partition_path <- lift (from_end parts 0) ;;
       if negb (contains "lrwxrwxrwx" permissions) || negb (contains "->" line) then ret None
       else
         emit (progress_update (current + 1) total) ;;
         emit (log_message ("Getting size for partition: " +:+ partition_name)) ;;
         size_bytes <- get_partition_size platform_tools_path partition_name ;;
         size_human <- lift (human_readable_size size_bytes) ;;
         ret (Some {| name := partition_name; path := partition_path;
                      permissions := permissions; size_bytes := size_bytes;
                      size_human := size_human |}))
      (fun e =>
         emit (log_message ("Error processing partition: " +:+ exn_text e)) ;;
         ret None)
  else ret None.

Fixpoint load_lines (platform_tools_path : string) (current total : nat)
    (lines : list string) : M event (list partition_info) :=
  match lines with
  | [] => ret []
  | line :: rest =>
      p <- load_line platform_tools_path current total line ;;
      ps <- load_lines platform_tools_path (S current) total rest ;;
      ret (match p with Some x => x :: ps | None => ps end)
  end.

Definition PartitionLoadWorker_run (platform_tools_path : string) : M event unit :=
  try_catch
    (emit (log_message "Loading partitions from device...") ;;
     result <- run (Argv [adb platform_tools_path; "shell"; "ls -l /dev/block/by-name"]) None ;;
     if negb (returncode result =? 0) then
       emit (error_occurred ("Failed to load partitions:" +:+ newline +:+ strip (stderr result)))
     else
       let lines := splitlines (stdout result) in
       if decide (length lines <= 1)%nat then
         emit (error_occurred "No partitions found or device not accessible.")
       else
         let lines := List.tl lines in
         partitions_data <- load_lines platform_tools_path 0 (length lines) lines ;;
         emit (partitions_loaded partitions_data) ;;
         emit (log_message ("Loaded " +:+ str_of_int (Z.of_nat (length partitions_data))
                            +:+ " partitions from device")) ;;
         emit finished_loading)
    (fun e => emit (error_occurred ("Error loading partitions:" +:+ newline +:+ exn_text e))).

(** *** PartitionFlashWorker *)

Definition PartitionFlashWorker_run (platform_tools_path : string)
    (partition : partition_info) (image_path : string) : M event bool :=
  try_catch
    (let partition_name := name partition in
     emit (progress "Pushing image file to device...") ;;
     emit (log_message ("Pushing image for " +:+ partition_name +:+ " to device...")) ;;
     result <- run (Argv [adb platform_tools_path; "push"; image_path;
                          "/sdcard/" +:+ partition_name +:+ ".img"]) None ;;
     if negb (returncode result =? 0) then
       emit (log_message ("Failed to push image to device: " +:+ strip (stderr result))) ;;
       emit (progress "Failed to push image to device") ;;
       emit (finished_with_status false) ;;
       ret false
     else
       emit (progress ("Flashing " +:+ partition_name +:+ "...")) ;;
       emit (log_message ("Flashing " +:+ partition_name +:+ "...")) ;;
       result <- run (Argv [adb platform_tools_path; "shell"; "su"; "-c";
                            "dd if=/sdcard/" +:+ partition_name
                            +:+ ".img of=/dev/block/by-name/" +:+ partition_name]) None ;;
       partition_success <-
         (if negb (returncode result =? 0) then
            emit (log_message ("Failed to flash " +:+ partition_name +:+ ": "
                               +:+ strip (stderr result))) ;;
            emit (progress ("Failed to flash " +:+ partition_name)) ;;
            ret false
          else
            emit (log_message ("Successfully flashed " +:+ partition_name)) ;;
            emit (progress ("Successfully flashed " +:+ partition_name)) ;;
            ret true) ;;
       emit (progress "Cleaning up...") ;;
       emit (log_message "Cleaning up temporary files...") ;;
       result <- run (Argv [adb platform_tools_path; "shell"; "su"; "-c";
                            "rm /sdcard/" +:+ partition_name +:+ ".img"]) None ;;
       (if negb (returncode result =? 0) then
          emit (log_message ("Failed to remove temporary file: " +:+ strip (stderr result))) ;;
          emit (progress "Failed to clean up temporary file")
        else ret tt) ;;
       emit (finished_with_status partition_success) ;;
       ret partition_success)
    (fun e =>
       emit (log_message ("Error during flash operation: " +:+ exn_text e)) ;;
       emit (progress "Error during flash operation") ;;
       emit (finished_with_status false) ;;
       ret false).

(** *** PartitionManager *)

(** The part of the window [flash_partition] reads and writes. *)
Record PartitionManager := {
  platform_tools_path : string;
  selected_partitions : list partition_info;
  flash_worker : option (partition_info * string);
  progress_dialog : option string;
  controls_enabled : bool
}.

(** What the user answers when asked: the reply to the warning and the file
    picked ([EmptyString] when the file dialog is cancelled). *)
Record user := {
  reply_yes : bool;
  image_path : string
}.

Definition flash_finished (self : PartitionManager) (success : bool)
  : M event PartitionManager :=
  let self := {| platform_tools_path := platform_tools_path self;
                 selected_partitions := selected_partitions self;
                 flash_worker := flash_worker self;
                 progress_dialog := None;
                 controls_enabled := true |} in
  let partition_name :=
    match selected_partitions self with
    | p :: _ => name p
    | [] => "Unknown"
    end in
  (if success then
     emit (log_message ("Partition flash operation completed successfully for "
                        +:+ partition_name +:+ ".")) ;;
     emit (statusMessage ("Flash operation completed successfully for " +:+ partition_name)) ;;
     emit (information "Flash Complete"
             ("Successfully flashed " +:+ partition_name +:+ " partition."))
   else
     emit (log_message ("Partition flash operation failed for " +:+ partition_name +:+ ".")) ;;
     emit (statusMessage ("Flash operation failed for " +:+ partition_name)) ;;
     emit (critical "Flash Failed"
             ("Failed to flash " +:+ partition_name
              +:+ " partition. Check logs for details."))) ;;
  ret self.

Definition flash_warning (partition_name : string) : string :=
  "WARNING: You are about to flash the '" +:+ partition_name +:+ "' partition!"
  +:+ newline +:+ newline
  +:+ "This operation will OVERWRITE the existing partition data and cannot be undone."
  +:+ newline
  +:+ "Flashing incorrect data or interrupting the process may lead to system instability "
  +:+ "or brick your device." +:+ newline +:+ newline
  +:+ "Are you absolutely sure you want to continue?".

(** [flash_partition].  Starting the worker is modelled as running it and
    then the slot connected to [finished_with_status]. *)
Definition flash_partition (u : user) (self : PartitionManager) : M event PartitionManager :=
  match selected_partitions self with
  | [] =>
      emit (warning "No Selection" "No partition selected for flashing.") ;;
      ret self
  | _ :: _ :: _ =>
      emit (critical "Multiple Selections"
              ("For safety reasons, you can only flash one partition at a time. "
               +:+ "Please select only one partition.")) ;;
      ret self
  | [partition] =>
      let partition_name := name partition in
      emit (warning "Flash Partition - DANGER" (flash_warning partition_name)) ;;
      if negb (reply_yes u) then ret self
      else if negb (nonempty (image_path u)) then ret self
      else
        let self := {| platform_tools_path := platform_tools_path self;
                       selected_partitions := selected_partitions self;
                       flash_worker := Some (partition, image_path u);
                       progress_dialog := Some ("Flashing " +:+ partition_name);
                       controls_enabled := false |} in
        success <- PartitionFlashWorker_run (platform_tools_path self) partition (image_path u) ;;
        flash_finished self success
  end.

End partitionmanager.

(** ** modules/appmanager.py *)

Module appmanager.
Import Py Proc Os.
Local Open Scope eff_scope.

(** *** AppManagerWorker *)

(** An element of [all_apps]: name shown, package name, status, type. *)
Definition app : Type := string * string * string * string.

Inductive event :=
  | finished
  | log_message (text : string)
  | apps_loaded (apps : list app).

(** [parse_app_info]: [None] stands for the triple [(None, None, None)].
    Nothing in the body can raise, so the [except] branch is never taken. *)
Definition parse_app_info (package_info : string) : option (string * string * string) :=
  let parts := split "=" package_info in
  let package_name := strip (List.last parts EmptyString) in
  let path_part := join "=" (but_last parts) in
  let file_path := strip (replace "package:" EmptyString path_part) in
  if nonempty package_name then
    let app_type :=
      if contains "/data/app/" file_path then "User App"
      else if contains "/system/app/" file_path || contains "/system/priv-app/" file_path
      then "System App"
      else if contains "/vendor/" file_path then "Vendor App"
      else "Unknown" in
    let app_name :=
      capitalize (replace "_" " " (List.last (split "." package_name) EmptyString)) in
    Some (app_name, package_name, app_type)
  else None.

Definition _run_adb_command (platform_tools_path : string) (command_args : list string)
  : M event CompletedProcess :=
  run (Argv (path_join platform_tools_path "adb" :: command_args)) None.

(** The set comprehension over the lines of [pm list packages -d]. *)
Definition disabled_set (output : string) : gset string :=
  list_to_set (List.map (fun line => strip (replace "package:" EmptyString line))
                        (splitlines output)).

(** The loop of [load_apps] over the lines of [pm list packages -f]. *)
Fixpoint collect_apps (disabled_packages : gset string) (packages : list string) : list app :=
  match packages with
  | [] => []
  | package_info :: rest =>
      match parse_app_info package_info with
      | Some (app_name, package_name, app_type) =>
          if nonempty app_name && nonempty package_name then
            let status := if bool_decide (package_name ∈ disabled_packages)
                          then "Disabled" else "Enabled" in
            (app_name, package_name, status, app_type) :: collect_apps disabled_packages rest
          else collect_apps disabled_packages rest
      | None => collect_apps disabled_packages rest
      end
  end.

Definition load_apps (platform_tools_path : string) : M event unit :=
  emit (log_message "Fetching installed apps...") ;;
  try_catch
    (result <- _run_adb_command platform_tools_path ["shell"; "pm"; "list"; "packages"; "-f"] ;;
     if negb (returncode result =? 0) then
       emit (log_message ("Error fetching apps: " +:+ strip (stderr result)))
     else
       let packages := splitlines (stdout result) in
       disabled_result <-
         _run_adb_command platform_tools_path ["shell"; "pm"; "list"; "packages"; "-d"] ;;
       let all_apps := collect_apps (disabled_set (stdout disabled_result)) packages in
       emit (log_message ("Loaded " +:+ str_of_int (Z.of_nat (length all_apps))
                          +:+ " apps successfully.")) ;;
       emit (apps_loaded all_apps))
    (fun e => emit (log_message ("Error loading apps: " +:+ exn_text e))).

(** [AppManagerWorker.run] for the operation ["load_apps"]. *)
Definition AppManagerWorker_run (platform_tools_path : string) : M event unit :=
  load_apps platform_tools_path ;;
  emit finished.

(** *** Presets *)

(** A value read from or written to a JSON file.  [JScalar] holds a number,
    a truth value or null, as [str] prints it. *)
Inductive json :=
  | JString (s : string)
  | JScalar (text : string)
  | JArray (items : list json)
  | JObject (members : list (string * json)).

(** [dict.get(key, default)] *)
Fixpoint dict_get (key : string) (members : list (string * json)) (default : json) : json :=
  match members with
  | [] => default
  | (k, v) :: rest => if String.eqb k key then v else dict_get key rest default
  end.

(** [str(v)] of a loaded value, as an f-string prints it. *)
Fixpoint json_repr (v : json) : string :=
  match v with
  | JString s => repr s
  | JScalar t => t
  | JArray items => "[" +:+ join ", " (List.map json_repr items) +:+ "]"
  | JObject members =>
      "{" +:+ join ", " (List.map (fun kv => repr (fst kv) +:+ ": " +:+ json_repr (snd kv))
                                  members) +:+ "}"
  end.

Definition json_str (v : json) : string :=
  match v with
  | JString s => s
  | other => json_repr other
  end.

Definition hashable (v : json) : bool :=
  match v with
  | JString _ | JScalar _ => true
  | JArray _ | JObject _ => false
  end.

Fixpoint chars (s : string) : list json :=
  match s with
  | EmptyString => []
  | String c s' => JString (String c EmptyString) :: chars s'
  end.

(** [set(v)]: the members of the set, or the exception [set] raises. *)
Definition set_of (v : json) : res (list json) :=
  match v with
  | JArray items =>
      if forallb hashable items then Ret items
      else Raise (TypeError "unhashable type")
  | JString s => Ret (chars s)
  | JObject members => Ret (List.map (fun kv => JString (fst kv)) members)
  | JScalar _ => Raise (TypeError "object is not iterable")
  end.

(** The strings among the members of a set. *)
Fixpoint strings_of (members : list json) : gset string :=
  match members with
  | [] => ∅
  | JString s :: rest => {[ s ]} ∪ strings_of rest
  | _ :: rest => strings_of rest
  end.

(** A row of the table model: the check box and the four text columns. *)
Record model_row := {
  checked : bool;
  app_name : string;
  package_name : string;
  status : string;
  app_type : string
}.

Inductive box :=
  | warning (title text : string)
  | critical (title text : string).

(** The part of the window the preset code reads and writes. *)
Record AppManagerUI := {
  selected_packages : gset string;
  model : list model_row;
  log_output : list string;
  boxes : list box
}.

Definition log (message : string) (self : AppManagerUI) : AppManagerUI :=
  {| selected_packages := selected_packages self; model := model self;
     log_output := log_output self ++ [message]; boxes := boxes self |}.

Definition show_box (b : box) (self : AppManagerUI) : AppManagerUI :=
  {| selected_packages := selected_packages self; model := model self;
     log_output := log_output self; boxes := boxes self ++ [b] |}.

Definition set_checked (b : bool) (r : model_row) : model_row :=
  {| checked := b; app_name := app_name r; package_name := package_name r;
     status := status r; app_type := app_type r |}.

(** [sorted(list(s))] for a set of strings: a stable insertion sort of the
    elements, in whatever order the set yields them. *)
Fixpoint insert_name (x : string) (sorted : list string) : list string :=
  match sorted with
  | [] => [x]
  | y :: rest => if String.ltb y x then y :: insert_name x rest else x :: sorted
  end.

Definition sorted (l : list string) : list string := foldr insert_name [] l.

(** What the user does in [create_preset]: accept the dialog or not, the
    three inputs, the path chosen ([EmptyString]: the file dialog was
    cancelled), and the error [open] meets, if any. *)
Record create_inputs := {
  accepted : bool;
  name_input : string;
  author_input : string;
  description_input : string;
  save_path : string;
  open_error : option exn
}.

Definition preset_data (u : create_inputs) (selected : gset string) : json :=
  JObject
    [ ("name", JString (if nonempty (strip (name_input u)) then strip (name_input u)
                        else "New Preset"));
      ("author", JString (strip (author_input u)));
      ("description", JString (strip (description_input u)));
      ("selected_packages", JArray (List.map JString (sorted (elements selected)))) ].

(** The attributes of the class [ThemeManager] of util/thememanager.py. *)
Definition ThemeManager_attributes : list string :=
  [ "CONFIG_FILE"; "get_config_path"; "ensure_default"; "read_theme_name";
    "write_theme_name"; "load_qss"; "apply_classic"; "apply_theme" ].

(** [ThemeManager.<name>]: the look-up of an attribute of the class. *)
Definition ThemeManager_getattr (name : string) : res unit :=
  if existsb (String.eqb name) ThemeManager_attributes then Ret tt
  else Raise (AttributeError ("type object 'ThemeManager' has no attribute '"
                              +:+ name +:+ "'")).

(** [apply_dialog_theme(dialog)]:
    [dialog.setStyleSheet(ThemeManager.get_dialog_style())]. *)
Definition apply_dialog_theme : res unit := ThemeManager_getattr "get_dialog_style".

(** [create_preset]: the window and the files afterwards, or the exception
    that leaves the slot. *)
Definition create_preset (u : create_inputs) (self : AppManagerUI) (files : gmap string json)
  : res (AppManagerUI * gmap string json) :=
  if bool_decide (selected_packages self = ∅) then
    Ret (show_box (warning "No Apps Selected" "Please select apps before creating a preset.")
           self,
         files)
  else
    _ <~ apply_dialog_theme ;;
    if negb (accepted u) then Ret (self, files)
    else
      let preset_name := if nonempty (strip (name_input u)) then strip (name_input u)
                         else "New Preset" in
      let data := preset_data u (selected_packages self) in
      if negb (nonempty (save_path u)) then Ret (self, files)
      else
        match open_error u with
        | Some e =>
            Ret (show_box (critical "Error Saving Preset"
                             ("Failed to save preset: " +:+ exn_text e)) self,
                 files)
        | None =>
            Ret (log ("Created preset '" +:+ preset_name +:+ "' with "
                      +:+ str_of_int (Z.of_nat (length (sorted (elements
                                                                  (selected_packages self)))))
                      +:+ " apps.") self,
                 <[save_path u := data]> files)
        end.

Definition deselect_all (self : AppManagerUI) : AppManagerUI :=
  log "Deselected all apps."
    {| selected_packages := ∅;
       model := List.map (set_checked false) (model self);
       log_output := log_output self; boxes := boxes self |}.

(** The loop of [_apply_preset] over the rows of the model. *)
Fixpoint check_rows (packages_in_preset : gset string) (rows : list model_row)
    (selected : gset string) : list model_row * gset string :=
  match rows with
  | [] => ([], selected)
  | r :: rest =>
      if bool_decide (package_name r ∈ packages_in_preset) then
        let '(rest', selected') :=
          check_rows packages_in_preset rest ({[ package_name r ]} ∪ selected) in
        (set_checked true r :: rest', selected')
      else
        let '(rest', selected') := check_rows packages_in_preset rest selected in
        (r :: rest', selected')
  end.

(** [json.load(open(path))] and the two [get]s, with what they raise. *)
Definition load_preset_members (preset_path : string) (files : gmap string json)
  : res (json * list json) :=
  match files !! preset_path with
  | None => Raise (OSError "No such file or directory")
  | Some (JObject members) =>
      items <~ set_of (dict_get "selected_packages" members (JArray [])) ;;
      Ret (JObject members, items)
  | Some _ => Raise (AttributeError "object has no attribute 'get'")
  end.

Definition _apply_preset (preset_path : string) (files : gmap string json)
    (self : AppManagerUI) : AppManagerUI :=
  match load_preset_members preset_path files with
  | Ret (JObject members, items) =>
      match items with
      | [] => log "Preset is empty or invalid." self
      | _ =>
          let self := deselect_all self in
          let '(rows, selected) :=
            check_rows (strings_of items) (model self) (selected_packages self) in
          log ("Loaded preset '" +:+ json_str (dict_get "name" members (JString "Untitled"))
               +:+ "' with " +:+ str_of_int (Z.of_nat (size selected))
               +:+ " apps selected.")
            {| selected_packages := selected; model := rows;
               log_output := log_output self; boxes := boxes self |}
      end
  | Ret _ => self
  | Raise e =>
      show_box (critical "Error Loading Preset" ("Failed to load preset: " +:+ exn_text e)) self
  end.

(** [toggle_selection] on a row of the model. *)
Definition toggle_selection (row : nat) (self : AppManagerUI) : AppManagerUI :=
  match model self !! row with
  | None => self
  | Some r =>
      let new_state := negb (checked r) in
      {| selected_packages :=
           if new_state then {[ package_name r ]} ∪ selected_packages self
           else selected_packages self ∖ {[ package_name r ]};
         model := <[row := set_checked new_state r]> (model self);
         log_output := log_output self; boxes := boxes self |}
  end.

Definition populate_app_list (apps : list app) (self : AppManagerUI) : AppManagerUI :=
  {| selected_packages := selected_packages self;
     model := model self ++
              List.map (fun a : app =>
                          let '(n, p, s, t) := a in
                          {| checked := false; app_name := n; package_name := p;
                             status := s; app_type := t |}) apps;
     log_output := log_output self; boxes := boxes self |}.

End appmanager.

(** ** modules/bootanimcreator.py *)

Module bootanimcreator.
Import Py Proc Os.
Local Open Scope eff_scope.

Definition tmp_remote : string := "/data/local/tmp/bootanimation_quickadb.zip".

Definition copy_command (remote_path : string) : string :=
  "cp " +:+ quoted remote_path +:+ " " +:+ quoted tmp_remote
  +:+ " && chmod 0644 " +:+ quoted tmp_remote.

(** [adb pull] of the temporary copy and the check that the file arrived. *)
Definition pull_tmp (adb_cmd local_dest : string) : M Empty_set bool :=
  pull <- run (Argv [adb_cmd; "pull"; tmp_remote; local_dest]) (Some 90%N) ;;
  if returncode pull =? 0 then exists_path local_dest else ret false.

(** The first method: one [su -c] with copy and chmod, as an argument vector. *)
Definition pull_by_argv (remote_path adb_cmd local_dest : string) : M Empty_set bool :=
  try_catch
    (cp <- run (Argv [adb_cmd; "shell"; "su"; "-c"; copy_command remote_path]) (Some 25%N) ;;
     if returncode cp =? 0 then
       ok <- pull_tmp adb_cmd local_dest ;;
       if ok then
         run (Argv [adb_cmd; "shell"; "su"; "-c"; "rm " +:+ quoted tmp_remote]) None ;;
         ret true
       else ret false
     else ret false)
    (fun _ => ret false).

(** The second method: the same command as one line for the shell. *)
Definition pull_by_shell (remote_path adb_cmd local_dest : string) : M Empty_set bool :=
  try_catch
    (proc <- run (Shell (adb_cmd +:+ " shell su -c '" +:+ copy_command remote_path +:+ "'"))
                 (Some 30%N) ;;
     if returncode proc =? 0 then
       ok <- pull_tmp adb_cmd local_dest ;;
       if ok then
         run (Shell (adb_cmd +:+ " shell " +:+ String dquote ("su -c rm "
                     +:+ String backslash (String dquote (tmp_remote
                     +:+ String backslash (String dquote (String dquote EmptyString)))))))
             None ;;
         ret true
       else ret false
     else ret false)
    (fun _ => ret false).

(** The third method: copy and chmod as two commands. *)
Definition pull_by_steps (remote_path adb_cmd local_dest : string) : M Empty_set bool :=
  try_catch
    (proc1 <- run (Argv [adb_cmd; "shell";
                         "su -c cp " +:+ quoted remote_path +:+ " " +:+ quoted tmp_remote])
                  (Some 20%N) ;;
     if returncode proc1 =? 0 then
       proc2 <- run (Argv [adb_cmd; "shell"; "su -c chmod 0644 " +:+ quoted tmp_remote])
                    (Some 10%N) ;;
       if returncode proc2 =? 0 then
         ok <- pull_tmp adb_cmd local_dest ;;
         if ok then
           run (Argv [adb_cmd; "shell"; "su"; "-c"; "rm " +:+ quoted tmp_remote]) None ;;
           ret true
         else ret false
       else ret false
     else ret false)
    (fun _ => ret false).

Definition pull_root_zip_sync (remote_path adb_cmd : string) (local_dest : option string)
  : M Empty_set bool :=
  match local_dest with
  | None => raise (RuntimeError "local_dest must be specified")
  | Some local_dest =>
      ok <- pull_by_argv remote_path adb_cmd local_dest ;;
      if ok then ret true
      else
        ok <- pull_by_shell remote_path adb_cmd local_dest ;;
        if ok then ret true
        else pull_by_steps remote_path adb_cmd local_dest
  end.

End bootanimcreator.

(** ** modules/fileexplorer.py: the paths visited *)

Module navigation.
Import Py Proc Os.

(** [os.path.dirname] with POSIX separators: the path up to its last
    slash, without the slashes at its end unless it is made of slashes. *)
Fixpoint rstrip_sep (s : string) : string :=
  match s with
  | EmptyString => EmptyString
  | String c s' =>
      match rstrip_sep s' with
      | EmptyString => if Ascii.eqb c "/" then EmptyString else String c EmptyString
      | r => String c r
      end
  end.

Definition dirname (p : string) : string :=
  match rsplit1 "/" p with
  | None => EmptyString
  | Some (h, _) =>
      let head := h +:+ "/" in
      if all_chars (fun c => Ascii.eqb c "/") head then head else rstrip_sep head
  end.

(** The part of the window the navigation reads and writes.  The two
    stacks are Python lists: the top is the last element.  [status] holds
    the messages shown in the status bar and [started] the commands of the
    listing threads started, both oldest first. *)
Record window := {
  adb_path : string;
  root_access : bool;
  current_path : string;
  history_stack : list string;
  forward_stack : list string;
  back_enabled : bool;
  forward_enabled : bool;
  path_field : string;
  search_field : string;
  table : list (string * string * string * string);
  symlink_targets : gmap nat string;
  status : list string;
  started : list fileexplorer.ADBThread
}.

(** The command of [refresh_file_list] for the current path. *)
Definition listing_command (self : window) : list string :=
  if root_access self then
    ["shell"; "su -c " +:+ quoted ("ls -la " +:+ String backslash (quoted
                (current_path self +:+ String backslash EmptyString)))]
  else ["shell"; "ls -la " +:+ quoted (current_path self)].

Definition refresh_file_list (self : window) : window :=
  {| adb_path := adb_path self; root_access := root_access self;
     current_path := current_path self;
     history_stack := history_stack self; forward_stack := forward_stack self;
     back_enabled := back_enabled self; forward_enabled := forward_enabled self;
     path_field := path_field self;
     search_field := EmptyString;
     table := [];
     symlink_targets := ∅;
     status := status self ++ ["Loading directory contents..."]
               ++ (if root_access self
                   then ["Loading directory contents with root access..."] else []);
     started := started self ++
                [{| fileexplorer.adb_path := adb_path self;
                    fileexplorer.command := listing_command self;
                    fileexplorer.params := [] |}] |}.

(** The assignments of a move to [new_path], before the listing is
    refreshed: [push_history] says whether the current path goes on the
    history and the forward stack is cleared. *)
Definition with_path (new_path : string) (history forward : list string)
    (back forward_on : bool) (self : window) : window :=
  {| adb_path := adb_path self; root_access := root_access self;
     current_path := new_path;
     history_stack := history; forward_stack := forward;
     back_enabled := back; forward_enabled := forward_on;
     path_field := new_path;
     search_field := search_field self; table := table self;
     symlink_targets := symlink_targets self;
     status := status self; started := started self |}.

Definition set_back_enabled (b : bool) (self : window) : window :=
  {| adb_path := adb_path self; root_access := root_access self;
     current_path := current_path self;
     history_stack := history_stack self; forward_stack := forward_stack self;
     back_enabled := b; forward_enabled := forward_enabled self;
     path_field := path_field self;
     search_field := search_field self; table := table self;
     symlink_targets := symlink_targets self;
     status := status self; started := started self |}.

Definition set_forward_enabled (b : bool) (self : window) : window :=
  {| adb_path := adb_path self; root_access := root_access self;
     current_path := current_path self;
     history_stack := history_stack self; forward_stack := forward_stack self;
     back_enabled := back_enabled self; forward_enabled := b;
     path_field := path_field self;
     search_field := search_field self; table := table self;
     symlink_targets := symlink_targets self;
     status := status self; started := started self |}.

(** The steps shared by [change_path] and [go_to_parent_directory]. *)
Definition visit (new_path : string) (self : window) : window :=
  set_back_enabled true
    (refresh_file_list
       (with_path new_path (history_stack self ++ [current_path self]) []
          (back_enabled self) false self)).

Definition change_path (self : window) : window :=
  let new_path := strip (path_field self) in
  if nonempty new_path && negb (String.eqb new_path (current_path self))
  then visit new_path self
  else self.

Definition go_back (self : window) : window :=
  match last_item (history_stack self) with
  | None => self
  | Some previous =>
      let history := but_last (history_stack self) in
      set_back_enabled (match history with [] => false | _ => true end)
        (refresh_file_list
           (with_path previous history (forward_stack self ++ [current_path self])
              (back_enabled self) true self))
  end.

Definition go_forward (self : window) : window :=
  match last_item (forward_stack self) with
  | None => self
  | Some next =>
      let forward := but_last (forward_stack self) in
      set_forward_enabled (match forward with [] => false | _ => true end)
        (refresh_file_list
           (with_path next (history_stack self ++ [current_path self]) forward
              true (forward_enabled self) self))
  end.

Definition go_to_parent_directory (self : window) : window :=
  let parent_path := dirname (current_path self) in
  if nonempty parent_path && negb (String.eqb parent_path (current_path self))
  then visit parent_path self
  else self.

End navigation.

(** ** modules/fileexplorer.py: the permission grid of [show_chmod_dialog] *)

Module chmod_dialog.
Import Py Proc Os.
Local Open Scope eff_scope.

(** The check boxes of one column, and the grid of the three columns. *)
Record column := { r : bool; w : bool; x : bool }.
Record checkboxes := { owner : column; group : column; other : column }.

Definition bits_for (col : column) : Z :=
  (if r col then 4 else 0) + (if w col then 2 else 0) + (if x col then 1 else 0).

Definition perms_to_mode (boxes : checkboxes) : string :=
  str_of_int (bits_for (owner boxes)) +:+ str_of_int (bits_for (group boxes))
  +:+ str_of_int (bits_for (other boxes)).

(** [set_bits]: [bool(val & 4)], [bool(val & 2)], [bool(val & 1)]. *)
Definition set_bits (val : Z) : column :=
  {| r := negb (Z.land val 4 =? 0);
     w := negb (Z.land val 2 =? 0);
     x := negb (Z.land val 1 =? 0) |}.

(** [[int(ch) for ch in mode]] *)
Fixpoint digits_of (mode : string) : res (list Z) :=
  match mode with
  | EmptyString => Ret []
  | String ch rest =>
      d <~ to_int (String ch EmptyString) ;;
      ds <~ digits_of rest ;;
      Ret (d :: ds)
  end.

(** [set_checkboxes_from_mode]: any exception leaves the grid as it is. *)
Definition set_checkboxes_from_mode (mode_str : string) (boxes : checkboxes) : checkboxes :=
  let mode := strip mode_str in
  let mode :=
    if startswith mode "0" && (String.length mode =? 4)%nat
    then String.substring 1 (String.length mode - 1) mode else mode in
  if negb (String.length mode =? 3)%nat then boxes
  else
    match digits_of mode with
    | Ret [o; g; t] => {| owner := set_bits o; group := set_bits g; other := set_bits t |}
    | _ => boxes
    end.

(** [update_preview]: the text of the preview label. *)
Definition update_preview (full_path : string) (boxes : checkboxes) : string :=
  "chmod " +:+ perms_to_mode boxes +:+ " " +:+ quoted full_path.

End chmod_dialog.

(** ** modules/partitionmanager.py: pulling partitions *)

Module partitionpull.
Import Py Proc Os.
Local Open Scope eff_scope.

Inductive event :=
  | log_message (text : string)
  | progress (text : string)
  | finished_with_status (success : bool) (success_count total_count : nat)
  | information (title text : string)
  | warning (title text : string)
  | critical (title text : string)
  | statusMessage (text : string).

Definition count (n : nat) : string := str_of_int (Z.of_nat n).

(** The body of the loop of [PartitionPullWorker.run] for one partition:
    whether it was pulled.  [failed_pulls] is counted by the source and
    never read. *)
Definition pull_one (platform_tools_path save_dir : string)
    (current_partition total_partitions : nat) (partition_name : string) : M event bool :=
  let step := count current_partition +:+ "/" +:+ count total_partitions in
  emit (progress ("Processing " +:+ step +:+ ": Copying " +:+ partition_name
                  +:+ " to device...")) ;;
  emit (log_message ("Copying " +:+ partition_name +:+ " to device...")) ;;
  result <- run (Argv [partitionmanager.adb platform_tools_path; "shell"; "su"; "-c";
                       "dd if=/dev/block/by-name/" +:+ partition_name
                       +:+ " of=/sdcard/" +:+ partition_name +:+ ".img"]) None ;;
  if negb (returncode result =? 0) then
    emit (log_message ("Failed to copy " +:+ partition_name +:+ " to device: "
                       +:+ strip (stderr result))) ;;
    emit (progress ("Failed to copy " +:+ partition_name +:+ " to device")) ;;
    ret false
  else
    emit (progress ("Processing " +:+ step +:+ ": Pulling " +:+ partition_name
                    +:+ " from device...")) ;;
    emit (log_message ("Pulling " +:+ partition_name +:+ " from device...")) ;;
    result <- run (Argv [partitionmanager.adb platform_tools_path; "pull";
                         "/sdcard/" +:+ partition_name +:+ ".img"; save_dir]) None ;;
    if negb (returncode result =? 0) then
      emit (log_message ("Failed to pull " +:+ partition_name +:+ ": "
                         +:+ strip (stderr result))) ;;
      emit (progress ("Failed to pull " +:+ partition_name)) ;;
      ret false
    else
      emit (progress ("Processing " +:+ step +:+ ": Cleaning up " +:+ partition_name
                      +:+ " from device...")) ;;
      emit (log_message ("Cleaning up " +:+ partition_name +:+ " from device...")) ;;
      result <- run (Argv [partitionmanager.adb platform_tools_path; "shell"; "su"; "-c";
                           "rm /sdcard/" +:+ partition_name +:+ ".img"]) None ;;
      (if negb (returncode result =? 0) then
         emit (log_message ("Failed to remove " +:+ partition_name
                            +:+ ".img from device: " +:+ strip (stderr result))) ;;
         emit (progress ("Failed to clean up " +:+ partition_name))
       else ret tt) ;;
      emit (progress ("Processed " +:+ step +:+ ": Pulled " +:+ partition_name
                      +:+ " successfully")) ;;
      emit (log_message ("Pulled " +:+ partition_name +:+ " successfully")) ;;
      ret true.

(** The loop: the number of partitions pulled. *)
Fixpoint pull_all (platform_tools_path save_dir : string)
    (current_partition total_partitions successful_pulls : nat)
    (partitions : list partitionmanager.partition_info) : M event nat :=
  match partitions with
  | [] => ret successful_pulls
  | partition_info :: rest =>
      pulled <- pull_one platform_tools_path save_dir current_partition total_partitions
                         (partitionmanager.name partition_info) ;;
      pull_all platform_tools_path save_dir (S current_partition) total_partitions
               (if pulled then S successful_pulls else successful_pulls) rest
  end.

Definition PartitionPullWorker_run (platform_tools_path : string)
    (selected_partitions : list partitionmanager.partition_info) (save_dir : string)
  : M event unit :=
  try_catch
    (let total_partitions := length selected_partitions in
     successful_pulls <-
       pull_all platform_tools_path save_dir 1 total_partitions 0 selected_partitions ;;
     emit (finished_with_status (0 <? successful_pulls)%nat successful_pulls
                                total_partitions))
    (fun e =>
       emit (log_message ("Error during pull operation: " +:+ exn_text e)) ;;
       emit (progress "Error during pull operation") ;;
       emit (finished_with_status false 0 (length selected_partitions))).

(** [pull_finished], the slot of [finished_with_status]: what the window
    logs and shows. *)
Definition pull_finished (success : bool) (success_count total_count : nat) : M event unit :=
  let ratio := count success_count +:+ "/" +:+ count total_count in
  if success && (success_count =? total_count)%nat then
    emit (log_message ("Partition pull operation completed successfully: " +:+ ratio
                       +:+ " partitions pulled.")) ;;
    emit (statusMessage ("Pull operation completed: " +:+ ratio +:+ " successful")) ;;
    emit (information "Operation Complete"
            ("Successfully pulled " +:+ count success_count +:+ " out of "
             +:+ count total_count +:+ " partitions."))
  else if success && (success_count <? total_count)%nat then
    emit (log_message ("Partition pull operation completed with partial success: "
                       +:+ ratio +:+ " partitions pulled.")) ;;
    emit (statusMessage ("Pull operation completed: " +:+ ratio +:+ " successful")) ;;
    emit (warning "Operation Partially Complete"
            ("Pulled " +:+ count success_count +:+ " out of " +:+ count total_count
             +:+ " partitions. Some operations failed. Check logs for details."))
  else
    emit (log_message "Partition pull operation failed.") ;;
    emit (statusMessage "Pull operation failed") ;;
    emit (critical "Operation Failed" "Failed to pull partitions. Check logs for details.").

End partitionpull.

(** ** modules/bootanimcreator.py: looking for the boot animation *)

Module bootanimpaths.
Import Py Proc Os.
Local Open Scope eff_scope.

Definition BOOT_PATHS : list string :=
  [ "/system/media/bootanimation.zip";
    "/system/product/media/bootanimation.zip";
    "/product/media/bootanimation.zip";
    "/vendor/media/bootanimation.zip" ].

(** The test on a finished [ls]. *)
Definition found (proc : CompletedProcess) : bool :=
  (returncode proc =? 0)
  && negb (contains "No such file or directory" (stdout proc +:+ stderr proc)).

(** The loop of [find_remote_path_sync] over the paths still to try; an
    exception of [subprocess.run] moves on to the next path. *)
Fixpoint find_in (adb_cmd : string) (paths : list string) : M Empty_set (option string) :=
  match paths with
  | [] => ret None
  | p :: rest =>
      r <- try_catch
             (proc <- run (Argv [adb_cmd; "shell"; "su"; "-c"; "ls " +:+ quoted p])
                          (Some 6%N) ;;
              ret (Some proc))
             (fun _ => ret None) ;;
      match r with
      | Some proc => if found proc then ret (Some p) else find_in adb_cmd rest
      | None => find_in adb_cmd rest
      end
  end.

Definition find_remote_path_sync (adb_cmd : string) : M Empty_set (option string) :=
  find_in adb_cmd BOOT_PATHS.

End bootanimpaths.

(** ** modules/appmanager.py: the order of the Status and App Type columns *)

Module appsort.
Import Py Proc Os.

(** [STATUS_ORDER.get(data, 99)] and [APP_TYPE_ORDER.get(data, 99)] *)
Definition STATUS_ORDER (data : string) : Z :=
  if String.eqb data "Enabled" then 0
  else if String.eqb data "Disabled" then 1
  else 99.

Definition APP_TYPE_ORDER (data : string) : Z :=
  if String.eqb data "User App" then 0
  else if String.eqb data "System App" then 1
  else if String.eqb data "Vendor App" then 2
  else if String.eqb data "Unknown" then 3
  else 99.

(** [CustomSortProxyModel.lessThan] on the data of two cells of a column:
    [None] where the comparison is left to the toolkit. *)
Definition lessThan (column : Z) (left_data right_data : string) : option bool :=
  if column =? 3 then Some (STATUS_ORDER left_data <? STATUS_ORDER right_data)
  else if column =? 4 then Some (APP_TYPE_ORDER left_data <? APP_TYPE_ORDER right_data)
  else None.

End appsort.

(** ** modules/partitionmanager.py: the selection of partitions *)

Module partitionselect.
Import Py Proc Os.
Local Open Scope eff_scope.

(** The part of the window the selection code reads and writes: the data
    loaded, the check boxes of the rows of the model, the partitions
    selected, the lines logged (the window prints the time before each)
    and the messages of the status bar. *)
Record window := {
  partitions_data : list partitionmanager.partition_info;
  boxes : list bool;
  selected_partitions : list partitionmanager.partition_info;
  log_window : list string;
  status : list string
}.

Definition count (n : nat) : string := str_of_int (Z.of_nat n).

Definition named (name : string) (p : partitionmanager.partition_info) : bool :=
  String.eqb (partitionmanager.name p) name.

(** [self.model.item(row, 0).checkState() == Checked]: a row the model
    does not have gives [None], which has no [checkState]. *)
Definition checkState (boxes : list bool) (row : nat) : res bool :=
  match boxes !! row with
  | Some b => Ret b
  | None => Raise (AttributeError "'NoneType' object has no attribute 'checkState'")
  end.

(** [update_selection_from_checkbox(row)]; a row without a check box or
    without data raises. *)
Definition update_selection_from_checkbox (row : nat) (self : window) : res window :=
  checked <~ checkState (boxes self) row ;;
  partition_info <~ index (partitions_data self) row ;;
  let name := partitionmanager.name partition_info in
  let '(selected, log) :=
    if checked then
      if negb (existsb (named name) (selected_partitions self)) then
        (selected_partitions self ++ [partition_info],
         log_window self ++ ["Selected partition: " +:+ name])
      else (selected_partitions self, log_window self)
    else
      (List.filter (fun p => negb (named name p)) (selected_partitions self),
       log_window self ++ ["Deselected partition: " +:+ name]) in
  Ret {| partitions_data := partitions_data self; boxes := boxes self;
         selected_partitions := selected; log_window := log;
         status := status self ++ [count (length selected) +:+ " partitions selected"] |}.

(** [toggle_selection(index)] for a row that is not negative. *)
Definition toggle_selection (row : nat) (self : window) : res window :=
  if decide (length (partitions_data self) <= row)%nat then Ret self
  else
    checked <~ checkState (boxes self) row ;;
    update_selection_from_checkbox row
      {| partitions_data := partitions_data self;
         boxes := <[row := negb checked]> (boxes self);
         selected_partitions := selected_partitions self;
         log_window := log_window self; status := status self |}.

(** [toggle_partition_selection]: select all if any box is unchecked,
    deselect all otherwise.  Selecting reads [partitions_data[row]] for
    every row of the model. *)
Definition toggle_partition_selection (self : window) : res window :=
  let select_all := existsb negb (boxes self) in
  if select_all then
    selected <~ (fix rows (n : nat) (row : nat) : res (list partitionmanager.partition_info) :=
                   match n with
                   | O => Ret []
                   | S n' =>
                       p <~ index (partitions_data self) row ;;
                       ps <~ rows n' (S row) ;;
                       Ret (p :: ps)
                   end) (length (boxes self)) 0%nat ;;
    Ret {| partitions_data := partitions_data self;
           boxes := List.map (fun _ => true) (boxes self);
           selected_partitions := selected;
           log_window := log_window self
                         ++ ["Selected all " +:+ count (length selected) +:+ " partitions"];
           status := status self ++ [count (length selected) +:+ " partitions selected"] |}
  else
    Ret {| partitions_data := partitions_data self;
           boxes := List.map (fun _ => false) (boxes self);
           selected_partitions := [];
           log_window := log_window self ++ ["Deselected all partitions"];
           status := status self ++ ["No partitions selected"] |}.

End partitionselect.

(* ===================================================================== *)
(** ** modules/appmanager.py: installing the APKs of a backup             *)
(* ===================================================================== *)

Module appinstall.
Import Py Proc Os.
Local Open Scope eff_scope.

(** The signals of [AppManagerWorker] the installation emits. *)
Inductive event :=
  | log_message (text : string)
  | backup_progress (app status : string).

Definition count (n : nat) : string := str_of_int (Z.of_nat n).

(** [if current_app: self.backup_progress.emit(current_app, status)] *)
Definition progress_if_named (current_app status : string) : M event unit :=
  if nonempty current_app then emit (backup_progress current_app status) else ret tt.

(** [_execute_install_command]: [Popen] with two pipes, the [readline]
    loop over the standard output, [wait], and the handler of the [try]
    around them. *)
Definition _execute_install_command (platform_tools_path : string)
    (command_args : list string) (current_app : string) : M event bool :=
  try_catch
    (p <- spawn (Argv (path_join platform_tools_path "adb" :: command_args)) None ;;
     match p with
     | Exits _ return_code out err =>
         for_each (text_lines out)
           (fun line => if nonempty (strip line) then emit (log_message (strip line))
                        else ret tt) ;;
         if negb (return_code =? 0) then
           emit (log_message ("Installation failed: " +:+ strip err)) ;;
           progress_if_named current_app "Installation failed" ;;
           ret false
         else
           emit (log_message "Installation completed successfully") ;;
           progress_if_named current_app "Installation successful" ;;
           ret true
     | NeverExits out =>
         for_each (text_lines out)
           (fun line => if nonempty (strip line) then emit (log_message (strip line))
                        else ret tt) ;;
         block
     | CannotStart e => raise e
     end)
    (fun e =>
       emit (log_message ("Error during APK installation: " +:+ exn_text e)) ;;
       progress_if_named current_app "Installation error" ;;
       ret false).

(** The loop of [_install_apks] over [enumerate(apk_files)], from index
    [i] on, with [success] as it stands. *)
Fixpoint install_each (platform_tools_path current_app : string) (total i : nat)
    (apk_files : list string) (success : bool) : M event bool :=
  match apk_files with
  | [] => ret success
  | apk :: rest =>
      emit (backup_progress current_app
              ("Installing APK " +:+ count (S i) +:+ "/" +:+ count total)) ;;
      ok <- _execute_install_command platform_tools_path ["install"; "-r"; apk] current_app ;;
      install_each platform_tools_path current_app total (S i) rest
        (if negb ok then false else success)
  end.

Definition is_split_apk (apk_files : list string) : bool :=
  (1 <? length apk_files)%nat && existsb (fun apk => contains "base.apk" (lower apk)) apk_files.

Definition _install_apks (platform_tools_path : string) (apk_files : list string)
    (current_app : string) : M event bool :=
  match apk_files with
  | [] => ret false
  | _ =>
      if is_split_apk apk_files then
        emit (log_message ("Detected split APK with " +:+ count (length apk_files)
                           +:+ " components. Installing together...")) ;;
        emit (backup_progress current_app
                ("Installing split APK (" +:+ count (length apk_files) +:+ " components)")) ;;
        _execute_install_command platform_tools_path
          ("install-multiple" :: "-r" :: apk_files) current_app
      else
        emit (log_message ("Installing " +:+ count (length apk_files)
                           +:+ " individual APK(s)...")) ;;
        install_each platform_tools_path current_app (length apk_files) 0 apk_files true
  end.

End appinstall.

(* ===================================================================== *)
(** ** modules/bootanimcreator.py: reading and writing desc.txt           *)
(* ===================================================================== *)

Module bootanimdesc.
Import Py Os.
Local Open Scope eff_scope.

Record part := {
  mode : string;
  loops : Z;
  folder : string;
  pause : Z;
  frame_count : nat;
  folder_path : option string
}.

Record info := {
  width : Z;
  height : Z;
  fps : Z;
  parts : list part
}.

(** What [extractall] leaves in [EXTRACT_DIR]: the text of [desc.txt], if
    there is such a file and it can be read; which paths are directories;
    and how many of the entries of a directory are regular files. *)
Record extracted := {
  desc_txt : option string;
  isdir : string -> bool;
  files_in : string -> nat
}.

(** [map(int, tokens)], consumed to its end.  The limit of [int] on the
    number of digits is left out here: the first line is read back for every
    three integers [created_desc] can be given, whatever their size. *)
Fixpoint ints (tokens : list string) : res (list Z) :=
  match tokens with
  | [] => Ret []
  | t :: rest =>
      z <~ to_int_unlimited t ;;
      zs <~ ints rest ;;
      Ret (z :: zs)
  end.

(** [w, h, fps = map(int, lines[0].split()[:3])] *)
Definition header (lines : list string) : res (Z * Z * Z) :=
  first <~ index lines 0 ;;
  nums <~ ints (firstn 3 (fields first)) ;;
  match nums with
  | [w; h; fps] => Ret (w, h, fps)
  | _ => Raise (ValueError "not enough values to unpack")
  end.

(** [[ln.strip() for ln in text.splitlines() if ln.strip()]] *)
Definition desc_lines (text : string) : list string :=
  List.map strip (List.filter (fun ln => nonempty (strip ln)) (splitlines text)).

(** The loop over [lines[1:]].  The two calls of [int] are outside every
    [try]: what they raise leaves the function. *)
Fixpoint desc_parts (EXTRACT_DIR : string) (x : extracted) (lines : list string)
  : res (list part) :=
  match lines with
  | [] => Ret []
  | ln :: rest =>
      match fields ln with
      | mode :: tok1 :: folder :: more =>
          loops <~ (if isdigit tok1 then to_int tok1 else Ret 1) ;;
          pause <~ match more with
                   | tok3 :: _ => if isdigit tok3 then to_int tok3 else Ret 0
                   | [] => Ret 0
                   end ;;
          let candidate := path_join EXTRACT_DIR folder in
          let folder_path := if isdir x candidate then Some candidate else None in
          let frame_count :=
            match folder_path with
            | Some p => if nonempty p then files_in x p else O
            | None => O
            end in
          ps <~ desc_parts EXTRACT_DIR x rest ;;
          Ret ({| mode := mode; loops := loops; folder := folder; pause := pause;
                  frame_count := frame_count; folder_path := folder_path |} :: ps)
      | _ => desc_parts EXTRACT_DIR x rest
      end
  end.

(** [parse_pulled_zip_sync(zip_path)], given whether [zip_path] exists and
    what the extraction of the archive gives or raises. *)
Definition parse_pulled_zip_sync (EXTRACT_DIR zip_path : string) (zip_exists : bool)
    (extraction : res extracted) : res (option info) :=
  if negb (nonempty zip_path) || negb zip_exists then Ret None
  else
    match extraction with
    | Raise _ => Ret None
    | Ret x =>
        match desc_txt x with
        | None => Ret None
        | Some text =>
            let lines := desc_lines text in
            match header lines with
            | Raise _ => Ret None
            | Ret (w, h, fps) =>
                ps <~ desc_parts EXTRACT_DIR x (List.tl lines) ;;
                Ret (Some {| width := w; height := h; fps := fps; parts := ps |})
            end
        end
    end.


End bootanimdesc.

(* ===================================================================== *)
(** * Part IV.  The properties, and the notions they are stated with      *)
(* ===================================================================== *)

Module Spec.
Import Py Proc Os.

(** A process that ends: it exits, or the call that starts it raises. *)
Definition terminates (p : process) : bool :=
  match p with
  | NeverExits _ => false
  | _ => true
  end.

(** The calls a run added to the ones recorded in [s]. *)
Definition new_calls {E} (s : state E) (r : state E) : list call :=
  drop (length (spawned s)) (spawned r).

(** The events a run added to the ones recorded in [s]. *)
Definition new_events {E} (s : state E) (r : state E) : list E :=
  drop (length (emitted s)) (emitted r).

(** The argument vector [ADBThread.run] hands to [check_output]. *)
Definition full_command (t : fileexplorer.ADBThread) : list string :=
  match fileexplorer.command t ++ fileexplorer.params t with
  | [] => []
  | first :: rest =>
      if bool_decide (first <> fileexplorer.adb_path t)
      then fileexplorer.adb_path t :: first :: rest
      else first :: rest
  end.

(** The number of decimal digits in a text. *)
Fixpoint digit_count (s : string) : Z :=
  match s with
  | EmptyString => 0
  | String c s' => (if isdecimal_char c then 1 else 0) + digit_count s'
  end.

(** The text [s] parses as the integer [n]: stripped of white space, it is
    a decimal literal (an optional sign, then digits with single
    underscores between them) whose value is [n], and it has no more than
    the 4300 digits the interpreter converts. *)
Definition parses_as (s : string) (n : Z) : Prop :=
  int_literal s = Some n /\ digit_count s <= 4300.


(** The entry [DeviceInfoWorker.run] appends for a command labelled
    [label] whose process behaves as [p]. *)
Definition result_line (label : string) (p : process) : string :=
  match p with
  | Exits seconds rc out err =>
      if (10 <? seconds)%N then label +:+ ": Timeout"
      else if rc =? 0 then
        match adbfunc._format_output label (strip out) with
        | Ret formatted => label +:+ ": " +:+ formatted
        | Raise TimeoutExpired => label +:+ ": Timeout"
        | Raise e => label +:+ ": Error - " +:+ exn_text e
        end
      else label +:+ ": Error - " +:+ strip err
  | NeverExits _ => label +:+ ": Timeout"
  | CannotStart TimeoutExpired => label +:+ ": Timeout"
  | CannotStart e => label +:+ ": Error - " +:+ exn_text e
  end.

(** The entries for a list of commands, the first of which is the [n]-th
    process spawned. *)
Fixpoint result_lines (w : world) (n : nat) (commands : list (string * string))
  : list string :=
  match commands with
  | [] => []
  | (label, command) :: rest =>
      result_line label (behaviour w n (Shell command)) :: result_lines w (S n) rest
  end.

(** An [adb pull]. *)
Definition is_pull (c : call) : bool :=
  match call_cmd c with
  | Argv (_ :: verb :: _) => String.eqb verb "pull"
  | _ => false
  end.

(** The type [parse_app_info] gives an application whose APK path is
    [file_path]: the first of the four cases that applies. *)
Definition app_type_of (file_path : string) : string :=
  if contains "/data/app/" file_path then "User App"
  else if contains "/system/app/" file_path || contains "/system/priv-app/" file_path
  then "System App"
  else if contains "/vendor/" file_path then "Vendor App"
  else "Unknown".

(** What [parse_app_info] returns for a line whose text before the last
    ['='] is [path_part] and whose text after it is [name_part]. *)
Definition parsed_app (path_part name_part : string) : option (string * string * string) :=
  if nonempty (strip name_part) then
    Some (capitalize (replace "_" " "
                        (List.last (split "." (strip name_part)) EmptyString)),
          strip name_part,
          app_type_of (strip (replace "package:" EmptyString path_part)))
  else None.

(** [name] is listed by [pm list packages -d] printing [output]. *)
Definition listed_disabled (output name : string) : Prop :=
  exists line, In line (splitlines output) /\
               strip (replace "package:" EmptyString line) = name.

(** The value of a text of decimal digits ['0'] to ['9'], read after [acc]. *)
Fixpoint decimal (acc : Z) (s : string) : option Z :=
  match s with
  | EmptyString => Some acc
  | String c s' =>
      if isdecimal_char c then decimal (acc * 10 + digit_value c) s' else None
  end.

(** The number a text denotes when it is not empty and all decimal digits. *)
Definition decimal_value (s : string) : option Z :=
  if nonempty s then decimal 0 s else None.

(** The command [get_partition_size] runs for the partition [name]. *)
Definition blockdev (platform_tools_path name : string) : cmdline :=
  Argv [partitionmanager.adb platform_tools_path; "shell"; "su"; "-c";
        "blockdev --getsize64 /dev/block/by-name/" +:+ name].

(** The size of a partition whose [blockdev --getsize64] behaves as [p]:
    the number printed, or 0 when the command fails or what it prints,
    stripped, is not all decimal digits or is longer than the 4300 digits
    the interpreter converts. *)
Definition partition_size (p : process) : Z :=
  match p with
  | Exits _ rc out _ =>
      if (rc =? 0) && (Z.of_nat (String.length (strip out)) <=? 4300)
      then default 0 (decimal_value (strip out)) else 0
  | _ => 0
  end.

(** A line of [ls -l /dev/block/by-name] that describes a partition. *)
Definition is_partition_line (line : string) : bool :=
  bool_decide (9 <= length (fields line))%nat
  && contains "lrwxrwxrwx" (nth 0 (fields line) EmptyString)
  && contains "->" line.

(** The third field from the end of a line: the name of the partition. *)
Definition partition_name (line : string) : string :=
  nth (length (fields line) - 3) (fields line) EmptyString.

(** The entry for a partition line whose size is asked of the process [p]:
    none when the size cannot be formatted. *)
Definition partition_entry (p : process) (line : string)
  : option partitionmanager.partition_info :=
  match partitionmanager.human_readable_size (partition_size p) with
  | Ret human =>
      Some {| partitionmanager.name := partition_name line;
              partitionmanager.path :=
                nth (length (fields line) - 1) (fields line) EmptyString;
              partitionmanager.permissions := nth 0 (fields line) EmptyString;
              partitionmanager.size_bytes := partition_size p;
              partitionmanager.size_human := human |}
  | Raise _ => None
  end.

(** The entries for the lines after the first, when the next process
    spawned is the [n]-th. *)
Fixpoint partition_entries (platform_tools_path : string) (w : world) (n : nat)
    (lines : list string) : list partitionmanager.partition_info :=
  match lines with
  | [] => []
  | line :: rest =>
      if is_partition_line line then
        match partition_entry
                (behaviour w n (blockdev platform_tools_path (partition_name line)))
                line with
        | Some entry => entry :: partition_entries platform_tools_path w (S n) rest
        | None => partition_entries platform_tools_path w (S n) rest
        end
      else partition_entries platform_tools_path w n rest
  end.

(** The list a [partitions_loaded] signal carries. *)
Definition loaded (e : partitionmanager.event)
  : option (list partitionmanager.partition_info) :=
  match e with
  | partitionmanager.partitions_loaded partitions => Some partitions
  | _ => None
  end.

(** A line of the listing that is passed over whatever its fields are:
    blank, starting with 'total', containing 'Permission denied', or
    starting with 'ls:' or 'cannot access'. *)
Definition skipped (line : string) : bool :=
  negb (nonempty (strip line)) || startswith line "total"
  || contains "Permission denied" line || startswith line "ls:"
  || startswith line "cannot access".

(** The fields of a line that has at least 8 with [maxsplit=7]:
    permissions, size, the two fields of the date, and the name part. *)
Definition listing_fields (line : string)
  : option (string * string * string * string * string) :=
  match fields_max 7 line with
  | perms :: _ :: _ :: _ :: size :: date1 :: date2 :: name_part :: _ =>
      Some (perms, size, date1, date2, name_part)
  | _ => None
  end.

(** [before] and [after] are the texts around the first ['->'] of [s]. *)
Definition first_arrow (s before after : string) : Prop :=
  s = before +:+ "->" +:+ after /\ contains "->" (before +:+ "-") = false.

(** The name of the entry a name part describes. *)
Definition entry_name (name_part : string) : string :=
  if contains "->" name_part then fst (fileexplorer.split_symlink name_part)
  else name_part.

(** The symlink target a name part gives, if it has one. *)
Definition entry_target (name_part : string) : option string :=
  if contains "->" name_part then Some (snd (fileexplorer.split_symlink name_part))
  else None.

Definition folder_permissions (perms : string) : bool :=
  startswith perms "d" || startswith perms "l".

(** A line that gives a row: not skipped, at least 8 fields, and an entry
    whose name is not empty, ['.'] or ['..']. *)
Definition listed (line : string) : bool :=
  negb (skipped line) &&
  match listing_fields line with
  | Some (_, _, _, _, name_part) =>
      nonempty (entry_name name_part)
      && negb (String.eqb (entry_name name_part) ".")
      && negb (String.eqb (entry_name name_part) "..")
  | None => false
  end.

(** The size of the entry of a line can be shown: the entry is a folder, or
    [format_size_safe] returns for its size field. *)
Definition size_formats (line : string) : bool :=
  match listing_fields line with
  | Some (perms, size, _, _, _) =>
      folder_permissions perms ||
      match fileexplorer.format_size_safe size with Ret _ => true | Raise _ => false end
  | None => true
  end.

(** The row [r] is the one for [line]. *)
Definition describes (line : string) (r : fileexplorer.row) : Prop :=
  exists perms size date1 date2 name_part,
    listing_fields line = Some (perms, size, date1, date2, name_part) /\
    fileexplorer.name r = entry_name name_part /\
    fileexplorer.symlink_info r = entry_target name_part /\
    fileexplorer.is_folder r = folder_permissions perms /\
    (fileexplorer.file_type r = "Folder" <-> fileexplorer.is_folder r = true) /\
    (fileexplorer.is_folder r = false ->
     fileexplorer.file_type r = fileexplorer.detect_type (entry_name name_part) /\
     fileexplorer.format_size_safe size = Ret (fileexplorer.size_str r)) /\
    (fileexplorer.is_folder r = true -> fileexplorer.size_str r = "-") /\
    fileexplorer.date_str r = date1 +:+ " " +:+ date2 /\
    fileexplorer.size_int r = fileexplorer.safe_int size.

(** The row for the parent directory, shown unless the path is a root. *)
Definition parent_rows (current_path : string) : list (string * string * string * string) :=
  if negb (String.eqb current_path "/") && negb (endswith current_path ":/")
  then [("..", "Folder", "-", "-")] else [].

(** The sizes of all the lines that give a row can be shown. *)
Definition sizes_format (lines : list string) : bool :=
  forallb (fun line => implb (listed line) (size_formats line)) lines.

End Spec.

(** Further notions the properties of the workers are stated with. *)

Module Outcome.
Import Py Proc Os.

(** A process that exits, with whatever code. *)
Definition exits (p : process) : bool :=
  match p with
  | Exits _ _ _ _ => true
  | _ => false
  end.

(** A process that exits with code 0. *)
Definition succeeds (p : process) : bool :=
  match p with
  | Exits _ rc _ _ => rc =? 0
  | _ => false
  end.

(** The commands of the calls a run added. *)
Definition new_commands {E} (s r : state E) : list cmdline :=
  List.map call_cmd (Spec.new_calls s r).

End Outcome.

(* ===================================================================== *)
(** * How a run proceeds                                                   *)
(* ===================================================================== *)

Section Runs.
Import Py Proc Os Spec.

(** What [subprocess.run] without a timeout does, by the process. *)
Lemma run_None_spec {E} (cmd : cmdline) (w : world) (s : state E) :
  run cmd None w s =
    (match behaviour w (length (spawned s)) cmd with
     | Exits _ rc out err => Returns {| returncode := rc; stdout := out; stderr := err |}
     | NeverExits _ => Blocks
     | CannotStart e => Raises e
     end,
     {| spawned := spawned s ++ [{| call_cmd := cmd; call_timeout := None |}];
        emitted := emitted s |}).
Proof.
  unfold run, mbind, spawn.
  destruct (behaviour w (length (spawned s)) cmd); reflexivity.
Qed.

Lemma mbind_Returns {E A B} (m : M E A) (k : A -> M E B) (w : world) (s s' : state E) (a : A) :
  m w s = (Returns a, s') -> mbind m k w s = k a w s'.
Proof. unfold mbind. now intros ->. Qed.

Lemma mbind_Raises {E A B} (m : M E A) (k : A -> M E B) (w : world) (s s' : state E) (e : exn) :
  m w s = (Raises e, s') -> mbind m k w s = (Raises e, s').
Proof. unfold mbind. now intros ->. Qed.

Lemma new_calls_snoc {E} (s : state E) (cs : list call) (evs : list E) :
  new_calls s {| spawned := spawned s ++ cs; emitted := evs |} = cs.
Proof. unfold new_calls. cbn [spawned]. apply drop_app_length. Qed.

Lemma new_events_snoc {E} (s : state E) (cs : list call) (evs : list E) :
  new_events s {| spawned := cs; emitted := emitted s ++ evs |} = evs.
Proof. unfold new_events. cbn [emitted]. apply drop_app_length. Qed.

End Runs.

Section Steps.
Import Py Proc Os.
Context {E : Type}.

(** How a run proceeds through a sequence of statements. *)

Lemma mbind_assoc {A B C} (m : M E A) (k : A -> M E B) (k' : B -> M E C) w s :
  mbind (mbind m k) k' w s = mbind m (fun a => mbind (k a) k') w s.
Proof. unfold mbind. destruct (m w s) as [[a|e|] s1]; reflexivity. Qed.

Lemma mbind_ret {A B} (a : A) (k : A -> M E B) w s : mbind (ret a) k w s = k a w s.
Proof. reflexivity. Qed.

Lemma mbind_emit {B} (e : E) (k : unit -> M E B) w s :
  mbind (emit e) k w s =
  k tt w {| spawned := spawned s; emitted := emitted s ++ [e] |}.
Proof. reflexivity. Qed.

Lemma emit_spec (e : E) w s :
  emit e w s = (Returns tt, {| spawned := spawned s; emitted := emitted s ++ [e] |}).
Proof. reflexivity. Qed.

Lemma mbind_run_None {B} (cmd : cmdline) (k : CompletedProcess -> M E B) w s :
  mbind (run cmd None) k w s =
  let s' := {| spawned := spawned s ++ [{| call_cmd := cmd; call_timeout := None |}];
               emitted := emitted s |} in
  match behaviour w (length (spawned s)) cmd with
  | Exits _ rc out err => k {| returncode := rc; stdout := out; stderr := err |} w s'
  | NeverExits _ => (Blocks, s')
  | CannotStart e => (Raises e, s')
  end.
Proof.
  unfold mbind at 1. rewrite run_None_spec. cbv zeta.
  destruct (behaviour w (length (spawned s)) cmd); reflexivity.
Qed.

End Steps.

Ltac run_steps :=
  repeat first
    [ rewrite mbind_assoc
    | rewrite mbind_ret
    | rewrite mbind_emit
    | rewrite emit_spec
    | progress cbn [Proc.spawned Proc.emitted Proc.returncode Proc.stdout Proc.stderr] ].

(* ===================================================================== *)
(** * Part IV.  Facts about the runtime model                              *)
(* ===================================================================== *)

Local Arguments String.append : simpl nomatch.

Section StringFacts.
Import Py.

Lemma append_nil_r (s : string) : s +:+ EmptyString = s.
Proof. induction s as [|c s IH]; simpl; [reflexivity | now rewrite IH]. Qed.

Lemma append_assoc (a b c : string) : (a +:+ b) +:+ c = a +:+ (b +:+ c).
Proof. induction a as [|x a IH]; simpl; [reflexivity | now rewrite IH]. Qed.

Lemma nonempty_true (s : string) : nonempty s = true <-> s <> EmptyString.
Proof. destruct s; simpl; split; congruence. Qed.

Lemma nonempty_false (s : string) : nonempty s = false <-> s = EmptyString.
Proof. destruct s; simpl; split; congruence. Qed.

Lemma prefix_char (c : ascii) (s : string) :
  String.prefix (String c EmptyString) s = true <-> exists s', s = String c s'.
Proof.
  destruct s as [|a s]; simpl.
  - split; [discriminate | intros [s' H]; discriminate].
  - destruct (ascii_dec c a) as [->|Hne].
    + split; [eauto | intros _; now destruct s].
    + split; [discriminate | intros [s' H]; congruence].
Qed.

(** [c in s] for a one-character string [c]. *)
Lemma contains_char_cons (c a : ascii) (s : string) :
  contains (String c EmptyString) (String a s) =
  Ascii.eqb a c || contains (String c EmptyString) s.
Proof.
  cbn [contains]. f_equal. simpl.
  destruct (ascii_dec c a) as [->|Hne].
  - rewrite Ascii.eqb_refl. now destruct s.
  - symmetry. apply Ascii.eqb_neq. congruence.
Qed.

Lemma contains_char_nil (c : ascii) : contains (String c EmptyString) EmptyString = false.
Proof. reflexivity. Qed.

Lemma contains_char_app (c : ascii) (a b : string) :
  contains (String c EmptyString) (a +:+ b) =
  contains (String c EmptyString) a || contains (String c EmptyString) b.
Proof.
  induction a as [|x a IH].
  - reflexivity.
  - change (String x a +:+ b) with (String x (a +:+ b)).
    rewrite !contains_char_cons, IH. now rewrite orb_assoc.
Qed.

(** [rsplit(c, 1)] cuts at the last occurrence of [c]. *)
Lemma rsplit1_Some (c : ascii) (s h p : string) :
  rsplit1 c s = Some (h, p) <->
  s = h +:+ String c p /\ contains (String c EmptyString) p = false.
Proof.
  revert h p. induction s as [|a s IH]; intros h p.
  - simpl. split; [discriminate | intros [H _]; destruct h; discriminate].
  - cbn [rsplit1]. destruct (rsplit1 c s) as [[h' p']|] eqn:E.
    + split.
      * intros [= <- <-]. destruct (proj1 (IH h' p') eq_refl) as [-> Hp]. now split.
      * intros [Hs Hp]. destruct h as [|x h]; simpl in Hs.
        -- injection Hs as -> ->.
           destruct (proj1 (IH h' p') eq_refl) as [Hs' _].
           apply (f_equal (contains (String c EmptyString))) in Hs'.
           rewrite contains_char_app, contains_char_cons, Ascii.eqb_refl, orb_true_r in Hs'.
           congruence.
        -- injection Hs as -> ->.
           assert (H : Some (h', p') = Some (h, p)) by (apply IH; now split).
           now injection H as -> ->.
    + assert (Hnone : contains (String c EmptyString) s = false).
      { destruct (contains (String c EmptyString) s) eqn:Hc; [|reflexivity].
        exfalso. clear IH. revert E Hc. clear.
        induction s as [|b s IH]; [discriminate|].
        cbn [rsplit1]. rewrite contains_char_cons.
        destruct (rsplit1 c s) as [[? ?]|]; [discriminate|].
        destruct (Ascii.eqb b c); [discriminate|]. simpl. auto. }
      destruct (Ascii.eqb a c) eqn:Hac.
      * apply Ascii.eqb_eq in Hac as ->. split.
        -- intros [= <- <-]. now split.
        -- intros [Hs Hp]. destruct h as [|x h]; simpl in Hs.
           ++ now injection Hs as ->.
           ++ injection Hs as -> ->.
              rewrite contains_char_app, contains_char_cons, Ascii.eqb_refl, orb_true_r in Hnone.
              discriminate.
      * split; [discriminate|]. intros [Hs Hp]. destruct h as [|x h]; simpl in Hs.
        -- injection Hs as -> ->. rewrite Ascii.eqb_refl in Hac. discriminate.
        -- injection Hs as -> ->.
           rewrite contains_char_app, contains_char_cons, Ascii.eqb_refl, orb_true_r in Hnone.
           discriminate.
Qed.

Lemma rsplit1_None (c : ascii) (s : string) :
  rsplit1 c s = None <-> contains (String c EmptyString) s = false.
Proof.
  induction s as [|a s IH].
  - simpl. tauto.
  - cbn [rsplit1]. rewrite contains_char_cons.
    destruct (rsplit1 c s) as [[h p]|] eqn:E.
    + split; [discriminate|]. intros H. apply orb_false_elim in H as [_ H].
      apply IH in H. discriminate.
    + destruct (Ascii.eqb a c); simpl.
      * split; discriminate.
      * split; [intros _; now apply IH | reflexivity].
Qed.

End StringFacts.

(* ===================================================================== *)
(** * Part VI.  The wireless address check                                 *)
(* ===================================================================== *)

Section Wireless.
Import Py Proc Os Spec adbfunc.


Definition negative (t : string) : bool :=
  match t with
  | String "-" _ => true
  | _ => false
  end.

Lemma int_literal_body (s : string) :
  int_literal s =
  if negative (strip s) then Z.opp <$> int_digits 0 false false (unsigned (strip s))
  else int_digits 0 false false (unsigned (strip s)).
Proof.
  unfold int_literal, unsigned, negative. destruct (strip s) as [|c r]; [reflexivity|].
  destruct c as [[|] [|] [|] [|] [|] [|] [|] [|]]; reflexivity.
Qed.

Lemma digit_count_body (t : string) : digit_count (unsigned t) = digit_count t.
Proof.
  destruct t as [|c r]; [reflexivity|].
  destruct c as [[|] [|] [|] [|] [|] [|] [|] [|]]; reflexivity.
Qed.

Lemma space_not_decimal (c : ascii) : isspace c = true -> isdecimal_char c = false.
Proof. destruct c as [[|] [|] [|] [|] [|] [|] [|] [|]]; vm_compute; congruence. Qed.

Lemma digit_count_lstrip (s : string) : digit_count (lstrip s) = digit_count s.
Proof.
  induction s as [|c s IH]; [reflexivity|]. cbn [lstrip digit_count].
  destruct (isspace c) eqn:Hc; [|reflexivity].
  rewrite IH, (space_not_decimal c Hc). lia.
Qed.

Lemma digit_count_rstrip (s : string) : digit_count (rstrip s) = digit_count s.
Proof.
  induction s as [|c s IH]; [reflexivity|]. cbn [rstrip digit_count].
  rewrite <- IH. destruct (rstrip s) as [|x r]; [|reflexivity].
  destruct (isspace c) eqn:Hc; [|reflexivity].
  rewrite (space_not_decimal c Hc). reflexivity.
Qed.

Lemma digit_count_strip (s : string) : digit_count (strip s) = digit_count s.
Proof. unfold strip. now rewrite digit_count_rstrip, digit_count_lstrip. Qed.

(** Where [int] accepts the digits, it has counted every one of them. *)
Lemma count_digits_literal (body : string) (acc z n : Z) (us seen : bool) :
  int_digits acc us seen body = Some z ->
  count_digits us n body = Some (n + digit_count body).
Proof.
  revert acc n us seen. induction body as [|c body IH]; intros acc n us seen.
  - cbn [int_digits count_digits digit_count]. destruct us; [discriminate|].
    intros _. f_equal. lia.
  - cbn [int_digits count_digits digit_count]. destruct (isdecimal_char c).
    + intros H. rewrite (IH _ (n + 1) _ _ H). f_equal. lia.
    + destruct (Ascii.eqb c "_"); [|discriminate].
      destruct us; [discriminate|]. destruct seen; [|discriminate]. cbn [negb orb].
      intros H. now rewrite (IH _ n _ _ H).
Qed.

Lemma int_digits_underscore (r : string) (acc : Z) :
  int_digits acc false false (String "_" r) = None.
Proof. reflexivity. Qed.

(** [int] returns [n] exactly for the texts that parse as [n]. *)
Lemma to_int_parses (s : string) (n : Z) : to_int s = Ret n <-> parses_as s n.
Proof.
  unfold parses_as. rewrite <- (digit_count_strip s), <- (digit_count_body (strip s)).
  unfold to_int. cbv zeta. unfold to_int_unlimited.
  rewrite int_literal_body. unfold max_str_digits.
  set (body := unsigned (strip s)).
  destruct (int_digits 0 false false body) as [z|] eqn:Hz.
  - rewrite (count_digits_literal body 0 z 0 false false Hz), Z.add_0_l.
    assert (Hbody : match body with
                    | String "_" _ => False
                    | _ => True
                    end).
    { destruct body as [|c r]; [exact I|].
      destruct c as [[|] [|] [|] [|] [|] [|] [|] [|]]; try exact I.
      rewrite int_digits_underscore in Hz. discriminate. }
    assert (Hgo : match body with
                  | String "_" _ =>
                      match (if negative (strip s) then Z.opp <$> Some z else Some z) with
                      | Some z0 => Ret z0
                      | None =>
                          Raise (ValueError ("invalid literal for int() with base 10: "
                                             +:+ take 200 (repr s)))
                      end
                  | _ =>
                      if 4300 <? digit_count body then
                        Raise (ValueError
                                 ("Exceeds the limit (4300 digits) for integer string conversion: "
                                  +:+ "value has " +:+ str_of_int (digit_count body)
                                  +:+ " digits; use sys.set_int_max_str_digits() to increase the limit"))
                      else
                        match (if negative (strip s) then Z.opp <$> Some z else Some z) with
                        | Some z0 => Ret z0
                        | None =>
                            Raise (ValueError ("invalid literal for int() with base 10: "
                                               +:+ take 200 (repr s)))
                        end
                  end =
                  if 4300 <? digit_count body then
                    Raise (ValueError
                             ("Exceeds the limit (4300 digits) for integer string conversion: "
                              +:+ "value has " +:+ str_of_int (digit_count body)
                              +:+ " digits; use sys.set_int_max_str_digits() to increase the limit"))
                  else Ret (if negative (strip s) then - z else z)).
    { destruct body as [|c r]; [now destruct (negative (strip s)), (4300 <? _)|].
      destruct c as [[|] [|] [|] [|] [|] [|] [|] [|]]; try contradiction;
        now destruct (negative (strip s)), (4300 <? _). }
    rewrite Hgo. clear Hgo Hbody.
    destruct (4300 <? digit_count body) eqn:Hlim.
    + apply Z.ltb_lt in Hlim. split; [discriminate|]. intros [_ H]. lia.
    + apply Z.ltb_ge in Hlim. destruct (negative (strip s)); cbn [fmap option_fmap option_map].
      * split; [intros [= <-]; now split | intros [[= <-] _]; reflexivity].
      * split; [intros [= <-]; now split | intros [[= <-] _]; reflexivity].
  - assert (Hnone : (if negative (strip s) then Z.opp <$> (None : option Z) else None) = None)
      by now destruct (negative (strip s)).
    rewrite Hnone. split; [|intros [H _]; discriminate].
    destruct body as [|c r]; cbn [count_digits]; [discriminate|].
    destruct c as [[|] [|] [|] [|] [|] [|] [|] [|]];
      repeat match goal with
             | |- context [match ?x with _ => _ end] => destruct x eqn:?
             | |- context [if ?b then _ else _] => destruct b eqn:?
             end; discriminate.
Qed.



(** A port of 4301 digits whose value is 1: [int] refuses it, and so does
    the check. *)
Example _validate_address_long_port :
  int_literal (zeros 4300 +:+ "1") = Some 1 /\
  _validate_address ("192.168.1.100:" +:+ zeros 4300 +:+ "1") = Ret false /\
  _validate_address ("192.168.1.100:" +:+ zeros 4295 +:+ "5555") = Ret true.
Proof. repeat split; vm_compute; reflexivity. Qed.

End Wireless.

(* ===================================================================== *)
(** * Part VII.  Worker threads                                            *)
(* ===================================================================== *)

Section ADBThreadFacts.
Import Py Proc Os Spec fileexplorer.

(** C3, as amended.  When the call of [check_output] comes to an end,
    [ADBThread.run] returns having emitted [command_finished] exactly once;
    the flag is [False] exactly when [check_output] returned, that is when
    a process was started, exited with code 0 and its output was decoded,
    and the text is then that output; otherwise the flag is [True] and the
    text is the captured output or the text of the exception.  While the
    process does not exit the run neither emits nor returns: [check_output]
    is called without a timeout. *)
Theorem C3_ADBThread_run_emits_once (t : ADBThread) (w : world) (s : state event) :
  (terminates (behaviour w (length (spawned s)) (Argv (full_command t))) = true ->
   exists text is_error s',
     ADBThread_run t w s = (Returns (text, is_error), s') /\
     emitted s' = emitted s ++ [command_finished text is_error] /\
     (is_error = false <->
        command t ++ params t <> [] /\
        exists d out err,
          behaviour w (length (spawned s)) (Argv (full_command t)) = Exits d 0 out err /\
          text = out) /\
     (is_error = true ->
        match command t ++ params t with
        | [] => text = "list index out of range"
        | _ =>
            match behaviour w (length (spawned s)) (Argv (full_command t)) with
            | Exits _ rc out _ =>
                text = if nonempty out then out
                       else cpe_text w (Argv (full_command t)) rc
            | CannotStart (CalledProcessError _ out _ as e) =>
                text = if nonempty out then out else exn_text e
            | CannotStart e => text = exn_text e
            | NeverExits _ => False
            end
        end)) /\
  (command t ++ params t <> [] ->
   terminates (behaviour w (length (spawned s)) (Argv (full_command t))) = false ->
   ADBThread_run t w s =
   (Blocks,
    {| spawned := spawned s ++ [{| call_cmd := Argv (full_command t); call_timeout := None |}];
       emitted := emitted s |})).
Proof.
  split.
  - intros Hterm. unfold ADBThread_run, full_command in *.
    unfold try_catch, mbind, lift, check_output, spawn, mbind, emit, ret, raise, index.
    destruct (command t ++ params t) as [|first rest] eqn:Hcmd; simpl.
    + do 3 eexists. split; [reflexivity|]. simpl. split; [reflexivity|].
      split; [|reflexivity]. split; [discriminate | intros [H _]; contradiction].
    + set (fc := if bool_decide (first <> adb_path t) then adb_path t :: first :: rest
                 else first :: rest) in *.
      destruct (behaviour w (length (spawned s)) (Argv fc)) as [d rc out err|out|e] eqn:Hb;
        simpl in Hterm; [| discriminate |].
      * destruct (rc =? 0) eqn:Hrc; simpl.
        -- apply Z.eqb_eq in Hrc as ->.
           do 3 eexists. split; [reflexivity|]. simpl. split; [reflexivity|].
           split; [|discriminate]. split; [|reflexivity].
           intros _. split; [discriminate|]. eauto.
        -- do 3 eexists. split; [reflexivity|]. simpl. split; [reflexivity|].
           split; [|reflexivity]. split; [discriminate|].
           intros (_ & d' & out' & err' & [= _ -> _ _] & _). discriminate.
      * destruct e; simpl;
          (do 3 eexists; split; [reflexivity|]; simpl; split; [reflexivity|];
           split; [|reflexivity]; split; [discriminate|];
           intros (_ & d' & out' & err' & H & _); discriminate).
  - intros Hne Hterm. unfold ADBThread_run, full_command in *.
    unfold try_catch, mbind, lift, check_output, spawn, mbind, emit, ret, raise, index.
    destruct (command t ++ params t) as [|first rest] eqn:Hcmd; [contradiction|].
    cbn [lookup list_lookup].
    set (fc := if bool_decide (first <> adb_path t) then adb_path t :: first :: rest
               else first :: rest) in *.
    destruct (behaviour w (length (spawned s)) (Argv fc)) as [d rc out err|out|e];
      [discriminate|reflexivity|discriminate].
Qed.

Definition C3_thread : ADBThread :=
  {| adb_path := "adb"; command := ["shell"; "ls -la /sdcard"]; params := [] |}.

Definition C3_world : world :=
  {| behaviour := fun _ _ => Exits 1 0 "total 0" EmptyString;
     cpe_text := fun _ _ => "Command returned non-zero exit status.";
     path_exists := fun _ _ => true;
     readline_error := all_text |}.

Lemma C3_witness :
  exists text is_error s',
    ADBThread_run C3_thread C3_world start = (Returns (text, is_error), s') /\
    emitted s' = [command_finished text is_error].
Proof.
  destruct (proj1 (C3_ADBThread_run_emits_once C3_thread C3_world start) eq_refl)
    as (text & is_error & s' & H1 & H2 & _).
  exists text, is_error, s'. split; [exact H1 | exact H2].
Defined.

(** A device that does not answer: [adb] never exits. *)
Definition C3_hung : world :=
  {| behaviour := fun _ _ => NeverExits EmptyString;
     cpe_text := fun _ _ => EmptyString;
     path_exists := fun _ _ => true;
     readline_error := all_text |}.

(** A listing that holds a byte that is no text: [adb] exits with code 0,
    and [check_output] raises when it decodes what was printed. *)
Definition C3_undecodable : world :=
  {| behaviour := fun _ _ =>
       CannotStart (ValueError "'utf-8' codec can't decode byte 0xff in position 42: invalid start byte");
     cpe_text := fun _ _ => EmptyString;
     path_exists := fun _ _ => true;
     readline_error := all_text |}.

(** C3 fails as stated: the run of a thread whose process never exits
    emits nothing and does not return; and a run whose process exited but
    printed what cannot be decoded emits the flag [True]. *)
Lemma C3_counterexample :
  ADBThread_run C3_thread C3_hung start =
    (Blocks,
     {| spawned := [{| call_cmd := Argv ["adb"; "shell"; "ls -la /sdcard"];
                       call_timeout := None |}];
        emitted := [] |}) /\
  emitted (snd (ADBThread_run C3_thread C3_undecodable start)) =
    [command_finished
       "'utf-8' codec can't decode byte 0xff in position 42: invalid start byte" true].
Proof. split; reflexivity. Qed.

End ADBThreadFacts.

Section Frames.
Import Py Proc Os Spec.
Context {E : Type}.

(** [adds Q m]: a run of [m] keeps the calls recorded before it and adds
    calls that satisfy [Q]. *)
Definition adds (Q : list call -> Prop) {A} (m : M E A) : Prop :=
  forall w s, exists cs, spawned (snd (m w s)) = spawned s ++ cs /\ Q cs.

Lemma new_calls_app (s r : state E) (cs : list call) :
  spawned r = spawned s ++ cs -> new_calls s r = cs.
Proof. intros H. unfold new_calls. rewrite H. apply drop_app_length. Qed.

Lemma adds_weaken (Q Q' : list call -> Prop) {A} (m : M E A) :
  (forall cs, Q cs -> Q' cs) -> adds Q m -> adds Q' m.
Proof. intros HQ H w s. destruct (H w s) as (cs & H1 & H2). eauto. Qed.

Lemma adds_nil (Q : list call -> Prop) {A} (m : M E A) :
  Q [] -> (forall w s, spawned (snd (m w s)) = spawned s) -> adds Q m.
Proof. intros HQ H w s. exists []. rewrite app_nil_r. auto. Qed.

Lemma adds_ret (Q : list call -> Prop) {A} (a : A) : Q [] -> adds Q (ret (E:=E) a).
Proof. intros; now apply adds_nil. Qed.

Lemma adds_raise (Q : list call -> Prop) {A} (e : exn) : Q [] -> adds Q (raise (E:=E) (A:=A) e).
Proof. intros; now apply adds_nil. Qed.

Lemma adds_lift (Q : list call -> Prop) {A} (r : res A) : Q [] -> adds Q (lift (E:=E) r).
Proof. intros; apply adds_nil; [assumption|]. now destruct r. Qed.

Lemma adds_emit (Q : list call -> Prop) (e : E) : Q [] -> adds Q (emit e).
Proof. intros; now apply adds_nil. Qed.

Lemma adds_exists_path (Q : list call -> Prop) (p : string) :
  Q [] -> adds Q (exists_path (E:=E) p).
Proof. intros; now apply adds_nil. Qed.

Lemma adds_mbind (Q1 Q2 Q : list call -> Prop) {A B} (m : M E A) (k : A -> M E B) :
  adds Q1 m -> (forall a, adds Q2 (k a)) ->
  (forall x, Q1 x -> Q x) -> (forall x y, Q1 x -> Q2 y -> Q (x ++ y)) ->
  adds Q (mbind m k).
Proof.
  intros Hm Hk H1 H12 w s. unfold mbind.
  destruct (Hm w s) as (cs & Hcs & HQ1).
  destruct (m w s) as [[a|e|] s'] eqn:Em; simpl in *; eauto.
  destruct (Hk a w s') as (cs' & Hcs' & HQ2).
  exists (cs ++ cs'). rewrite Hcs', Hcs, app_assoc. auto.
Qed.

Lemma adds_try_catch (Q1 Q2 Q : list call -> Prop) {A} (m : M E A) (h : exn -> M E A) :
  adds Q1 m -> (forall e, adds Q2 (h e)) ->
  (forall x, Q1 x -> Q x) -> (forall x y, Q1 x -> Q2 y -> Q (x ++ y)) ->
  adds Q (try_catch m h).
Proof.
  intros Hm Hh H1 H12 w s. unfold try_catch.
  destruct (Hm w s) as (cs & Hcs & HQ1).
  destruct (m w s) as [[a|e|] s'] eqn:Em; simpl in *; eauto.
  destruct (Hh e w s') as (cs' & Hcs' & HQ2).
  exists (cs ++ cs'). rewrite Hcs', Hcs, app_assoc. auto.
Qed.

Lemma adds_run (Q : list call -> Prop) (cmd : cmdline) (timeout : option N) :
  Q [{| call_cmd := cmd; call_timeout := timeout |}] -> adds Q (run (E:=E) cmd timeout).
Proof.
  intros HQ w s. exists [{| call_cmd := cmd; call_timeout := timeout |}].
  split; [|assumption]. unfold run, mbind, spawn. simpl.
  destruct (behaviour w (length (spawned s)) cmd) as [d rc out err|out|e], timeout as [t|];
    simpl; try reflexivity.
  destruct (t <? d)%N; reflexivity.
Qed.

Lemma adds_check_output (Q : list call -> Prop) (cmd : cmdline) :
  Q [{| call_cmd := cmd; call_timeout := None |}] -> adds Q (check_output (E:=E) cmd).
Proof.
  intros HQ w s. exists [{| call_cmd := cmd; call_timeout := None |}].
  split; [|assumption]. unfold check_output, mbind, spawn. simpl.
  destruct (behaviour w (length (spawned s)) cmd) as [d rc out err|out|e];
    simpl; try reflexivity.
  destruct (rc =? 0); reflexivity.
Qed.

(** Calls that all satisfy [P]. *)
Definition only (P : call -> Prop) {A} (m : M E A) : Prop := adds (Forall P) m.

Lemma only_mbind (P : call -> Prop) {A B} (m : M E A) (k : A -> M E B) :
  only P m -> (forall a, only P (k a)) -> only P (mbind m k).
Proof.
  intros Hm Hk. apply (adds_mbind (Forall P) (Forall P)); auto.
  intros x y Hx Hy. apply Forall_app; auto.
Qed.

Lemma only_try_catch (P : call -> Prop) {A} (m : M E A) (h : exn -> M E A) :
  only P m -> (forall e, only P (h e)) -> only P (try_catch m h).
Proof.
  intros Hm Hh. apply (adds_try_catch (Forall P) (Forall P)); auto.
  intros x y Hx Hy. apply Forall_app; auto.
Qed.

Lemma only_for_each (P : call -> Prop) {A} (l : list A) (body : A -> M E unit) :
  (forall a, only P (body a)) -> only P (for_each l body).
Proof.
  intros Hb. induction l as [|a l IH]; simpl.
  - apply adds_ret. constructor.
  - apply only_mbind; auto.
Qed.

(** At most [n] of the added calls satisfy [p]. *)
Definition at_most (p : call -> bool) (n : nat) {A} (m : M E A) : Prop :=
  adds (fun cs => (length (List.filter p cs) <= n)%nat) m.

Lemma at_most_mbind (p : call -> bool) (a b : nat) {A B} (m : M E A) (k : A -> M E B) :
  at_most p a m -> (forall x, at_most p b (k x)) -> at_most p (a + b) (mbind m k).
Proof.
  intros Hm Hk.
  apply (adds_mbind (fun cs => (length (List.filter p cs) <= a)%nat)
                    (fun cs => (length (List.filter p cs) <= b)%nat)); auto.
  - intros x Hx. simpl in *. lia.
  - intros x y Hx Hy. simpl in *. rewrite List.filter_app, length_app. lia.
Qed.

Lemma at_most_le (p : call -> bool) (a b : nat) {A} (m : M E A) :
  (a <= b)%nat -> at_most p a m -> at_most p b m.
Proof. intros Hab. apply adds_weaken. intros cs H. simpl in *. lia. Qed.

End Frames.

Ltac only_step :=
  first
    [ apply adds_run; repeat constructor
    | apply adds_check_output; repeat constructor
    | apply only_mbind; [|intros]
    | apply only_try_catch; [|intros]
    | apply adds_emit; constructor
    | apply adds_ret; constructor
    | apply adds_raise; constructor
    | apply adds_lift; constructor
    | apply adds_exists_path; constructor
    | apply only_for_each; intros ].

Ltac only_solve :=
  repeat
    first
      [ only_step
      | progress cbv zeta
      | match goal with
        | |- only _ (if ?b then _ else _) => destruct b
        | |- only _ (match ?x with _ => _ end) => destruct x
        | |- only _ (let '_ := ?x in _) => destruct x
        end ].

Section DeviceInfo.
Import Py Proc Os Spec adbfunc.

Lemma device_result_spec (label command : string) (w : world) (s : state event) :
  device_result label command w s =
  (Returns (result_line label (behaviour w (length (spawned s)) (Shell command))),
   {| spawned := spawned s ++ [{| call_cmd := Shell command; call_timeout := Some 10%N |}];
      emitted := emitted s |}).
Proof.
  unfold device_result, try_catch, mbind, run, mbind, spawn, result_line. simpl.
  destruct (behaviour w (length (spawned s)) (Shell command)) as [d rc out err|out|e]; simpl.
  - destruct (10 <? d)%N; simpl; [reflexivity|].
    destruct (rc =? 0); simpl; [|reflexivity].
    destruct (_format_output label (strip out)) as [f|e]; simpl; [reflexivity|].
    destruct e; reflexivity.
  - reflexivity.
  - destruct e; reflexivity.
Qed.

Lemma device_results_spec (commands : list (string * string)) (w : world) (s : state event) :
  device_results commands w s =
  (Returns (result_lines w (length (spawned s)) commands),
   {| spawned := spawned s ++
                 List.map (fun lc => {| call_cmd := Shell (snd lc); call_timeout := Some 10%N |})
                          commands;
      emitted := emitted s |}).
Proof.
  revert s. induction commands as [|[label command] rest IH]; intros s.
  - simpl. unfold ret. rewrite app_nil_r. now destruct s.
  - cbn [device_results]. unfold mbind at 1. rewrite device_result_spec.
    unfold mbind at 1. rewrite IH. simpl. unfold ret.
    rewrite length_app, Nat.add_1_r, <- app_assoc. reflexivity.
Qed.

Lemma result_lines_length (w : world) (n : nat) (commands : list (string * string)) :
  length (result_lines w n commands) = length commands.
Proof.
  revert n. induction commands as [|[l c] rest IH]; intros n; simpl; [reflexivity|].
  now rewrite IH.
Qed.

(** C4, as amended.  For every device-info command the worker appends
    exactly one entry: ['label: <formatted>'] when the process returns code
    0 within ten seconds and the label's formatter returns,
    ['label: Error - <text>'] with the text of the exception when the
    formatter raises, ['label: Error - <stderr stripped>'] when the return
    code is not 0, ['label: Timeout'] when the process is still running
    after ten seconds; the entries, joined by line feeds, are emitted once. *)
Theorem C4_device_info_lines (adb_path : string) (w : world) (s : state event) :
  exists s',
    DeviceInfoWorker_run adb_path w s = (Returns tt, s') /\
    new_events s s' =
      [info_ready (join newline
         (result_lines w (length (spawned s)) (_get_device_commands adb_path)))] /\
    length (result_lines w (length (spawned s)) (_get_device_commands adb_path)) =
      length (_get_device_commands adb_path) /\
    (forall label seconds rc out err formatted,
       (seconds <= 10)%N -> rc = 0 -> _format_output label (strip out) = Ret formatted ->
       result_line label (Exits seconds rc out err) = label +:+ ": " +:+ formatted) /\
    (forall label seconds rc out err text,
       (seconds <= 10)%N -> rc = 0 ->
       _format_output label (strip out) = Raise (IndexError text) ->
       result_line label (Exits seconds rc out err) = label +:+ ": Error - " +:+ text) /\
    (forall label seconds rc out err,
       (seconds <= 10)%N -> rc <> 0 ->
       result_line label (Exits seconds rc out err) = label +:+ ": Error - " +:+ strip err) /\
    (forall label seconds rc out err,
       (10 < seconds)%N ->
       result_line label (Exits seconds rc out err) = label +:+ ": Timeout") /\
    (forall label out, result_line label (NeverExits out) = label +:+ ": Timeout").
Proof.
  unfold DeviceInfoWorker_run, mbind. rewrite device_results_spec.
  eexists. split; [reflexivity|]. split.
  { unfold new_events. simpl. now rewrite drop_app_length. }
  split; [apply result_lines_length|].
  repeat split.
  - intros label d rc out err f Hd -> Hf. unfold result_line.
    apply N.ltb_ge in Hd. now rewrite Hd, Hf.
  - intros label d rc out err t Hd -> Hf. unfold result_line.
    apply N.ltb_ge in Hd. now rewrite Hd, Hf.
  - intros label d rc out err Hd Hrc. unfold result_line.
    apply N.ltb_ge in Hd. apply Z.eqb_neq in Hrc. now rewrite Hd, Hrc.
  - intros label d rc out err Hd. unfold result_line.
    apply N.ltb_lt in Hd. now rewrite Hd.
Qed.

Definition C4_world : world :=
  {| behaviour := fun _ _ => Exits 0 0 "MemTotal:" EmptyString;
     cpe_text := fun _ _ => EmptyString;
     path_exists := fun _ _ => false;
     readline_error := all_text |}.

(** C4 fails as stated: [cat /proc/meminfo] returns code 0 and prints a
    [MemTotal] line with no number; the formatter raises and the entry is
    an error line, not ['Total RAM: <formatted>']. *)
Lemma C4_counterexample :
  _format_output "Total RAM" (strip "MemTotal:") = Raise (IndexError "list index out of range") /\
  fst (device_result "Total RAM" "adb shell cat /proc/meminfo" C4_world start) =
    Returns "Total RAM: Error - list index out of range".
Proof. split; reflexivity. Qed.

End DeviceInfo.

Section Timeouts.
Import Py Proc Os Spec.

Lemma ADBThread_run_only_None (t : fileexplorer.ADBThread) :
  only (fun c => call_timeout c = None) (fileexplorer.ADBThread_run t).
Proof. unfold fileexplorer.ADBThread_run. only_solve. Qed.

Lemma ADBThread_run_blocks (t : fileexplorer.ADBThread) (w : world)
    (s : state fileexplorer.event) (out : string) :
  fileexplorer.command t ++ fileexplorer.params t <> [] ->
  behaviour w (length (spawned s)) (Argv (full_command t)) = NeverExits out ->
  fst (fileexplorer.ADBThread_run t w s) = Blocks.
Proof.
  unfold full_command, fileexplorer.ADBThread_run, try_catch, mbind, lift, check_output,
    mbind, spawn, index.
  destruct (fileexplorer.command t ++ fileexplorer.params t) as [|first rest];
    [contradiction|]. intros _ Hb. simpl. rewrite Hb. reflexivity.
Qed.

Lemma get_partition_size_only_None (ptp name : string) :
  only (fun c => call_timeout c = None) (partitionmanager.get_partition_size ptp name).
Proof. unfold partitionmanager.get_partition_size. only_solve. Qed.

Lemma load_lines_only_None (ptp : string) (lines : list string) (current total : nat) :
  only (fun c => call_timeout c = None)
       (partitionmanager.load_lines ptp current total lines).
Proof.
  revert current. induction lines as [|line rest IH]; intros current; simpl.
  - apply adds_ret. constructor.
  - apply only_mbind.
    + unfold partitionmanager.load_line. only_solve.
    + intros p. apply only_mbind; [apply IH|]. intros. apply adds_ret. constructor.
Qed.

Lemma PartitionLoadWorker_run_only_None (ptp : string) :
  only (fun c => call_timeout c = None) (partitionmanager.PartitionLoadWorker_run ptp).
Proof.
  unfold partitionmanager.PartitionLoadWorker_run. only_solve.
  apply load_lines_only_None.
Qed.

(** C7, as amended.  [DeviceInfoWorker.run] passes a timeout of ten seconds
    to every process it starts, and returns whatever the processes do.
    [ADBThread.run] and [PartitionLoadWorker.run] (with
    [get_partition_size]) pass no timeout, and wait for ever when the
    process they start does not exit. *)
Theorem C7_timeouts :
  (forall adb_path w s,
     exists s',
       adbfunc.DeviceInfoWorker_run adb_path w s = (Returns tt, s') /\
       Forall (fun c => call_timeout c = Some 10%N) (new_calls s s')) /\
  (forall t w s,
     Forall (fun c => call_timeout c = None)
            (new_calls s (snd (fileexplorer.ADBThread_run t w s))) /\
     forall out,
       fileexplorer.command t ++ fileexplorer.params t <> [] ->
       behaviour w (length (spawned s)) (Argv (full_command t)) = NeverExits out ->
       fst (fileexplorer.ADBThread_run t w s) = Blocks) /\
  (forall ptp w s,
     Forall (fun c => call_timeout c = None)
            (new_calls s (snd (partitionmanager.PartitionLoadWorker_run ptp w s))) /\
     forall out,
       behaviour w (length (spawned s))
         (Argv [partitionmanager.adb ptp; "shell"; "ls -l /dev/block/by-name"])
       = NeverExits out ->
       fst (partitionmanager.PartitionLoadWorker_run ptp w s) = Blocks).
Proof.
  split; [|split].
  - intros adb_path w s. unfold adbfunc.DeviceInfoWorker_run, mbind.
    rewrite device_results_spec. eexists. split; [reflexivity|].
    unfold new_calls. simpl. rewrite drop_app_length.
    repeat constructor.
  - intros t w s. split.
    + destruct (ADBThread_run_only_None t w s) as (cs & Hcs & HP).
      now rewrite (new_calls_app _ _ _ Hcs).
    + intros out. apply ADBThread_run_blocks.
  - intros ptp w s. split.
    + destruct (PartitionLoadWorker_run_only_None ptp w s) as (cs & Hcs & HP).
      now rewrite (new_calls_app _ _ _ Hcs).
    + intros out Hb. unfold partitionmanager.PartitionLoadWorker_run, try_catch, mbind,
        emit, run, mbind, spawn. simpl. rewrite Hb. reflexivity.
Qed.

Definition C7_thread : fileexplorer.ADBThread :=
  {| fileexplorer.adb_path := "adb";
     fileexplorer.command := ["shell"; "ls -la /sdcard"];
     fileexplorer.params := [] |}.

Definition C7_world : world :=
  {| behaviour := fun _ _ => NeverExits EmptyString;
     cpe_text := fun _ _ => EmptyString;
     path_exists := fun _ _ => false;
     readline_error := all_text |}.

(** C7 fails as stated: [ADBThread.run] starts [adb shell ls] with no
    timeout, and when that process hangs the run never returns and emits
    nothing. *)
Lemma C7_counterexample :
  fileexplorer.ADBThread_run C7_thread C7_world start =
  (Blocks,
   {| spawned := [{| call_cmd := Argv ["adb"; "shell"; "ls -la /sdcard"];
                     call_timeout := None |}];
      emitted := [] |}).
Proof. reflexivity. Qed.

End Timeouts.

Section FlashGuard.
Import Py Proc Os Spec partitionmanager.

(** C9.  With no partition or more than one partition selected,
    [flash_partition] shows one dialog and returns: the window is as it
    was, no flash worker exists, and no process has been started. *)
Theorem C9_flash_partition_guard (u : user) (self : PartitionManager) (w : world)
    (s : state event) :
  length (selected_partitions self) <> 1%nat ->
  exists dialog,
    flash_partition u self w s =
      (Returns self, {| spawned := spawned s; emitted := emitted s ++ [dialog] |}) /\
    new_calls s (snd (flash_partition u self w s)) = [] /\
    (dialog = warning "No Selection" "No partition selected for flashing." \/
     exists text, dialog = critical "Multiple Selections" text).
Proof.
  intros Hlen. unfold flash_partition.
  destruct (selected_partitions self) as [|p [|q rest]]; simpl in Hlen.
  - eexists. split; [reflexivity|]. split; [|now left].
    unfold new_calls. simpl. apply drop_all.
  - contradiction.
  - eexists. split; [reflexivity|]. split; [|right; eauto].
    unfold new_calls. simpl. apply drop_all.
Qed.

Definition C9_partition (n : string) : partition_info :=
  {| name := n; path := "/dev/block/sda1"; permissions := "lrwxrwxrwx";
     size_bytes := 1024; size_human := "1.00 KB" |}.

Definition C9_manager : PartitionManager :=
  {| platform_tools_path := "platform-tools";
     selected_partitions := [C9_partition "boot"; C9_partition "recovery"];
     flash_worker := None; progress_dialog := None; controls_enabled := true |}.

Definition C9_world : world :=
  {| behaviour := fun _ _ => Exits 1 0 EmptyString EmptyString;
     cpe_text := fun _ _ => EmptyString;
     path_exists := fun _ _ => true;
     readline_error := all_text |}.

Lemma C9_witness :
  exists dialog,
    flash_partition {| reply_yes := true; image_path := "boot.img" |} C9_manager C9_world start =
      (Returns C9_manager, {| spawned := []; emitted := [dialog] |}).
Proof.
  destruct (C9_flash_partition_guard {| reply_yes := true; image_path := "boot.img" |}
              C9_manager C9_world start) as (dialog & H & _).
  - simpl. lia.
  - exists dialog. exact H.
Defined.

(** With exactly one partition selected, the warning confirmed and a file
    chosen, the worker runs: push, [dd], [rm]. *)
Example flash_partition_one_selected :
  List.map call_cmd
    (spawned (snd (flash_partition {| reply_yes := true; image_path := "boot.img" |}
                     {| platform_tools_path := "pt";
                        selected_partitions := [C9_partition "boot"];
                        flash_worker := None; progress_dialog := None;
                        controls_enabled := true |} C9_world start))) =
  [ Argv ["pt/adb"; "push"; "boot.img"; "/sdcard/boot.img"];
    Argv ["pt/adb"; "shell"; "su"; "-c"; "dd if=/sdcard/boot.img of=/dev/block/by-name/boot"];
    Argv ["pt/adb"; "shell"; "su"; "-c"; "rm /sdcard/boot.img"] ].
Proof. reflexivity. Qed.

End FlashGuard.

(* ===================================================================== *)
(** * Part VIII.  Failed pulls are tried again                             *)
(* ===================================================================== *)

Section Retries.
Import Py Proc Os Spec Outcome.

(** A computation that only emits: it returns and starts no process. *)
Definition quiet {E A} (m : M E A) : Prop :=
  forall w s, exists a es,
    m w s = (Returns a, {| spawned := spawned s; emitted := emitted s ++ es |}).

Lemma quiet_ret {E A} (a : A) : quiet (ret (E:=E) a).
Proof. intros w s. exists a, []. unfold ret. rewrite app_nil_r. now destruct s. Qed.

Lemma quiet_emit {E} (e : E) : quiet (emit e).
Proof. intros w s. exists tt, [e]. reflexivity. Qed.

Lemma quiet_mbind {E A B} (m : M E A) (k : A -> M E B) :
  quiet m -> (forall a, quiet (k a)) -> quiet (mbind m k).
Proof.
  intros Hm Hk w s. unfold mbind. destruct (Hm w s) as (a & es & ->).
  destruct (Hk a w {| spawned := spawned s; emitted := emitted s ++ es |}) as (b & es' & ->).
  exists b, (es ++ es'). simpl. now rewrite app_assoc.
Qed.

Lemma quiet_for_each {E A} (l : list A) (body : A -> M E unit) :
  (forall a, quiet (body a)) -> quiet (for_each l body).
Proof.
  intros Hb. induction l as [|a l IH]; simpl; [apply quiet_ret|].
  apply quiet_mbind; auto.
Qed.

Lemma quiet_adds {E A} (m : M E A) : quiet m -> adds (eq []) m.
Proof.
  intros H w s. destruct (H w s) as (a & es & ->). exists []. simpl.
  now rewrite app_nil_r.
Qed.

(** A computation followed by one that only emits starts the same
    processes. *)
Lemma adds_then_quiet {E A B} (Q : list call -> Prop) (m : M E A) (k : A -> M E B) :
  adds Q m -> (forall a, quiet (k a)) -> adds Q (mbind m k).
Proof.
  intros Hm Hk. apply (adds_mbind Q (eq [])); auto.
  - intros a. apply quiet_adds, Hk.
  - intros x y Hx <-. now rewrite app_nil_r.
Qed.

Lemma quiet_then_adds {E A B} (Q : list call -> Prop) (m : M E A) (k : A -> M E B) :
  quiet m -> (forall a, adds Q (k a)) -> adds Q (mbind m k).
Proof.
  intros Hm Hk w s. unfold mbind. destruct (Hm w s) as (a & es & ->).
  destruct (Hk a w {| spawned := spawned s; emitted := emitted s ++ es |}) as (cs & Hcs & HQ).
  exists cs. split; [exact Hcs | exact HQ].
Qed.

Lemma adds_catch_quiet {E A} (Q : list call -> Prop) (m : M E A) (h : exn -> M E A) :
  adds Q m -> (forall e, quiet (h e)) -> adds Q (try_catch m h).
Proof.
  intros Hm Hh. apply (adds_try_catch Q (eq [])); auto.
  - intros e. apply quiet_adds, Hh.
  - intros x y Hx <-. now rewrite app_nil_r.
Qed.

Ltac quiet_solve :=
  repeat
    first
      [ apply quiet_ret
      | apply quiet_emit
      | apply quiet_mbind; [|intros]
      | apply quiet_for_each; intros
      | progress cbv zeta
      | match goal with
        | |- quiet (if ?b then _ else _) => destruct b
        | |- quiet (match ?x with _ => _ end) => destruct x
        end ].

Import fileexplorer.

Definition pull_call (adb source_path dest_path : string) : call :=
  {| call_cmd := Argv [adb; "pull"; source_path; dest_path]; call_timeout := None |}.

Definition chmod_thread (adb source_path : string) : ADBThread :=
  {| adb_path := adb; command := ["shell"];
     params := ["chmod -R 777 " +:+ quoted source_path] |}.

Definition chmod_call (adb source_path : string) : call :=
  {| call_cmd := Argv (full_command (chmod_thread adb source_path)); call_timeout := None |}.

(** The lines a [readline] loop reads from the process [p], the [n]-th
    spawned. *)
Definition lines_of (w : world) (n : nat) (p : process) : list string :=
  match p with
  | Exits _ _ out _ => fst (lines_read w n out)
  | NeverExits out => fst (lines_read w n out)
  | CannotStart _ => []
  end.

(** The exception that ends the [try] block of a transfer, if one does:
    the process cannot be started, or its output stops being text. *)
Definition read_failure (w : world) (n : nat) (p : process) : option exn :=
  match p with
  | Exits _ _ out _ => snd (lines_read w n out)
  | NeverExits out => snd (lines_read w n out)
  | CannotStart e => Some e
  end.

(** The transfer succeeded: the process exited with code 0 and all it
    printed was read. *)
Definition transferred (w : world) (n : nat) (p : process) : bool :=
  match p, read_failure w n p with
  | Exits _ rc _ _, None => rc =? 0
  | _, _ => false
  end.

(** The transfer comes to an end: the process ends, or the reading of its
    output fails. *)
Definition transfer_ends (w : world) (n : nat) (p : process) : bool :=
  terminates p || bool_decide (is_Some (read_failure w n p)).

(** What [transfer_finished] carries when the transfer comes to an end. *)
Definition transfer_report (t : TransferRunner) (w : world) (n : nat) (p : process)
  : string * bool * string :=
  match read_failure w n p, p with
  | Some e, _ => (exn_text e, true, EmptyString)
  | None, Exits _ rc _ _ =>
      let last_line := List.last (lines_of w n p) EmptyString in
      if rc =? 0 then
        (if nonempty last_line then last_line else "Transfer completed", false,
         if decide (2 <= length (args t))%nat then List.last (args t) EmptyString
         else EmptyString)
      else
        (if nonempty last_line then last_line
         else "Transfer failed (code " +:+ str_of_int rc +:+ ")", true, EmptyString)
  | None, _ => (EmptyString, true, EmptyString)
  end.

(** The events of the loop: every line read is emitted, and the slot
    connected to the signal adds its own. *)
Definition progress_events (slot_events : string -> list event) (lines : list string)
  : list event :=
  flat_map (fun l => transfer_progress l :: slot_events l) lines.

Section Slot.
Variable on_progress : string -> M event unit.
Variable slot_events : string -> list event.
Hypothesis on_progress_emits :
  forall l w s, on_progress l w s =
                (Returns tt, {| spawned := spawned s; emitted := emitted s ++ slot_events l |}).

Lemma for_each_progress (lines : list string) (w : world) (s : state event) :
  for_each lines (fun l => emit (transfer_progress l) ;; on_progress l)%eff w s =
  (Returns tt,
   {| spawned := spawned s;
      emitted := emitted s ++ progress_events slot_events lines |}).
Proof.
  revert s. induction lines as [|l lines IH]; intros s;
    cbn [for_each progress_events flat_map].
  - unfold ret. rewrite app_nil_r. now destruct s.
  - rewrite mbind_assoc, mbind_emit. unfold mbind at 1. rewrite on_progress_emits.
    cbn [spawned emitted]. rewrite IH. cbn [spawned emitted].
    fold (progress_events slot_events lines).
    now rewrite <- !app_assoc.
Qed.

(** What the [readline] loop does, by the process. *)
Lemma read_to_exit_spec (cmd : cmdline) (w : world) (s : state event) :
  let n := length (spawned s) in
  let p := behaviour w n cmd in
  read_to_exit on_progress cmd w s =
  (match read_failure w n p, p with
   | Some e, _ => Raises e
   | None, Exits _ rc _ _ => Returns (List.last (lines_of w n p) EmptyString, rc)
   | None, _ => Blocks
   end,
   {| spawned := spawned s ++ [{| call_cmd := cmd; call_timeout := None |}];
      emitted := emitted s ++ progress_events slot_events (lines_of w n p) |}).
Proof.
  cbv zeta. unfold read_to_exit, read_failure, lines_of.
  unfold mbind at 1, spawn at 1. cbv beta iota.
  destruct (behaviour w (length (spawned s)) cmd) as [d rc out err|out|e].
  - destruct (lines_read w (length (spawned s)) out) as [lines [e|]]; cbn [fst snd];
      unfold mbind at 1; rewrite for_each_progress; reflexivity.
  - destruct (lines_read w (length (spawned s)) out) as [lines [e|]]; cbn [fst snd];
      unfold mbind at 1; rewrite for_each_progress; reflexivity.
  - unfold raise. cbn [progress_events flat_map]. now rewrite app_nil_r.
Qed.

(** What [TransferRunner.run] does, by the process it starts. *)
Lemma TransferRunner_run_spec (t : TransferRunner) (w : world) (s : state event) :
  let cmd := Argv (tr_adb_path t :: args t) in
  let n := length (spawned s) in
  let p := behaviour w n cmd in
  let progress := progress_events slot_events (lines_of w n p) in
  TransferRunner_run on_progress t w s =
  if transfer_ends w n p then
    (Returns (transfer_report t w n p),
     {| spawned := spawned s ++ [{| call_cmd := cmd; call_timeout := None |}];
        emitted := emitted s ++ progress
                   ++ [transfer_finished (fst (fst (transfer_report t w n p)))
                                         (snd (fst (transfer_report t w n p)))
                                         (snd (transfer_report t w n p))] |})
  else
    (Blocks,
     {| spawned := spawned s ++ [{| call_cmd := cmd; call_timeout := None |}];
        emitted := emitted s ++ progress |}).
Proof.
  cbv zeta. unfold TransferRunner_run, try_catch. unfold mbind at 1.
  rewrite read_to_exit_spec. cbv zeta.
  unfold transfer_ends, transfer_report.
  destruct (read_failure w (length (spawned s))
              (behaviour w (length (spawned s)) (Argv (tr_adb_path t :: args t))))
    as [e|] eqn:Hfail.
  - rewrite bool_decide_eq_true_2 by eauto. rewrite orb_true_r.
    unfold mbind, emit, ret. cbn [spawned emitted fst snd]. now rewrite <- !app_assoc.
  - rewrite bool_decide_eq_false_2 by (intros [? ?]; discriminate). rewrite orb_false_r.
    destruct (behaviour w (length (spawned s)) (Argv (tr_adb_path t :: args t)))
      as [d rc out err|out|e]; cbn [terminates].
    + cbv beta iota zeta. destruct (rc =? 0); unfold mbind, emit, ret;
        cbn [spawned emitted fst snd]; now rewrite <- !app_assoc.
    + reflexivity.
    + discriminate.
Qed.

End Slot.

Lemma handle_transfer_progress_emits (l : string) (w : world) (s : state event) :
  handle_transfer_progress l w s =
  (Returns tt, {| spawned := spawned s; emitted := emitted s ++ [showMessage l] |}).
Proof. reflexivity. Qed.

Lemma no_slot_emits (l : string) (w : world) (s : state event) :
  no_slot l w s = (Returns tt, {| spawned := spawned s; emitted := emitted s ++ [] |}).
Proof. unfold no_slot, ret. rewrite app_nil_r. now destruct s. Qed.

(** A pull started by the window: the status bar shows every line. *)
Definition shown_progress (lines : list string) : list event :=
  progress_events (fun l => [showMessage l]) lines.

Lemma TransferRunner_run_adds (t : TransferRunner) :
  adds (eq [{| call_cmd := Argv (tr_adb_path t :: args t); call_timeout := None |}])
       (TransferRunner_run handle_transfer_progress t).
Proof.
  intros w s. eexists. split; [|reflexivity].
  rewrite (TransferRunner_run_spec _ _ handle_transfer_progress_emits). cbv zeta.
  now destruct (transfer_ends _ _ _).
Qed.

Lemma perform_pull_after_chmod_adds (adb output : string) (error : bool)
    (source_path dest_path name : string) :
  adds (eq (if error then [] else [pull_call adb source_path dest_path]))
       (perform_pull_after_chmod adb output error source_path dest_path name).
Proof.
  unfold perform_pull_after_chmod. destruct error.
  - apply quiet_adds. quiet_solve.
  - apply quiet_then_adds; [apply quiet_emit|]. intros _.
    apply adds_then_quiet; [apply TransferRunner_run_adds|].
    intros [[out err] dest]. unfold finish_chmod_pull. quiet_solve.
Qed.

Lemma ADBThread_run_cases (t : ADBThread) (w : world) (s : state event) :
  command t ++ params t <> [] ->
  match behaviour w (length (spawned s)) (Argv (full_command t)) with
  | Exits _ rc _ _ =>
      exists text,
        ADBThread_run t w s =
        (Returns (text, negb (rc =? 0)),
         {| spawned := spawned s ++ [{| call_cmd := Argv (full_command t); call_timeout := None |}];
            emitted := emitted s ++ [command_finished text (negb (rc =? 0))] |})
  | NeverExits _ =>
      ADBThread_run t w s =
      (Blocks,
       {| spawned := spawned s ++ [{| call_cmd := Argv (full_command t); call_timeout := None |}];
          emitted := emitted s |})
  | CannotStart _ =>
      exists text,
        ADBThread_run t w s =
        (Returns (text, true),
         {| spawned := spawned s ++ [{| call_cmd := Argv (full_command t); call_timeout := None |}];
            emitted := emitted s ++ [command_finished text true] |})
  end.
Proof.
  intros Hne. unfold ADBThread_run, full_command.
  unfold try_catch, mbind, lift, check_output, mbind, spawn, emit, ret, raise, index.
  destruct (command t ++ params t) as [|first rest]; [contradiction|]. cbn [lookup list_lookup].
  set (fc := if bool_decide (first <> adb_path t) then adb_path t :: first :: rest
             else first :: rest).
  destruct (behaviour w (length (spawned s)) (Argv fc)) as [d rc out err|out|e].
  - destruct (rc =? 0); eexists; reflexivity.
  - reflexivity.
  - destruct e; eexists; reflexivity.
Qed.

Lemma chmod_and_pull_calls (adb source_path dest_path name : string) (w : world)
    (s : state event) :
  new_calls s (snd (chmod_and_pull adb source_path dest_path name w s)) =
  chmod_call adb source_path ::
  match behaviour w (length (spawned s)) (call_cmd (chmod_call adb source_path)) with
  | Exits _ rc _ _ => if rc =? 0 then [pull_call adb source_path dest_path] else []
  | _ => []
  end.
Proof.
  unfold chmod_and_pull.
  change {| adb_path := adb; command := ["shell"];
            params := ["chmod -R 777 " +:+ quoted source_path] |}
    with (chmod_thread adb source_path).
  change (call_cmd (chmod_call adb source_path))
    with (Argv (full_command (chmod_thread adb source_path))).
  unfold chmod_call.
  pose proof (ADBThread_run_cases (chmod_thread adb source_path) w s) as H.
  unfold mbind.
  destruct (behaviour w (length (spawned s)) (Argv (full_command (chmod_thread adb source_path))))
    as [d rc out err|out|e].
  - destruct H as (text & ->); [discriminate|].
    match goal with
    | |- context [perform_pull_after_chmod adb text ?b source_path dest_path name w ?s1] =>
        destruct (perform_pull_after_chmod_adds adb text b source_path dest_path name w s1)
          as (cs & Hcs & <-)
    end.
    unfold new_calls. rewrite Hcs. cbn [spawned]. rewrite <- app_assoc, drop_app_length.
    now destruct (rc =? 0).
  - rewrite H by discriminate. unfold new_calls. cbn [snd spawned].
    now rewrite drop_app_length.
  - destruct H as (text & ->); [discriminate|].
    match goal with
    | |- context [perform_pull_after_chmod adb text ?b source_path dest_path name w ?s1] =>
        destruct (perform_pull_after_chmod_adds adb text b source_path dest_path name w s1)
          as (cs & Hcs & <-)
    end.
    unfold new_calls. rewrite Hcs. cbn [spawned]. now rewrite <- app_assoc, drop_app_length.
Qed.

(** A message box. *)
Definition is_box (e : event) : bool :=
  match e with
  | critical _ _ => true
  | _ => false
  end.

(** How the second attempt of a pull is reported: [chmod_ok] and [pull_ok]
    say whether [chmod] and the pull after it succeeded, [text] is what the
    one that failed gave. *)
Definition report (name : string) (chmod_ok pull_ok : bool) (text : string) : list event :=
  if negb chmod_ok then
    [ close_progress;
      critical "Error" ("Failed to set permissions for " +:+ name +:+ ": " +:+ text);
      showMessage ("Failed to set permissions for " +:+ name) ]
  else if negb pull_ok then
    [ close_progress;
      critical "Error" ("Failed to pull " +:+ name +:+ " even after chmod: " +:+ text);
      showMessage ("Failed to pull " +:+ name) ]
  else
    [ close_progress;
      showMessage ("Successfully pulled " +:+ name +:+ " using chmod method") ].

Lemma transfer_report_error (t : TransferRunner) (w : world) (n : nat) (p : process) :
  transfer_ends w n p = true ->
  snd (fst (transfer_report t w n p)) = negb (transferred w n p).
Proof.
  unfold transfer_ends, transfer_report, transferred.
  destruct p as [d rc out err|out|e];
    (destruct (read_failure w n _) as [e'|]; [reflexivity|]);
    rewrite bool_decide_eq_false_2 by (intros [? ?]; discriminate); cbn [terminates orb];
    try discriminate; intros _; try reflexivity.
  now destruct (rc =? 0).
Qed.

Lemma shown_progress_no_box (lines : list string) :
  Forall (fun e => is_box e = false) (shown_progress lines).
Proof.
  unfold shown_progress, progress_events. induction lines as [|l lines IH]; cbn [flat_map].
  - constructor.
  - repeat constructor. exact IH.
Qed.

(** The second attempt, when [chmod] and the pull after it come to an end:
    the calls, and the events, which end in the report. *)
Lemma perform_pull_after_chmod_spec (adb output : string) (error : bool)
    (source_path dest_path name : string) (w : world) (s : state event) :
  let p := behaviour w (length (spawned s)) (call_cmd (pull_call adb source_path dest_path)) in
  (error = false -> transfer_ends w (length (spawned s)) p = true) ->
  exists text before,
    perform_pull_after_chmod adb output error source_path dest_path name w s =
    (Returns tt,
     {| spawned := spawned s ++ (if error then [] else [pull_call adb source_path dest_path]);
        emitted := emitted s ++ before
                   ++ report name (negb error) (transferred w (length (spawned s)) p) text |}) /\
    (error = true -> text = output) /\
    Forall (fun e => is_box e = false) before.
Proof.
  cbv zeta. intros Hends. unfold perform_pull_after_chmod. destruct error.
  - exists output, []. split; [|split; [reflexivity|constructor]].
    unfold mbind, emit. cbn [spawned emitted report negb app].
    now rewrite <- !app_assoc, app_nil_r.
  - specialize (Hends eq_refl). rewrite mbind_emit. unfold mbind at 1.
    rewrite (TransferRunner_run_spec _ _ handle_transfer_progress_emits). cbv zeta.
    cbn [spawned emitted tr_adb_path args].
    change (Argv [adb; "pull"; source_path; dest_path])
      with (call_cmd (pull_call adb source_path dest_path)).
    rewrite Hends.
    set (t := {| tr_adb_path := adb; args := ["pull"; source_path; dest_path] |}).
    pose proof (transfer_report_error t w (length (spawned s)) _ Hends) as Herr.
    destruct (transfer_report t w (length (spawned s))
                (behaviour w (length (spawned s))
                   (call_cmd (pull_call adb source_path dest_path))))
      as [[text is_error] dest]. cbn [fst snd] in *. subst is_error.
    exists text.
    exists (setLabelText ("Pulling " +:+ name +:+ " after chmod...")
            :: shown_progress
                 (lines_of w (length (spawned s))
                    (behaviour w (length (spawned s))
                       (call_cmd (pull_call adb source_path dest_path))))
               ++ [transfer_finished text
                     (negb (transferred w (length (spawned s))
                              (behaviour w (length (spawned s))
                                 (call_cmd (pull_call adb source_path dest_path)))))
                     dest]).
    split; [|split; [discriminate|]].
    + unfold finish_chmod_pull, report, shown_progress. cbn [negb].
      destruct (transferred w (length (spawned s)) _); cbn [negb];
        unfold mbind, emit; cbn [spawned emitted];
        rewrite <- !app_assoc; cbn [app]; rewrite <- !app_assoc; reflexivity.
    + constructor; [reflexivity|]. apply Forall_app. split; [apply shown_progress_no_box|].
      repeat constructor.
Qed.

(** A failed pull, when [chmod] and the pull after it come to an end. *)
Lemma handle_pull_result_retry (adb output name source_path dest_path : string)
    (w : world) (s : state event) :
  let p1 := behaviour w (length (spawned s)) (call_cmd (chmod_call adb source_path)) in
  let p2 := behaviour w (S (length (spawned s)))
              (call_cmd (pull_call adb source_path dest_path)) in
  terminates p1 = true ->
  (succeeds p1 = true -> transfer_ends w (S (length (spawned s))) p2 = true) ->
  exists text before,
    handle_pull_result adb output true name source_path dest_path w s =
    (Returns tt,
     {| spawned := spawned s ++ chmod_call adb source_path
                   :: (if succeeds p1 then [pull_call adb source_path dest_path] else []);
        emitted := emitted s ++ before
                   ++ report name (succeeds p1)
                        (transferred w (S (length (spawned s))) p2) text |}) /\
    Forall (fun e => is_box e = false) before.
Proof.
  cbv zeta. intros Hterm Hends. unfold handle_pull_result.
  rewrite !mbind_emit. cbn [spawned emitted]. unfold chmod_and_pull.
  change {| adb_path := adb; command := ["shell"];
            params := ["chmod -R 777 " +:+ quoted source_path] |}
    with (chmod_thread adb source_path).
  unfold chmod_call in *. cbn [call_cmd] in Hterm, Hends |- *.
  set (s1 := {| spawned := spawned s;
                emitted := (emitted s ++ [showMessage ("Regular pull failed for " +:+ name
                                                       +:+ ", trying chmod fallback...")])
                           ++ [setLabelText ("Regular pull failed, trying chmod for "
                                             +:+ name +:+ "...")] |}).
  pose proof (ADBThread_run_cases (chmod_thread adb source_path) w s1) as H.
  cbn [spawned s1] in H. unfold mbind at 1.
  destruct (behaviour w (length (spawned s)) (Argv (full_command (chmod_thread adb source_path))))
    as [d rc out err|out|e]; [|discriminate|].
  - destruct H as (text & ->); [discriminate|]. cbn [succeeds] in *.
    match goal with
    | |- context [perform_pull_after_chmod adb text ?b source_path dest_path name w ?s2] =>
        destruct (perform_pull_after_chmod_spec adb text b source_path dest_path name w s2)
          as (text' & before & Hrun & _ & Hbefore)
    end.
    { cbn [spawned]. rewrite length_app, Nat.add_1_r. intros Hok.
      apply Hends. now apply negb_false_iff. }
    rewrite Hrun. cbn [spawned emitted]. rewrite length_app, Nat.add_1_r.
    rewrite negb_involutive. exists text'.
    exists ([showMessage ("Regular pull failed for " +:+ name +:+ ", trying chmod fallback...");
             setLabelText ("Regular pull failed, trying chmod for " +:+ name +:+ "...");
             command_finished text (negb (rc =? 0))] ++ before).
    split.
    + f_equal. f_equal.
      * rewrite <- app_assoc. cbn [app]. now destruct (rc =? 0).
      * subst s1. cbn [emitted]. rewrite <- !app_assoc. reflexivity.
    + apply Forall_app. split; [repeat constructor|assumption].
  - destruct H as (text & ->); [discriminate|]. cbn [succeeds] in *.
    match goal with
    | |- context [perform_pull_after_chmod adb text true source_path dest_path name w ?s2] =>
        destruct (perform_pull_after_chmod_spec adb text true source_path dest_path name w s2)
          as (text' & before & Hrun & _ & Hbefore)
    end.
    { discriminate. }
    rewrite Hrun. cbn [spawned emitted negb]. exists text'.
    exists ([showMessage ("Regular pull failed for " +:+ name +:+ ", trying chmod fallback...");
             setLabelText ("Regular pull failed, trying chmod for " +:+ name +:+ "...");
             command_finished text true] ++ before).
    split.
    + f_equal. f_equal.
      * now rewrite app_nil_r.
      * subst s1. cbn [emitted]. rewrite <- !app_assoc. reflexivity.
    + apply Forall_app. split; [repeat constructor|assumption].
Qed.

(** Nothing a run raises gets out of it. *)
Definition safe {E A} (m : M E A) : Prop :=
  forall w s, (exists a, fst (m w s) = Returns a) \/ fst (m w s) = Blocks.

Lemma safe_ret {E A} (a : A) : safe (ret (E:=E) a).
Proof. intros w s. left. now exists a. Qed.

Lemma safe_try_catch {E A} (m : M E A) (h : exn -> M E A) :
  (forall e, safe (h e)) -> safe (try_catch m h).
Proof.
  intros Hh w s. unfold try_catch. destruct (m w s) as [[a|e|] s'] eqn:Em; simpl.
  - left. now exists a.
  - apply Hh.
  - now right.
Qed.

Lemma safe_mbind {E A B} (m : M E A) (k : A -> M E B) :
  safe m -> (forall a, safe (k a)) -> safe (mbind m k).
Proof.
  intros Hm Hk w s. unfold mbind. destruct (Hm w s) as [[a Ha]|Hb];
    destruct (m w s) as [[a'|e|] s']; simpl in *; try discriminate.
  - apply Hk.
  - now right.
Qed.

Lemma at_most_mbind_le (p : call -> bool) (a b n : nat) {E A B} (m : M E A) (k : A -> M E B) :
  at_most p a m -> (forall x, at_most p b (k x)) -> (a + b <= n)%nat ->
  at_most p n (mbind m k).
Proof. intros Hm Hk Hn. eapply at_most_le; [exact Hn|]. now apply at_most_mbind. Qed.

Lemma at_most_try_quiet (p : call -> bool) (n : nat) {E A} (m : M E A) (h : exn -> M E A) :
  at_most p n m -> (forall e, quiet (h e)) -> at_most p n (try_catch m h).
Proof. intros Hm Hh. now apply adds_catch_quiet. Qed.

Import bootanimcreator.

Lemma pull_tmp_at_most (adb_cmd local_dest : string) :
  at_most is_pull 1 (pull_tmp adb_cmd local_dest).
Proof.
  unfold pull_tmp. apply (at_most_mbind_le is_pull 1 0).
  - apply adds_run. simpl. lia.
  - intros pull. destruct (returncode pull =? 0).
    + apply adds_exists_path. simpl. lia.
    + apply adds_ret. simpl. lia.
  - lia.
Qed.

Ltac no_pull := first [ apply adds_run | apply adds_ret ]; simpl; lia.

Lemma pull_by_argv_at_most (remote_path adb_cmd local_dest : string) :
  at_most is_pull 1 (pull_by_argv remote_path adb_cmd local_dest).
Proof.
  unfold pull_by_argv. apply at_most_try_quiet; [|intros; apply quiet_ret].
  apply (at_most_mbind_le is_pull 0 1); [no_pull| |lia].
  intros cp. destruct (returncode cp =? 0); [|no_pull].
  apply (at_most_mbind_le is_pull 1 0); [apply pull_tmp_at_most| |lia].
  intros [|]; [|no_pull].
  apply (at_most_mbind_le is_pull 0 0); [no_pull|intros; no_pull|lia].
Qed.

Lemma pull_by_shell_at_most (remote_path adb_cmd local_dest : string) :
  at_most is_pull 1 (pull_by_shell remote_path adb_cmd local_dest).
Proof.
  unfold pull_by_shell. apply at_most_try_quiet; [|intros; apply quiet_ret].
  apply (at_most_mbind_le is_pull 0 1); [no_pull| |lia].
  intros cp. destruct (returncode cp =? 0); [|no_pull].
  apply (at_most_mbind_le is_pull 1 0); [apply pull_tmp_at_most| |lia].
  intros [|]; [|no_pull].
  apply (at_most_mbind_le is_pull 0 0); [no_pull|intros; no_pull|lia].
Qed.

Lemma pull_by_steps_at_most (remote_path adb_cmd local_dest : string) :
  at_most is_pull 1 (pull_by_steps remote_path adb_cmd local_dest).
Proof.
  unfold pull_by_steps. apply at_most_try_quiet; [|intros; apply quiet_ret].
  apply (at_most_mbind_le is_pull 0 1); [no_pull| |lia].
  intros p1. destruct (returncode p1 =? 0); [|no_pull].
  apply (at_most_mbind_le is_pull 0 1); [no_pull| |lia].
  intros p2. destruct (returncode p2 =? 0); [|no_pull].
  apply (at_most_mbind_le is_pull 1 0); [apply pull_tmp_at_most| |lia].
  intros [|]; [|no_pull].
  apply (at_most_mbind_le is_pull 0 0); [no_pull|intros; no_pull|lia].
Qed.

Lemma pull_root_zip_sync_at_most (remote_path adb_cmd local_dest : string) :
  at_most is_pull 3 (pull_root_zip_sync remote_path adb_cmd (Some local_dest)).
Proof.
  unfold pull_root_zip_sync.
  apply (at_most_mbind_le is_pull 1 2); [apply pull_by_argv_at_most| |lia].
  intros [|]; [no_pull|].
  apply (at_most_mbind_le is_pull 1 1); [apply pull_by_shell_at_most| |lia].
  intros [|]; [no_pull|].
  apply pull_by_steps_at_most.
Qed.

Lemma pull_root_zip_sync_safe (remote_path adb_cmd local_dest : string) :
  safe (pull_root_zip_sync remote_path adb_cmd (Some local_dest)).
Proof.
  unfold pull_root_zip_sync.
  apply safe_mbind; [apply safe_try_catch; intros; apply safe_ret|].
  intros [|]; [apply safe_ret|].
  apply safe_mbind; [apply safe_try_catch; intros; apply safe_ret|].
  intros [|]; [apply safe_ret|].
  apply safe_try_catch; intros; apply safe_ret.
Qed.

(** Whatever a computation built from these steps starts. *)
Ltac any_calls :=
  repeat first
    [ eassumption
    | apply adds_ret; exact I
    | apply adds_run; exact I
    | apply adds_exists_path; exact I
    | match goal with
      | |- adds _ (if ?b then _ else _) => destruct b
      | |- adds _ (mbind _ _) =>
          apply (adds_mbind (fun _ => True) (fun _ => True));
          [ | intros | intros; exact I | intros; exact I ]
      end ].

Lemma pull_tmp_calls (adb_cmd local_dest : string) :
  adds (fun _ => True) (pull_tmp adb_cmd local_dest).
Proof. unfold pull_tmp. any_calls. Qed.

(** The first process a computation starts. *)
Definition starts_with {A} (c : call) (m : M Empty_set A) : Prop :=
  adds (fun cs => hd_error cs = Some c) m.

Lemma starts_with_run {A} (cmd : cmdline) (timeout : option N)
    (k : CompletedProcess -> M Empty_set A) (h : exn -> M Empty_set A) :
  (forall cp, adds (fun _ => True) (k cp)) -> (forall e, quiet (h e)) ->
  starts_with {| call_cmd := cmd; call_timeout := timeout |}
    (try_catch (mbind (run cmd timeout) k) h).
Proof.
  intros Hk Hh. apply adds_catch_quiet; [|exact Hh].
  apply (adds_mbind (eq [{| call_cmd := cmd; call_timeout := timeout |}]) (fun _ => True)).
  - now apply adds_run.
  - exact Hk.
  - now intros x <-.
  - now intros x y <- _.
Qed.

(** The copy each of the three methods begins with. *)
Definition copy_by_argv (remote_path adb_cmd : string) : call :=
  {| call_cmd := Argv [adb_cmd; "shell"; "su"; "-c"; copy_command remote_path];
     call_timeout := Some 25%N |}.

Definition copy_by_shell (remote_path adb_cmd : string) : call :=
  {| call_cmd := Shell (adb_cmd +:+ " shell su -c '" +:+ copy_command remote_path +:+ "'");
     call_timeout := Some 30%N |}.

Definition copy_by_steps (remote_path adb_cmd : string) : call :=
  {| call_cmd := Argv [adb_cmd; "shell";
                       "su -c cp " +:+ quoted remote_path +:+ " " +:+ quoted tmp_remote];
     call_timeout := Some 20%N |}.

Lemma pull_by_argv_starts (remote_path adb_cmd local_dest : string) :
  starts_with (copy_by_argv remote_path adb_cmd) (pull_by_argv remote_path adb_cmd local_dest).
Proof.
  apply starts_with_run; [|intros; apply quiet_ret].
  intros cp. pose proof (pull_tmp_calls adb_cmd local_dest). any_calls.
Qed.

Lemma pull_by_shell_starts (remote_path adb_cmd local_dest : string) :
  starts_with (copy_by_shell remote_path adb_cmd) (pull_by_shell remote_path adb_cmd local_dest).
Proof.
  apply starts_with_run; [|intros; apply quiet_ret].
  intros cp. pose proof (pull_tmp_calls adb_cmd local_dest). any_calls.
Qed.

Lemma pull_by_steps_starts (remote_path adb_cmd local_dest : string) :
  starts_with (copy_by_steps remote_path adb_cmd) (pull_by_steps remote_path adb_cmd local_dest).
Proof.
  apply starts_with_run; [|intros; apply quiet_ret].
  intros cp. pose proof (pull_tmp_calls adb_cmd local_dest). any_calls.
Qed.

Lemma starts_with_hd {A} (c : call) (m : M Empty_set A) (w : world) (s : state Empty_set) :
  starts_with c m -> hd_error (new_calls s (snd (m w s))) = Some c.
Proof. intros H. destruct (H w s) as (cs & Hcs & Hhd). now rewrite (new_calls_app _ _ _ Hcs). Qed.

(** The three methods, one after the other: each is tried when the one
    before has returned [False]. *)
Lemma pull_root_zip_sync_in_turn (remote_path adb_cmd local_dest : string)
    (w : world) (s : state Empty_set) :
  let r1 := pull_by_argv remote_path adb_cmd local_dest w s in
  let r2 := pull_by_shell remote_path adb_cmd local_dest w (snd r1) in
  let r3 := pull_by_steps remote_path adb_cmd local_dest w (snd r2) in
  pull_root_zip_sync remote_path adb_cmd (Some local_dest) w s =
  match fst r1 with
  | Returns false => match fst r2 with
                     | Returns false => r3
                     | _ => r2
                     end
  | _ => r1
  end.
Proof.
  cbv zeta. unfold pull_root_zip_sync, mbind.
  destruct (pull_by_argv remote_path adb_cmd local_dest w s) as [[[|]|e|] s1];
    cbn [fst snd]; try reflexivity.
  destruct (pull_by_shell remote_path adb_cmd local_dest w s1) as [[[|]|e|] s2];
    cbn [fst snd]; reflexivity.
Qed.

(** C2, as amended.  A pull that succeeds is reported in the status bar and
    starts nothing more.  After a failed pull [handle_pull_result] runs
    [chmod -R 777] on the source and, when that returns code 0, pulls once
    more; nothing else is started.  When [chmod] and the second pull come
    to an end, [handle_pull_result] returns, and what it shows ends with
    the report of the second attempt: a message box when [chmod] or the
    second pull failed, with the text of the failure, and the line
    'Successfully pulled ... using chmod method' otherwise; before the
    report there is no message box.  [pull_root_zip_sync] with a
    destination tries three methods one after the other, each when the one
    before has returned [False] (an exception inside a method counts as
    [False]); every method begins with its copy command, the run pulls at
    most three times and raises nothing.  Without a destination it raises
    [RuntimeError] and starts nothing. *)
Theorem C2_failed_pull_is_tried_again :
  (forall adb output name source_path dest_path w s,
     handle_pull_result adb output false name source_path dest_path w s =
     (Returns tt,
      {| spawned := spawned s;
         emitted := emitted s ++ [close_progress;
                                  showMessage ("Successfully pulled " +:+ name)] |})) /\
  (forall adb output name source_path dest_path w s,
     new_calls s (snd (handle_pull_result adb output true name source_path dest_path w s)) =
     chmod_call adb source_path ::
     match behaviour w (length (spawned s)) (call_cmd (chmod_call adb source_path)) with
     | Exits _ rc _ _ => if rc =? 0 then [pull_call adb source_path dest_path] else []
     | _ => []
     end) /\
  (forall adb output name source_path dest_path w s,
     let p1 := behaviour w (length (spawned s)) (call_cmd (chmod_call adb source_path)) in
     let p2 := behaviour w (S (length (spawned s)))
                 (call_cmd (pull_call adb source_path dest_path)) in
     terminates p1 = true ->
     (succeeds p1 = true -> transfer_ends w (S (length (spawned s))) p2 = true) ->
     exists text before s',
       handle_pull_result adb output true name source_path dest_path w s = (Returns tt, s') /\
       new_events s s' =
         before ++ report name (succeeds p1)
                     (transferred w (S (length (spawned s))) p2) text /\
       Forall (fun e => is_box e = false) before) /\
  (forall remote_path adb_cmd local_dest w s,
     let r1 := pull_by_argv remote_path adb_cmd local_dest w s in
     let r2 := pull_by_shell remote_path adb_cmd local_dest w (snd r1) in
     let r3 := pull_by_steps remote_path adb_cmd local_dest w (snd r2) in
     let r := pull_root_zip_sync remote_path adb_cmd (Some local_dest) w s in
     r = match fst r1 with
         | Returns false => match fst r2 with
                            | Returns false => r3
                            | _ => r2
                            end
         | _ => r1
         end /\
     hd_error (new_calls s (snd r1)) = Some (copy_by_argv remote_path adb_cmd) /\
     hd_error (new_calls (snd r1) (snd r2)) = Some (copy_by_shell remote_path adb_cmd) /\
     hd_error (new_calls (snd r2) (snd r3)) = Some (copy_by_steps remote_path adb_cmd) /\
     (length (List.filter is_pull (new_calls s (snd r))) <= 3)%nat /\
     ((exists b, fst r = Returns b) \/ fst r = Blocks)) /\
  (forall remote_path adb_cmd w s,
     pull_root_zip_sync remote_path adb_cmd None w s =
     (Raises (RuntimeError "local_dest must be specified"), s)).
Proof.
  split; [|split; [|split; [|split]]].
  - intros. unfold handle_pull_result, mbind, emit. cbn [emitted spawned].
    now rewrite <- app_assoc.
  - intros. unfold handle_pull_result. unfold mbind at 1 2, emit. cbv beta iota.
    match goal with
    | |- context [chmod_and_pull adb source_path dest_path ?n w ?s1] =>
        apply (chmod_and_pull_calls adb source_path dest_path n w s1)
    end.
  - intros adb output name source_path dest_path w s p1 p2 Hterm Hends.
    destruct (handle_pull_result_retry adb output name source_path dest_path w s Hterm Hends)
      as (text & before & Hrun & Hbefore).
    exists text, before. eexists. split; [exact Hrun|]. split; [|exact Hbefore].
    unfold new_events. cbn [emitted]. apply drop_app_length.
  - intros remote_path adb_cmd local_dest w s. cbv zeta. repeat split.
    + apply pull_root_zip_sync_in_turn.
    + apply starts_with_hd, pull_by_argv_starts.
    + apply starts_with_hd, pull_by_shell_starts.
    + apply starts_with_hd, pull_by_steps_starts.
    + destruct (pull_root_zip_sync_at_most remote_path adb_cmd local_dest w s)
        as (cs & Hcs & Hn).
      now rewrite (new_calls_app _ _ _ Hcs).
    + apply pull_root_zip_sync_safe.
  - reflexivity.
Qed.

Definition C2_world : world :=
  {| behaviour := fun n _ =>
       match n with
       | O => Exits 1 1 "adb: error: failed to copy" EmptyString
       | _ => Exits 1 0 EmptyString EmptyString
       end;
     cpe_text := fun _ _ => EmptyString;
     path_exists := fun _ _ => true;
     readline_error := all_text |}.

(** The state after the failed pull of [C2_counterexample]. *)
Definition C2_failed : state event :=
  {| spawned := [pull_call "adb" "/sdcard/a.txt" "/home/u/a.txt"];
     emitted := [ transfer_progress "adb: error: failed to copy";
                  showMessage "adb: error: failed to copy";
                  transfer_finished "adb: error: failed to copy" true EmptyString ] |}.

Lemma C2_witness :
  exists text before s',
    handle_pull_result "adb" "adb: error: failed to copy" true "a.txt" "/sdcard/a.txt"
      EmptyString C2_world C2_failed = (Returns tt, s') /\
    new_events C2_failed s' = before ++ report "a.txt" true true text /\
    Forall (fun e => is_box e = false) before.
Proof.
  exact (proj1 (proj2 (proj2 C2_failed_pull_is_tried_again))
           "adb" "adb: error: failed to copy" "a.txt" "/sdcard/a.txt" EmptyString
           C2_world C2_failed eq_refl (fun _ => eq_refl)).
Defined.

(** C2 fails as stated: the pull of a file fails, and the program runs
    [chmod] on the file and pulls it a second time (to the destination the
    failed transfer reported, which is the empty string). *)
Lemma C2_counterexample :
  List.map call_cmd
    (spawned (snd (start_pull "adb" "/sdcard/a.txt" "/home/u" "a.txt" false C2_world start))) =
  [ Argv ["adb"; "pull"; "/sdcard/a.txt"; "/home/u/a.txt"];
    Argv ["adb"; "shell"; "chmod -R 777 " +:+ quoted "/sdcard/a.txt"];
    Argv ["adb"; "pull"; "/sdcard/a.txt"; EmptyString] ] /\
  emitted (snd (start_pull "adb" "/sdcard/a.txt" "/home/u" "a.txt" false C2_world start)) =
  [ transfer_progress "adb: error: failed to copy";
    showMessage "adb: error: failed to copy";
    transfer_finished "adb: error: failed to copy" true EmptyString;
    showMessage "Regular pull failed for a.txt, trying chmod fallback...";
    setLabelText "Regular pull failed, trying chmod for a.txt...";
    command_finished EmptyString false;
    setLabelText "Pulling a.txt after chmod...";
    transfer_finished "Transfer completed" false EmptyString;
    close_progress;
    showMessage "Successfully pulled a.txt using chmod method" ].
Proof. split; reflexivity. Qed.

(** The three methods of [pull_root_zip_sync], each tried because the one
    before failed: the first two copies fail, the third way succeeds. *)
Example pull_root_zip_sync_third_method :
  let w := {| behaviour := fun n _ => match n with
                                      | 0%nat | 1%nat => Exits 1 1 EmptyString "su: not found"
                                      | _ => Exits 1 0 EmptyString EmptyString
                                      end;
              cpe_text := fun _ _ => EmptyString;
              path_exists := fun _ _ => true;
              readline_error := all_text |} in
  fst (pull_root_zip_sync "/system/media/bootanimation.zip" "adb" (Some "/tmp/b.zip") w start)
    = Returns true /\
  length (spawned (snd (pull_root_zip_sync "/system/media/bootanimation.zip" "adb"
                          (Some "/tmp/b.zip") w start))) = 6%nat.
Proof. split; reflexivity. Qed.

End Retries.

(* ===================================================================== *)
(** * Part IX.  The package list                                           *)
(* ===================================================================== *)

Section Packages.
Import Py Proc Os Spec appmanager.

Lemma split_char_cons (c a : ascii) (s : string) :
  split (String c EmptyString) (String a s) =
  if Ascii.eqb a c then EmptyString :: split (String c EmptyString) s
  else cons_head a (split (String c EmptyString) s).
Proof.
  unfold split. cbn [split_go String.prefix String.length fmap option_fmap option_map].
  destruct (ascii_dec c a) as [->|Hne].
  - rewrite Ascii.eqb_refl. now destruct s.
  - assert (Ascii.eqb a c = false) as -> by (apply Ascii.eqb_neq; congruence).
    reflexivity.
Qed.

Lemma join_cons_nonempty (sep x : string) (l : list string) :
  l <> [] -> join sep (x :: l) = x +:+ sep +:+ join sep l.
Proof. destruct l; [contradiction | reflexivity]. Qed.

(** [s.split(c)] seen from the last occurrence of [c]: without one the
    list is [[s]]; with one, its last element is the text after it and the
    elements before, joined by [c], are the text before it. *)
Lemma split_char_rsplit (c : ascii) (s : string) :
  match rsplit1 c s with
  | None => split (String c EmptyString) s = [s]
  | Some (h, p) =>
      exists fs, split (String c EmptyString) s = fs ++ [p] /\ fs <> [] /\
                 join (String c EmptyString) fs = h
  end.
Proof.
  induction s as [|a s IH].
  - reflexivity.
  - rewrite split_char_cons. cbn [rsplit1].
    destruct (rsplit1 c s) as [[h p]|].
    + destruct IH as (fs & Hs & Hne & Hj). rewrite Hs.
      destruct (Ascii.eqb a c) eqn:Hac.
      * apply Ascii.eqb_eq in Hac as ->.
        exists (EmptyString :: fs). split; [reflexivity|]. split; [discriminate|].
        rewrite join_cons_nonempty by assumption. now rewrite Hj.
      * destruct fs as [|f fs']; [contradiction|].
        exists (String a f :: fs'). split; [reflexivity|]. split; [discriminate|].
        rewrite <- Hj. destruct fs'; reflexivity.
    + rewrite IH. destruct (Ascii.eqb a c) eqn:Hac.
      * apply Ascii.eqb_eq in Hac as ->.
        exists [EmptyString]. repeat split. discriminate.
      * reflexivity.
Qed.

Lemma parse_app_info_cut (line path_part name_part : string) :
  line = path_part +:+ "=" +:+ name_part -> contains "=" name_part = false ->
  parse_app_info line = parsed_app path_part name_part.
Proof.
  intros Hline Hname.
  assert (Hr : rsplit1 "=" line = Some (path_part, name_part))
    by (apply rsplit1_Some; now split).
  pose proof (split_char_rsplit "=" line) as Hs. rewrite Hr in Hs.
  destruct Hs as (fs & Hs & Hne & Hj).
  unfold parse_app_info, parsed_app, app_type_of, but_last.
  rewrite Hs, last_last, removelast_last, Hj. reflexivity.
Qed.

Lemma parse_app_info_whole (line : string) :
  contains "=" line = false -> parse_app_info line = parsed_app EmptyString line.
Proof.
  intros Hline.
  pose proof (split_char_rsplit "=" line) as Hs.
  rewrite (proj2 (rsplit1_None "=" line) Hline) in Hs.
  unfold parse_app_info, parsed_app, app_type_of, but_last.
  rewrite Hs. reflexivity.
Qed.

Lemma elem_of_disabled_set (output name : string) :
  name ∈ disabled_set output <-> listed_disabled output name.
Proof.
  unfold disabled_set, listed_disabled. rewrite elem_of_list_to_set, list_elem_of_In.
  rewrite in_map_iff. split; intros (line & H1 & H2); exists line; auto.
Qed.

Lemma collect_apps_In (disabled : gset string) (packages : list string) (a : app) :
  In a (collect_apps disabled packages) <->
  exists line app_name package_name app_type,
    In line packages /\
    parse_app_info line = Some (app_name, package_name, app_type) /\
    app_name <> EmptyString /\
    a = (app_name, package_name,
         if bool_decide (package_name ∈ disabled) then "Disabled" else "Enabled",
         app_type).
Proof.
  induction packages as [|line rest IH]; cbn [collect_apps].
  - split; [intros [] | intros (? & ? & ? & ? & [] & _)].
  - destruct (parse_app_info line) as [[[n p] t]|] eqn:Hp.
    + assert (Hpn : nonempty p = true).
      { unfold parse_app_info in Hp.
        destruct (nonempty (strip (List.last (split "=" line) EmptyString))) eqn:Hn;
          [|discriminate]. injection Hp as _ <- _. exact Hn. }
      rewrite Hpn, andb_true_r. destruct (nonempty n) eqn:Hn.
      * split.
        -- intros [<-|Hin].
           ++ exists line, n, p, t. repeat split; auto; [now left|].
              now apply nonempty_true.
           ++ apply IH in Hin as (l & n' & p' & t' & Hl & H1 & H2 & H3).
              exists l, n', p', t'. repeat split; auto. now right.
        -- intros (l & n' & p' & t' & [<-|Hl] & H1 & H2 & H3).
           ++ rewrite Hp in H1. injection H1 as <- <- <-. now left.
           ++ right. apply IH. exists l, n', p', t'. auto.
      * rewrite IH. split.
        -- intros (l & n' & p' & t' & Hl & H1 & H2 & H3).
           exists l, n', p', t'. repeat split; auto. now right.
        -- intros (l & n' & p' & t' & [<-|Hl] & H1 & H2 & H3).
           ++ rewrite Hp in H1. injection H1 as <- <- <-.
              apply nonempty_false in Hn. contradiction.
           ++ exists l, n', p', t'. auto.
    + rewrite IH. split.
      * intros (l & n' & p' & t' & Hl & H1 & H2 & H3).
        exists l, n', p', t'. repeat split; auto. now right.
      * intros (l & n' & p' & t' & [<-|Hl] & H1 & H2 & H3).
        -- rewrite Hp in H1. discriminate.
        -- exists l, n', p', t'. auto.
Qed.

Lemma load_apps_run (ptp : string) (w : world) (s : state event)
    (d1 d2 : N) (rc2 : Z) (out1 err1 out2 err2 : string) :
  behaviour w (length (spawned s))
    (Argv [path_join ptp "adb"; "shell"; "pm"; "list"; "packages"; "-f"])
    = Exits d1 0 out1 err1 ->
  behaviour w (S (length (spawned s)))
    (Argv [path_join ptp "adb"; "shell"; "pm"; "list"; "packages"; "-d"])
    = Exits d2 rc2 out2 err2 ->
  new_events s (snd (load_apps ptp w s)) =
  [ log_message "Fetching installed apps...";
    log_message ("Loaded "
                 +:+ str_of_int (Z.of_nat (length (collect_apps (disabled_set out2)
                                                     (splitlines out1))))
                 +:+ " apps successfully.");
    apps_loaded (collect_apps (disabled_set out2) (splitlines out1)) ].
Proof.
  intros H1 H2. unfold load_apps, _run_adb_command.
  unfold mbind at 1. unfold emit at 1. cbv beta iota.
  unfold try_catch, mbind at 1. unfold run at 1. unfold mbind at 1, spawn at 1.
  cbn [spawned emitted]. rewrite H1. unfold ret at 1. cbv beta iota.
  cbn [returncode stdout stderr]. change (0 =? 0) with true. cbn [negb].
  unfold mbind at 1. unfold run at 1. unfold mbind at 1, spawn at 1.
  cbn [spawned emitted]. rewrite length_app, Nat.add_1_r, H2. unfold ret at 1. cbv beta iota.
  cbn [returncode stdout stderr].
  unfold mbind, emit. cbn [snd emitted spawned]. unfold new_events. cbn [emitted].
  rewrite <- !app_assoc. now rewrite drop_app_length.
Qed.

(** C6, as amended.  [parse_app_info] cuts a line at its last ['='] (a
    line without one is all name): the package name is the text after it
    with the white space around it stripped, and no application is
    returned when that is empty; the type is the first that applies of
    'User App' (path contains '/data/app/'), 'System App' ('/system/app/'
    or '/system/priv-app/'), 'Vendor App' ('/vendor/'), 'Unknown', where the
    path is the text before the last ['='] without 'package:' and stripped.
    Every application [load_apps] lists comes from a line, and is marked
    'Disabled' if a line of [pm list packages -d], without 'package:' and
    stripped, is its name, and 'Enabled' if not. *)
Theorem C6_package_lines :
  (forall line path_part name_part,
     line = path_part +:+ "=" +:+ name_part -> contains "=" name_part = false ->
     parse_app_info line = parsed_app path_part name_part) /\
  (forall line,
     contains "=" line = false -> parse_app_info line = parsed_app EmptyString line) /\
  (forall (output : string) (packages : list string) (a : app),
     In a (collect_apps (disabled_set output) packages) ->
     exists line app_name package_name app_type status,
       a = (app_name, package_name, status, app_type) /\
       In line packages /\
       parse_app_info line = Some (app_name, package_name, app_type) /\
       (status = "Disabled" /\ listed_disabled output package_name \/
        status = "Enabled" /\ ~ listed_disabled output package_name)) /\
  (forall ptp w s d1 d2 rc2 out1 err1 out2 err2,
     behaviour w (length (spawned s))
       (Argv [path_join ptp "adb"; "shell"; "pm"; "list"; "packages"; "-f"])
       = Exits d1 0 out1 err1 ->
     behaviour w (S (length (spawned s)))
       (Argv [path_join ptp "adb"; "shell"; "pm"; "list"; "packages"; "-d"])
       = Exits d2 rc2 out2 err2 ->
     In (apps_loaded (collect_apps (disabled_set out2) (splitlines out1)))
        (new_events s (snd (load_apps ptp w s)))).
Proof.
  split; [exact parse_app_info_cut|]. split; [exact parse_app_info_whole|]. split.
  - intros output packages a Hin.
    apply collect_apps_In in Hin as (line & n & p & t & Hl & Hp & Hn & ->).
    exists line, n, p, t. eexists. split; [reflexivity|]. split; [assumption|].
    split; [assumption|]. case_bool_decide as Hd.
    + left. split; [reflexivity|]. now apply elem_of_disabled_set.
    + right. split; [reflexivity|]. now rewrite <- elem_of_disabled_set.
  - intros. erewrite load_apps_run by eassumption. right. right. now left.
Qed.

(** C6 fails as stated: the text after the last ['='] of the first line is
    ["com.a "], with a space at its end, and the name returned is
    ["com.a"]; the text after the last ['='] of the second is a space, and
    no application is returned. *)
Lemma C6_counterexample :
  rsplit1 "=" "package:/data/app/a.apk=com.a "
    = Some ("package:/data/app/a.apk", "com.a ") /\
  parse_app_info "package:/data/app/a.apk=com.a " = Some ("A", "com.a", "User App") /\
  parse_app_info "package:/data/app/a.apk= " = None.
Proof. repeat split; reflexivity. Qed.

Example parse_app_info_equals_in_path :
  parse_app_info "package:/data/app/~~Zq==/com.b_c-1==/base.apk=com.b_c"
  = Some ("B c", "com.b_c", "User App").
Proof. reflexivity. Qed.

Example load_apps_marks_disabled :
  let w := {| behaviour := fun n _ =>
                match n with
                | O => Exits 1 0 "package:/system/app/X/X.apk=com.x
package:/data/app/y/base.apk=org.y" EmptyString
                | _ => Exits 1 0 "package:org.y" EmptyString
                end;
              cpe_text := fun _ _ => EmptyString;
              path_exists := fun _ _ => true;
              readline_error := all_text |} in
  List.last (emitted (snd (AppManagerWorker_run "pt" w start))) finished = finished /\
  In (apps_loaded [("X", "com.x", "Enabled", "System App");
                   ("Y", "org.y", "Disabled", "User App")])
     (emitted (snd (load_apps "pt" w start))).
Proof. split; [reflexivity|]. simpl. right. right. left. reflexivity. Qed.

End Packages.

(* ===================================================================== *)
(** * Part X.  Presets                                                     *)
(* ===================================================================== *)

Section Presets.
Import Py Proc Os Spec appmanager.











Lemma check_rows_spec (P : gset string) (rows : list model_row) (selected : gset string) :
  check_rows P rows selected =
  (List.map (fun r => if bool_decide (package_name r ∈ P) then set_checked true r else r) rows,
   selected ∪ (P ∩ list_to_set (List.map package_name rows))).
Proof.
  revert selected. induction rows as [|r rows IH]; intros selected; simpl.
  - f_equal. set_solver.
  - case_bool_decide as Hin; rewrite IH; f_equal; set_solver.
Qed.

(** C8.  [create_preset] never reaches the dialog: with nothing selected
    it shows a warning and returns; with a selection it calls
    [apply_dialog_theme], which looks up [ThemeManager.get_dialog_style], an
    attribute the class does not have, and the [AttributeError] leaves the
    slot before a file is written. *)
Theorem C8_create_preset_raises (u : create_inputs) (self : AppManagerUI)
    (files : gmap string json) :
  create_preset u self files =
  if bool_decide (selected_packages self = ∅) then
    Ret (show_box (warning "No Apps Selected" "Please select apps before creating a preset.")
           self,
         files)
  else Raise (AttributeError "type object 'ThemeManager' has no attribute 'get_dialog_style'").
Proof. unfold create_preset. case_bool_decide; reflexivity. Qed.

Definition C8_inputs : create_inputs :=
  {| accepted := true; name_input := "Bloat"; author_input := "me";
     description_input := EmptyString; save_path := "Bloat.json"; open_error := None |}.

Definition C8_row (p : string) : model_row :=
  {| checked := false; app_name := p; package_name := p; status := "Enabled";
     app_type := "User App" |}.

Definition C8_window (selected : gset string) : AppManagerUI :=
  {| selected_packages := selected;
     model := [C8_row "com.a"; C8_row "com.c"];
     log_output := []; boxes := [] |}.

(** Two packages selected, the dialog that would be accepted, a path that
    could be written: [create_preset] raises, and no preset is made. *)
Lemma C8_failing_input :
  create_preset C8_inputs (C8_window {[ "com.b"; "com.a" ]}) ∅ =
  Raise (AttributeError "type object 'ThemeManager' has no attribute 'get_dialog_style'").
Proof.
  unfold create_preset. rewrite bool_decide_eq_false_2; [reflexivity|].
  cbn [selected_packages C8_window]. set_solver.
Qed.

(** With nothing selected [create_preset] shows a warning and writes no
    file. *)
Example create_preset_nothing_selected :
  create_preset C8_inputs (C8_window ∅) ∅ =
  Ret (show_box (warning "No Apps Selected" "Please select apps before creating a preset.")
         (C8_window ∅), ∅).
Proof. reflexivity. Qed.



Example preset_round_trip_example :
  sorted ["org.z"; "com.b"; "com.a"] = ["com.a"; "com.b"; "org.z"] /\
  List.map checked
    (model (_apply_preset "p.json"
              (<["p.json" := preset_data C8_inputs {[ "com.a" ]}]> ∅)
              (C8_window {[ "com.c" ]}))) = [true; false].
Proof. split; vm_compute; reflexivity. Qed.

End Presets.

(* ===================================================================== *)
(** * Part XI.  Partitions                                                *)
(* ===================================================================== *)

Section Partitions.
Import Py Proc Os Spec partitionmanager.

Lemma isdigit_char_not_space (c : ascii) : isdigit_char c = true -> isspace c = false.
Proof.
  destruct c as [[|] [|] [|] [|] [|] [|] [|] [|]]; vm_compute; congruence.
Qed.

Lemma isdigit_char_not_sign (c : ascii) :
  isdigit_char c = true ->
  c <> "+"%char /\ c <> "-"%char /\ Ascii.eqb c "_" = false.
Proof.
  destruct c as [[|] [|] [|] [|] [|] [|] [|] [|]]; vm_compute; intros H;
    repeat split; congruence.
Qed.

Lemma isdecimal_isdigit (c : ascii) : isdecimal_char c = true -> isdigit_char c = true.
Proof. unfold isdigit_char. now intros ->. Qed.

Lemma lstrip_digits (s : string) : all_chars isdigit_char s = true -> lstrip s = s.
Proof.
  destruct s as [|c s]; [reflexivity|]. simpl.
  intros [Hc _]%andb_true_iff. now rewrite (isdigit_char_not_space c Hc).
Qed.

Lemma rstrip_digits (s : string) : all_chars isdigit_char s = true -> rstrip s = s.
Proof.
  induction s as [|c s IH]; [reflexivity|]. simpl.
  intros [Hc Hs]%andb_true_iff. rewrite (IH Hs).
  destruct s; [now rewrite (isdigit_char_not_space c Hc) | reflexivity].
Qed.

Lemma strip_digits (s : string) : all_chars isdigit_char s = true -> strip s = s.
Proof. intros H. unfold strip. rewrite (lstrip_digits s H). now apply rstrip_digits. Qed.

Lemma int_digits_decimal (s : string) (acc : Z) :
  all_chars isdigit_char s = true -> int_digits acc false true s = decimal acc s.
Proof.
  revert acc. induction s as [|c s IH]; intros acc; [reflexivity|]. simpl.
  intros [Hc Hs]%andb_true_iff.
  destruct (isdecimal_char c); [now apply IH|].
  destruct (isdigit_char_not_sign c Hc) as (_ & _ & ->). reflexivity.
Qed.

Lemma int_literal_digits (s : string) :
  isdigit s = true -> int_literal s = decimal_value s.
Proof.
  unfold isdigit, int_literal, decimal_value.
  intros [Hne Hall]%andb_true_iff. rewrite (strip_digits s Hall), Hne.
  destruct s as [|c s]; [discriminate|].
  simpl in Hall. apply andb_true_iff in Hall as [Hc Hs].
  destruct (isdigit_char_not_sign c Hc) as (Hplus & Hminus & Hus).
  assert (Hgo : int_digits 0 false false (String c s) = decimal 0 (String c s)).
  { simpl. destruct (isdecimal_char c); [now apply int_digits_decimal|].
    now rewrite Hus. }
  destruct c as [[|] [|] [|] [|] [|] [|] [|] [|]]; try exact Hgo; congruence.
Qed.

Lemma decimal_digits (s : string) (acc z : Z) :
  decimal acc s = Some z -> all_chars isdigit_char s = true.
Proof.
  revert acc. induction s as [|c s IH]; intros acc; [reflexivity|]. simpl.
  destruct (isdecimal_char c) eqn:Hc; [|discriminate].
  intros H. rewrite (isdecimal_isdigit c Hc). now apply (IH _ H).
Qed.

Lemma decimal_value_not_digits (s : string) : isdigit s = false -> decimal_value s = None.
Proof.
  unfold isdigit, decimal_value. destruct (nonempty s); [|reflexivity]. simpl.
  destruct (decimal 0 s) as [z|] eqn:Hd; [|reflexivity].
  now rewrite (decimal_digits s 0 z Hd).
Qed.

Lemma decimal_digit_count (s : string) (acc z : Z) :
  decimal acc s = Some z -> digit_count s = Z.of_nat (String.length s).
Proof.
  revert acc. induction s as [|c s IH]; intros acc; [reflexivity|].
  cbn [decimal digit_count String.length].
  destruct (isdecimal_char c); [|discriminate].
  intros H. rewrite (IH _ H). lia.
Qed.

(** [int] on a text that [isdigit] accepts: the number it denotes when it
    is all decimal digits and no longer than 4300, an exception otherwise. *)
Lemma to_int_digits (s : string) :
  isdigit s = true ->
  match to_int s with
  | Ret n => (Z.of_nat (String.length s) <=? 4300) = true /\ decimal_value s = Some n
  | Raise _ => (Z.of_nat (String.length s) <=? 4300) = false \/ decimal_value s = None
  end.
Proof.
  intros Hd. pose proof (int_literal_digits s Hd) as Hlit.
  destruct (to_int s) as [n|e] eqn:Hint.
  - apply to_int_parses in Hint as [Hn Hlen]. rewrite Hlit in Hn. split; [|exact Hn].
    unfold decimal_value in Hn. destruct (nonempty s); [|discriminate].
    rewrite (decimal_digit_count s 0 n Hn) in Hlen. now apply Z.leb_le.
  - destruct (Z.of_nat (String.length s) <=? 4300) eqn:Hlen; [|now left]. right.
    destruct (decimal_value s) as [n|] eqn:Hn; [|reflexivity]. exfalso.
    assert (Hp : parses_as s n).
    { split; [now rewrite Hlit|].
      unfold decimal_value in Hn. destruct (nonempty s); [|discriminate].
      rewrite (decimal_digit_count s 0 n Hn). now apply Z.leb_le. }
    apply to_int_parses in Hp. congruence.
Qed.

(** [get_partition_size] starts one process, without a timeout, and returns
    [partition_size] of what the process does, if the process ends. *)
Lemma get_partition_size_spec (ptp name : string) (w : world) (s : state event) :
  terminates (behaviour w (length (spawned s)) (blockdev ptp name)) = true ->
  get_partition_size ptp name w s =
    (Returns (partition_size (behaviour w (length (spawned s)) (blockdev ptp name))),
     {| spawned := spawned s ++ [{| call_cmd := blockdev ptp name; call_timeout := None |}];
        emitted := emitted s |}).
Proof.
  unfold get_partition_size, try_catch. fold (blockdev ptp name).
  unfold mbind at 1. rewrite run_None_spec. unfold partition_size.
  destruct (behaviour w (length (spawned s)) (blockdev ptp name))
    as [d rc out err | out | e]; [|discriminate|reflexivity].
  intros _. cbn [returncode stdout].
  destruct (rc =? 0); [|reflexivity]. cbn [andb].
  destruct (isdigit (strip out)) eqn:Hd.
  - pose proof (to_int_digits _ Hd) as H.
    destruct (to_int (strip out)) as [n|e]; cbn [lift].
    + destruct H as [-> ->]. reflexivity.
    + destruct H as [-> | ->]; [reflexivity|].
      now destruct (Z.of_nat (String.length (strip out)) <=? 4300).
  - rewrite (decimal_value_not_digits _ Hd).
    now destruct (Z.of_nat (String.length (strip out)) <=? 4300).
Qed.

Lemma index_nth (parts : list string) (i : nat) :
  (i < length parts)%nat -> index parts i = Ret (nth i parts EmptyString).
Proof.
  intros Hi. unfold index. rewrite nth_lookup.
  destruct (lookup_lt_is_Some_2 parts i Hi) as [x ->]. reflexivity.
Qed.

Lemma from_end_nth (parts : list string) (k : nat) :
  (k < length parts)%nat ->
  from_end parts k = Ret (nth (length parts - S k) parts EmptyString).
Proof.
  intros Hk. unfold from_end, item_from_end.
  destruct (decide (k < length parts)%nat); [|contradiction].
  rewrite nth_lookup.
  destruct (lookup_lt_is_Some_2 parts (length parts - S k)) as [x ->]; [lia|reflexivity].
Qed.

(** The events of a run that are not [partitions_loaded]. *)
Definition no_list (evs : list event) : Prop := omap loaded evs = [].

(** One turn of the loop. *)
Lemma load_line_spec (ptp : string) (current total : nat) (line : string)
    (w : world) (s : state event) :
  (forall n c, terminates (behaviour w n c) = true) ->
  exists s' evs,
    load_line ptp current total line w s =
      (Returns (if is_partition_line line
                then partition_entry
                       (behaviour w (length (spawned s)) (blockdev ptp (partition_name line)))
                       line
                else None), s') /\
    length (spawned s') =
      (if is_partition_line line then S (length (spawned s)) else length (spawned s)) /\
    emitted s' = emitted s ++ evs /\ no_list evs.
Proof.
  intros Hterm. unfold load_line, is_partition_line, partition_name.
  set (parts := fields line).
  destruct (decide (9 <= length parts)%nat) as [Hlen|Hlen].
  2: { rewrite bool_decide_eq_false_2 by assumption.
       exists s, []. rewrite app_nil_r. repeat split. }
  rewrite bool_decide_eq_true_2 by assumption. cbn [andb].
  unfold try_catch.
  rewrite (mbind_Returns _ _ w s s (nth 0 parts EmptyString))
    by (rewrite index_nth by lia; reflexivity).
  rewrite (mbind_Returns _ _ w s s (nth (length parts - 3) parts EmptyString))
    by (rewrite from_end_nth by lia; reflexivity).
  rewrite (mbind_Returns _ _ w s s (nth (length parts - 1) parts EmptyString))
    by (rewrite from_end_nth by lia; reflexivity).
  destruct (contains "lrwxrwxrwx" (nth 0 parts EmptyString));
    [|exists s, []; rewrite app_nil_r; repeat split].
  destruct (contains "->" line);
    [|exists s, []; rewrite app_nil_r; repeat split].
  cbn [negb orb andb].
  set (pname := nth (length parts - 3) parts EmptyString).
  unfold mbind at 1. unfold emit at 1. cbv beta iota.
  unfold mbind at 1. unfold emit at 1. cbv beta iota. cbn [spawned emitted].
  unfold mbind at 1. rewrite get_partition_size_spec by apply Hterm.
  cbn [spawned emitted]. unfold partition_entry, partition_name. fold parts. fold pname.
  set (size := partition_size _).
  unfold mbind.
  destruct (human_readable_size size) as [human|e]; cbn [lift]; unfold ret, raise, emit;
    cbv beta iota; cbn [spawned emitted].
  - eexists. exists [progress_update (current + 1) total;
                     log_message ("Getting size for partition: " +:+ pname)].
    split; [reflexivity|]. cbn [spawned emitted].
    rewrite length_app, Nat.add_1_r, <- app_assoc. repeat split.
  - eexists. exists [progress_update (current + 1) total;
                     log_message ("Getting size for partition: " +:+ pname);
                     log_message ("Error processing partition: " +:+ exn_text e)].
    split; [reflexivity|]. cbn [spawned emitted].
    rewrite length_app, Nat.add_1_r, <- !app_assoc. repeat split.
Qed.

Lemma no_list_app (a b : list event) : no_list a -> no_list b -> no_list (a ++ b).
Proof. unfold no_list. intros Ha Hb. now rewrite omap_app, Ha, Hb. Qed.

(** The loop over the lines. *)
Lemma load_lines_spec (ptp : string) (w : world) (lines : list string) :
  (forall n c, terminates (behaviour w n c) = true) ->
  forall (current total : nat) (s : state event),
  exists s' evs,
    load_lines ptp current total lines w s =
      (Returns (partition_entries ptp w (length (spawned s)) lines), s') /\
    emitted s' = emitted s ++ evs /\ no_list evs.
Proof.
  intros Hterm. induction lines as [|line rest IH]; intros current total s.
  - exists s, []. rewrite app_nil_r. repeat split.
  - cbn [load_lines partition_entries].
    destruct (load_line_spec ptp current total line w s Hterm)
      as (s1 & evs1 & Hrun1 & Hlen1 & Hem1 & Hq1).
    destruct (IH (S current) total s1) as (s2 & evs2 & Hrun2 & Hem2 & Hq2).
    exists s2, (evs1 ++ evs2).
    rewrite (mbind_Returns _ _ _ _ _ _ Hrun1), (mbind_Returns _ _ _ _ _ _ Hrun2).
    rewrite Hem2, Hem1, <- app_assoc. split; [|split; [reflexivity|now apply no_list_app]].
    unfold ret. rewrite Hlen1.
    destruct (is_partition_line line); [|reflexivity].
    destruct (partition_entry _ line); reflexivity.
Qed.

Lemma partition_entries_In (ptp : string) (w : world) (lines : list string) (n : nat)
    (entry : partition_info) :
  In entry (partition_entries ptp w n lines) ->
  exists line p,
    In line lines /\ is_partition_line line = true /\ partition_entry p line = Some entry.
Proof.
  revert n. induction lines as [|line rest IH]; intros n; [contradiction|].
  cbn [partition_entries].
  destruct (is_partition_line line) eqn:Hline.
  - destruct (partition_entry _ line) as [e|] eqn:He.
    + intros [<-|Hin].
      * exists line. eexists. split; [now left|]. split; [assumption|exact He].
      * destruct (IH _ Hin) as (l & p & Hl & Hp & Hentry).
        exists l, p. split; [now right|]. now split.
    + intros Hin. destruct (IH _ Hin) as (l & p & Hl & Hp & Hentry).
      exists l, p. split; [now right|]. now split.
  - intros Hin. destruct (IH _ Hin) as (l & p & Hl & Hp & Hentry).
    exists l, p. split; [now right|]. now split.
Qed.

(** C5, as amended.  When [ls -l /dev/block/by-name] returns code 0 and
    prints more than one line, and every process started ends,
    [PartitionLoadWorker.run] returns and emits [partitions_loaded] once.
    The list it carries has, in the order of the lines after the first, one
    entry for each line with at least 9 fields whose first field contains
    'lrwxrwxrwx' and which contains '->', provided the size of the
    partition can be formatted; a line whose size cannot be formatted
    gives no entry.  The name of an entry is the third field from the end,
    its path the last field; its size is the number
    [blockdev --getsize64] prints, or 0 when that command cannot be
    started, returns another code than 0, or prints a text that, stripped,
    is not all decimal digits or is longer than the 4300 digits [int]
    converts. *)
Theorem C5_partition_entries (ptp : string) (w : world) (s : state event)
    (d : N) (out err : string) :
  behaviour w (length (spawned s)) (Argv [adb ptp; "shell"; "ls -l /dev/block/by-name"])
    = Exits d 0 out err ->
  (1 < length (splitlines out))%nat ->
  (forall n c, terminates (behaviour w n c) = true) ->
  fst (PartitionLoadWorker_run ptp w s) = Returns tt /\
  omap loaded (new_events s (snd (PartitionLoadWorker_run ptp w s))) =
    [partition_entries ptp w (S (length (spawned s))) (List.tl (splitlines out))] /\
  (forall n lines entry,
     In entry (partition_entries ptp w n lines) ->
     exists line p,
       In line lines /\ is_partition_line line = true /\
       partition_entry p line = Some entry /\
       name entry = nth (length (fields line) - 3) (fields line) EmptyString /\
       path entry = nth (length (fields line) - 1) (fields line) EmptyString /\
       size_bytes entry = partition_size p /\
       human_readable_size (size_bytes entry) = Ret (size_human entry)) /\
  (forall seconds rc printed errors,
     partition_size (Exits seconds rc printed errors) =
       if (rc =? 0) && (Z.of_nat (String.length (strip printed)) <=? 4300)
       then default 0 (decimal_value (strip printed)) else 0) /\
  (forall e, partition_size (CannotStart e) = 0).
Proof.
  intros Hls Hlines Hterm.
  assert (Hrun : exists s' evs,
     PartitionLoadWorker_run ptp w s = (Returns tt, s') /\
     emitted s' = emitted s ++ evs /\
     omap loaded evs =
       [partition_entries ptp w (S (length (spawned s))) (List.tl (splitlines out))]).
  { unfold PartitionLoadWorker_run, try_catch.
    unfold mbind at 1. unfold emit at 1. cbv beta iota.
    unfold mbind at 1. rewrite run_None_spec. cbn [spawned emitted]. rewrite Hls.
    cbn [returncode stdout stderr]. change (0 =? 0) with true. cbn [negb].
    destruct (decide (length (splitlines out) <= 1)%nat) as [Hle|_]; [lia|].
    set (s1 := {| spawned := _; emitted := _ |}).
    destruct (load_lines_spec ptp w (List.tl (splitlines out)) Hterm 0%nat
                (length (List.tl (splitlines out))) s1)
      as (s2 & evs & Hload & Hem & Hq).
    rewrite (mbind_Returns _ _ _ _ _ _ Hload).
    unfold mbind, emit. cbv beta iota. cbn [spawned emitted snd].
    eexists. eexists. split; [reflexivity|]. cbn [emitted]. split.
    - rewrite Hem. subst s1. cbn [emitted]. rewrite <- !app_assoc. reflexivity.
    - rewrite !omap_app. unfold no_list in Hq. rewrite Hq.
      subst s1. cbn [spawned]. rewrite length_app, Nat.add_1_r. reflexivity. }
  destruct Hrun as (s' & evs & Hrun & Hem & Hloaded).
  rewrite Hrun. cbn [fst snd].
  split; [reflexivity|]. split.
  { unfold new_events. rewrite Hem. now rewrite drop_app_length. }
  split; [|split; [reflexivity|reflexivity]].
  intros n lines entry Hin.
  destruct (partition_entries_In ptp w lines n entry Hin) as (line & p & Hl & Hp & He).
  exists line, p. split; [assumption|]. split; [assumption|]. split; [assumption|].
  unfold partition_entry in He.
  destruct (human_readable_size (partition_size p)) as [human|] eqn:Hh; [|discriminate].
  injection He as <-. cbn [name path size_bytes size_human]. now rewrite Hh.
Qed.

Definition C5_line : string :=
  "lrwxrwxrwx 1 root root 21 1970-01-01 00:00 boot -> /dev/block/sda1".

Definition C5_listing : string := "total 0" +:+ newline +:+ C5_line +:+ newline.

(** A device with one partition, for which [blockdev] prints [size]. *)
Definition C5_world (size : string) : world :=
  {| behaviour := fun n _ =>
       match n with
       | O => Exits 0 0 C5_listing EmptyString
       | _ => Exits 0 0 (size +:+ newline) EmptyString
       end;
     cpe_text := fun _ _ => EmptyString;
     path_exists := fun _ _ => false;
     readline_error := all_text |}.

Lemma C5_witness :
  omap loaded
    (new_events start (snd (PartitionLoadWorker_run "pt" (C5_world "67108864") start))) =
  [partition_entries "pt" (C5_world "67108864") 1 (List.tl (splitlines C5_listing))].
Proof.
  refine (proj1 (proj2
    (C5_partition_entries "pt" (C5_world "67108864") start 0 C5_listing EmptyString
       eq_refl _ _))).
  - vm_compute. lia.
  - intros [|n] c; reflexivity.
Defined.

(** C5 fails as stated: the line describes a partition, but the size
    [blockdev] prints, 1 followed by 400 zeros, is too large to divide into
    a [float]; [human_readable_size] raises, the entry is dropped and the
    list loaded is empty. *)
Lemma C5_counterexample :
  is_partition_line C5_line = true /\
  partition_size (Exits 0 0 ("1" +:+ zeros 400 +:+ newline) EmptyString) = 10 ^ 400 /\
  human_readable_size (10 ^ 400) =
    Raise (OverflowError "integer division result too large for a float") /\
  emitted (snd (PartitionLoadWorker_run "pt" (C5_world ("1" +:+ zeros 400)) start)) =
    [ log_message "Loading partitions from device...";
      progress_update 1 1;
      log_message "Getting size for partition: boot";
      log_message
        "Error processing partition: integer division result too large for a float";
      partitions_loaded [];
      log_message "Loaded 0 partitions from device";
      finished_loading ].
Proof. repeat split; vm_compute; reflexivity. Qed.

Example PartitionLoadWorker_run_one_partition :
  emitted (snd (PartitionLoadWorker_run "pt" (C5_world "67108864") start)) =
    [ log_message "Loading partitions from device...";
      progress_update 1 1;
      log_message "Getting size for partition: boot";
      partitions_loaded
        [ {| name := "boot"; path := "/dev/block/sda1"; permissions := "lrwxrwxrwx";
             size_bytes := 67108864; size_human := "64.00 MB" |} ];
      log_message "Loaded 1 partitions from device";
      finished_loading ] /\
  partition_size (Exits 0 1 "67108864" EmptyString) = 0 /\
  partition_size (Exits 0 0 "64M" EmptyString) = 0.
Proof. repeat split; vm_compute; reflexivity. Qed.

(** A size of 4301 digits is more than [int] converts: the [ValueError] is
    caught in [get_partition_size], and the partition is listed with size 0. *)
Example PartitionLoadWorker_run_long_size :
  get_partition_size "pt" "boot" (C5_world ("1" +:+ zeros 4300))
    {| spawned := [{| call_cmd := Shell "ls"; call_timeout := None |}]; emitted := [] |} =
    (Returns 0,
     {| spawned := [{| call_cmd := Shell "ls"; call_timeout := None |};
                    {| call_cmd := blockdev "pt" "boot"; call_timeout := None |}];
        emitted := [] |}) /\
  omap loaded (emitted (snd (PartitionLoadWorker_run "pt" (C5_world ("1" +:+ zeros 4300))
                               start))) =
    [[ {| name := "boot"; path := "/dev/block/sda1"; permissions := "lrwxrwxrwx";
          size_bytes := 0; size_human := "0 B" |} ]].
Proof. split; vm_compute; reflexivity. Qed.

End Partitions.

(* ===================================================================== *)
(** * Part XII.  The directory listing                                    *)
(* ===================================================================== *)

Section Listing.
Import Py Proc Os Spec fileexplorer.

(** *** Cutting at the first arrow *)

Lemma split_go_no_split_left (sep s : string) : split_go sep (Some O) O s = [s].
Proof.
  induction s as [|c s IH]; [reflexivity|].
  cbn [split_go]. rewrite bool_decide_eq_true_2 by reflexivity.
  rewrite andb_false_r, IH. reflexivity.
Qed.

Lemma prefix_nil (s : string) : String.prefix EmptyString s = true.
Proof. now destruct s. Qed.

Lemma prefix_arrow (c : ascii) (s : string) :
  String.prefix "->" (String c s) = Ascii.eqb c "-" && String.prefix ">" s.
Proof.
  cbn [String.prefix]. destruct (ascii_dec "-" c) as [<-|Hne].
  - reflexivity.
  - symmetry. apply andb_false_iff. left. apply Ascii.eqb_neq. congruence.
Qed.

Lemma prefix_gt_after_dash (b x y : string) :
  String.prefix ">" (b +:+ String "-" x) = String.prefix ">" (b +:+ String "-" y).
Proof.
  destruct b as [|d b]; [reflexivity|].
  change (String d b +:+ String "-" x) with (String d (b +:+ String "-" x)).
  change (String d b +:+ String "-" y) with (String d (b +:+ String "-" y)).
  cbn [String.prefix]. destruct (ascii_dec ">" d); [|reflexivity].
  now rewrite !prefix_nil.
Qed.

Lemma split_first_arrow (before after : string) :
  contains "->" (before +:+ "-") = false ->
  split_max "->" 1 (before +:+ "->" +:+ after) = [before; after].
Proof.
  unfold split_max. induction before as [|c b IH].
  - intros _. change (EmptyString +:+ "->" +:+ after) with (String "-" (String ">" after)).
    cbn [split_go]. rewrite prefix_arrow. cbn.
    rewrite prefix_nil, bool_decide_eq_false_2 by discriminate.
    cbn [andb negb]. now rewrite split_go_no_split_left.
  - change (String c b +:+ "-") with (String c (b +:+ String "-" EmptyString)).
    change (String c b +:+ "->" +:+ after) with (String c (b +:+ String "-" (String ">" after))).
    cbn [contains]. intros [Hp Hc]%orb_false_elim.
    cbn [split_go]. rewrite prefix_arrow in Hp |- *.
    rewrite (prefix_gt_after_dash b _ EmptyString), Hp. cbn [andb].
    change (b +:+ String "-" (String ">" after)) with (b +:+ "->" +:+ after).
    now rewrite (IH Hc).
Qed.

Lemma split_symlink_first_arrow (s before after : string) :
  first_arrow s before after -> split_symlink s = (strip before, strip after).
Proof. intros [-> H]. unfold split_symlink. now rewrite split_first_arrow. Qed.

Lemma contains_first_arrow (s : string) :
  contains "->" s = true -> exists before after, first_arrow s before after.
Proof.
  induction s as [|c s IH]; [discriminate|].
  cbn [contains]. destruct (String.prefix "->" (String c s)) eqn:Hp.
  - intros _. rewrite prefix_arrow in Hp. apply andb_true_iff in Hp as [Hc Hs].
    apply Ascii.eqb_eq in Hc as ->.
    apply (prefix_char ">" s) in Hs as [after ->].
    exists EmptyString, after. split; reflexivity.
  - cbn [orb]. intros Hc. destruct (IH Hc) as (b & a & -> & Hb).
    exists (String c b), a. split; [reflexivity|].
    change (String c b +:+ "-") with (String c (b +:+ String "-" EmptyString)).
    cbn [contains]. rewrite Hb, orb_false_r.
    rewrite prefix_arrow in Hp |- *.
    now rewrite (prefix_gt_after_dash b _ (String ">" a)).
Qed.

(** *** The type of a file is never 'Folder' *)

Lemma all_chars_app (p : ascii -> bool) (a b : string) :
  all_chars p (a +:+ b) = all_chars p a && all_chars p b.
Proof.
  induction a as [|c a IH]; [reflexivity|].
  change (String c a +:+ b) with (String c (a +:+ b)).
  cbn [all_chars]. now rewrite IH, andb_assoc.
Qed.

Definition not_small (c : ascii) : bool := negb (between 97 122 c).

Lemma upper_char_not_small (c : ascii) : all_chars not_small (upper_char c) = true.
Proof. destruct c as [[|] [|] [|] [|] [|] [|] [|] [|]]; reflexivity. Qed.

Lemma upper_not_small (s : string) : all_chars not_small (upper s) = true.
Proof.
  induction s as [|c s IH]; [reflexivity|].
  cbn [upper]. now rewrite all_chars_app, upper_char_not_small, IH.
Qed.

Lemma detect_type_not_Folder (name : string) : detect_type name <> "Folder".
Proof.
  unfold detect_type. destruct (contains "." name); [|discriminate].
  intros H. pose proof (upper_not_small (List.last (split "." name) EmptyString)) as Hu.
  rewrite H in Hu. discriminate.
Qed.

Lemma bool_decide_string (a b : string) : bool_decide (a = b) = String.eqb a b.
Proof.
  destruct (String.eqb_spec a b) as [->|Hne].
  - now apply bool_decide_eq_true_2.
  - now apply bool_decide_eq_false_2.
Qed.

(** *** One line *)

Ltac skip_cases line :=
  destruct (negb (nonempty (strip line))); [now intros|];
  destruct (startswith line "total"); [now intros|];
  destruct (contains "Permission denied" line); [now intros|];
  destruct (startswith line "ls:"); [now intros|];
  destruct (startswith line "cannot access"); [now intros|];
  cbn [orb negb andb].

Lemma listing_row_not_listed (line : string) :
  listed line = false -> listing_row line = Ret None.
Proof.
  unfold listed, skipped, listing_fields, listing_row. skip_cases line.
  destruct (fields_max 7 line)
    as [|perms [|f1 [|f2 [|f3 [|size [|date1 [|date2 [|name_part rest]]]]]]]];
    try reflexivity.
  unfold entry_name.
  destruct (contains "->" name_part).
  - destruct (split_symlink name_part) as [n t]. cbn [fst]. rewrite !bool_decide_string.
    destruct (nonempty n), (String.eqb n "."), (String.eqb n ".."); now intros.
  - rewrite !bool_decide_string.
    destruct (nonempty name_part), (String.eqb name_part "."), (String.eqb name_part "..");
      now intros.
Qed.

Lemma listing_row_listed (line : string) :
  listed line = true -> size_formats line = true ->
  exists r, listing_row line = Ret (Some r) /\ describes line r.
Proof.
  unfold listed, size_formats, skipped, listing_row, describes, listing_fields.
  skip_cases line.
  destruct (fields_max 7 line)
    as [|perms [|f1 [|f2 [|f3 [|size [|date1 [|date2 [|name_part rest]]]]]]]];
    try discriminate.
  unfold entry_name, entry_target, folder_permissions.
  assert (Hnamed : forall n,
            nonempty n && negb (String.eqb n ".") && negb (String.eqb n "..") = true ->
            negb (nonempty n) || bool_decide (n = ".") || bool_decide (n = "..") = false).
  { intros n. rewrite !bool_decide_string.
    destruct (nonempty n), (String.eqb n "."), (String.eqb n ".."); now intros. }
  destruct (startswith perms "d" || startswith perms "l") eqn:Hfolder.
  - intros Hname _. destruct (contains "->" name_part) eqn:Harrow.
    + destruct (split_symlink name_part) as [n t] eqn:Hsplit. cbn [fst snd] in *.
      rewrite (Hnamed n Hname). cbn [bind]. eexists. split; [reflexivity|].
      exists perms, size, date1, date2, name_part. cbn [name symlink_info is_folder
        file_type size_str date_str size_int]. rewrite Hfolder, Harrow, Hsplit.
      repeat split; congruence.
    + rewrite (Hnamed name_part Hname). cbn [bind]. eexists. split; [reflexivity|].
      exists perms, size, date1, date2, name_part. cbn [name symlink_info is_folder
        file_type size_str date_str size_int]. rewrite Hfolder, Harrow.
      repeat split; congruence.
  - cbn [orb]. intros Hname Hsize.
    destruct (format_size_safe size) as [shown_size|e] eqn:Hfs; [|discriminate].
    destruct (contains "->" name_part) eqn:Harrow.
    + destruct (split_symlink name_part) as [n t] eqn:Hsplit. cbn [fst snd] in *.
      rewrite (Hnamed n Hname). cbn [bind]. eexists. split; [reflexivity|].
      exists perms, size, date1, date2, name_part. cbn [name symlink_info is_folder
        file_type size_str date_str size_int]. rewrite Hfolder, Harrow, Hsplit.
      repeat split; try congruence.
      intros H. now apply detect_type_not_Folder in H.
    + rewrite (Hnamed name_part Hname). cbn [bind]. eexists. split; [reflexivity|].
      exists perms, size, date1, date2, name_part. cbn [name symlink_info is_folder
        file_type size_str date_str size_int]. rewrite Hfolder, Harrow.
      repeat split; try congruence.
      intros H. now apply detect_type_not_Folder in H.
Qed.

(** *** All the lines *)

Lemma listing_rows_spec (lines : list string) :
  sizes_format lines = true ->
  exists rows,
    listing_rows lines = Ret rows /\ Forall2 describes (List.filter listed lines) rows.
Proof.
  unfold sizes_format. induction lines as [|line rest IH]; cbn [forallb].
  - intros _. exists []. split; [reflexivity|constructor].
  - intros [Hline Hrest]%andb_true_iff. destruct (IH Hrest) as (rows & Hrows & Hall).
    cbn [listing_rows List.filter]. destruct (listed line) eqn:Hl.
    + destruct (listing_row_listed line Hl Hline) as (r & Hr & Hd).
      exists (r :: rows). rewrite Hr, Hrows. split; [reflexivity|now constructor].
    + exists rows. rewrite (listing_row_not_listed line Hl), Hrows. now split.
Qed.

Lemma insert_row_Permutation (r : row) (rows : list row) :
  Permutation (insert_row r rows) (r :: rows).
Proof.
  induction rows as [|x rows IH]; cbn [insert_row]; [reflexivity|].
  destruct (key_lt (sort_key x) (sort_key r)); [|reflexivity].
  rewrite IH. apply perm_swap.
Qed.

Lemma sort_rows_Permutation (rows : list row) : Permutation (sort_rows rows) rows.
Proof.
  unfold sort_rows. induction rows as [|r rows IH]; cbn [foldr]; [reflexivity|].
  rewrite insert_row_Permutation. now constructor.
Qed.

Lemma populate_table (rows : list row) (self : explorer) :
  table (populate rows self) = table self ++ List.map cells rows /\
  current_path (populate rows self) = current_path self /\
  sort_indicator (populate rows self) = sort_indicator self /\
  sort_combo (populate rows self) = sort_combo self.
Proof.
  revert self. induction rows as [|r rows IH]; intros self; cbn [populate List.map].
  - now rewrite app_nil_r.
  - match goal with
    | |- context [populate rows ?s1] => destruct (IH s1) as (Ht & Hp & Hi & Hc)
    end.
    rewrite Ht, Hp, Hi, Hc. cbn [table current_path sort_indicator sort_combo].
    now rewrite <- app_assoc.
Qed.

Lemma insert_item_Permutation (before : string -> string -> bool) (column : nat)
    (r : string * string * string * string) (l : list (string * string * string * string)) :
  Permutation (insert_item before column r l) (r :: l).
Proof.
  induction l as [|x l IH]; cbn [insert_item]; [reflexivity|].
  destruct (item_text column x), (item_text column r); try reflexivity.
  destruct (before _ _); [|reflexivity].
  rewrite IH. apply perm_swap.
Qed.

Lemma filter_split_Permutation {A} (f : A -> bool) (l : list A) :
  Permutation (List.filter f l ++ List.filter (fun x => negb (f x)) l) l.
Proof.
  induction l as [|x l IH]; cbn [List.filter]; [reflexivity|].
  destruct (f x); cbn [negb app].
  - now constructor.
  - rewrite <- Permutation_middle. now constructor.
Qed.

(** The toolkit's sort moves rows; it neither adds nor drops one. *)
Lemma sort_items_Permutation (lessThan : string -> string -> bool) (column : nat)
    (descending : bool) (t : list (string * string * string * string)) :
  Permutation (sort_items lessThan column descending t) t.
Proof.
  unfold sort_items.
  rewrite <- (filter_split_Permutation
                (fun r => bool_decide (is_Some (item_text column r))) t) at 3.
  apply Permutation_app_tail.
  induction (List.filter _ t) as [|x l IH]; cbn [foldr]; [reflexivity|].
  rewrite insert_item_Permutation. now constructor.
Qed.

(** The table as the toolkit leaves it: sorted as the header's indicator
    says when sorting is enabled again, then by the column of the sort box,
    ascending. *)
Definition sorted_table (lessThan : string -> string -> bool) (self : explorer)
    (t : list (string * string * string * string))
  : list (string * string * string * string) :=
  sort_items lessThan (sort_combo self) false
    (sort_items lessThan (fst (sort_indicator self)) (snd (sort_indicator self)) t).

(** C1, as amended.  Unless the listing failed with no output, and provided
    the sizes of the files listed can be shown, [process_directory_listing]
    returns, and the table holds the row ['..'] for the parent directory
    (when the current path is not a root) and exactly one row for each line
    that is not skipped (blank, starting with 'total', containing
    'Permission denied', starting with 'ls:' or 'cannot access'), splits
    into at least 8 fields with [maxsplit=7], and whose entry has a name
    that is not empty, ['.'] or ['..'].  The rows are inserted folders
    first and then by name, and the toolkit then sorts them twice: as the
    indicator of the header says, and by the column of the sort box,
    ascending; so the table is a rearrangement of those rows.  The row of a
    line is a folder, of type 'Folder', iff its permission field starts
    with 'd' or 'l'; a name field that contains '->' is cut at the first
    '->' into name and symlink target, both stripped.  Every other line
    gives no row. *)
Theorem C1_process_directory_listing_rows (lessThan : string -> string -> bool)
    (self : explorer) (output : string) (error : bool) :
  error && negb (nonempty (strip output)) = false ->
  sizes_format (splitlines output) = true ->
  (exists self' rows,
     process_directory_listing lessThan self output error = Ret self' /\
     Forall2 describes (List.filter listed (splitlines output)) rows /\
     table self' =
       sorted_table lessThan self
         (parent_rows (current_path self) ++ List.map cells (sort_rows rows)) /\
     Permutation (table self') (parent_rows (current_path self) ++ List.map cells rows) /\
     length (table self') =
       (length (parent_rows (current_path self))
        + length (List.filter listed (splitlines output)))%nat /\
     sort_indicator self' = (sort_combo self, false)) /\
  (forall line, listed line = false -> listing_row line = Ret None) /\
  (forall s before after,
     first_arrow s before after -> split_symlink s = (strip before, strip after)) /\
  (forall s, contains "->" s = true -> exists before after, first_arrow s before after).
Proof.
  intros Hearly Hsizes.
  split; [|split; [exact listing_row_not_listed|
                   split; [exact split_symlink_first_arrow|exact contains_first_arrow]]].
  destruct (listing_rows_spec _ Hsizes) as (rows & Hrows & Hall).
  assert (Htable : exists self',
            process_directory_listing lessThan self output error = Ret self' /\
            table self' =
              sorted_table lessThan self
                (parent_rows (current_path self) ++ List.map cells (sort_rows rows)) /\
            sort_indicator self' = (sort_combo self, false)).
  { unfold process_directory_listing. rewrite Hearly, Hrows. cbv zeta. cbn [bind].
    eexists. split; [reflexivity|].
    unfold sort_table, setSortingEnabled_True, sortByColumn, sorted_table.
    cbn [show table sort_indicator sort_combo].
    match goal with
    | |- context [populate (sort_rows rows) ?s1] =>
        destruct (populate_table (sort_rows rows) s1) as (Ht & _ & Hi & Hc)
    end.
    rewrite Ht, Hi, Hc. unfold parent_rows. rewrite bool_decide_string.
    destruct (error && nonempty (strip output));
      cbn [set_table show current_path table sort_indicator sort_combo];
      destruct (negb (String.eqb (current_path self) "/")
                && negb (endswith (current_path self) ":/"));
      cbn [set_table show current_path table sort_indicator sort_combo];
      split; reflexivity. }
  destruct Htable as (self' & Hrun & Htable & Hind).
  assert (Hperm : Permutation (table self')
                    (parent_rows (current_path self) ++ List.map cells rows)).
  { rewrite Htable. unfold sorted_table. rewrite !sort_items_Permutation.
    apply Permutation_app_head, Permutation_map, sort_rows_Permutation. }
  exists self', rows. split; [assumption|]. split; [assumption|].
  split; [assumption|]. split; [assumption|]. split; [|assumption].
  rewrite (Permutation_length Hperm), length_app, length_map.
  now rewrite (Forall2_length _ _ _ Hall).
Qed.

Definition listing_output : string :=
  "total 8" +:+ newline
  +:+ "-rw-r--r-- 1 root root 1536 2024-01-01 10:00 notes.txt" +:+ newline
  +:+ "lrwxrwxrwx 1 root root 21 2024-01-01 10:00 sdcard -> /storage/self/primary" +:+ newline
  +:+ "drwxr-xr-x 2 root root 4096 2024-01-01 10:00 Download" +:+ newline
  +:+ "drwxr-xr-x 2 root root 4096 2024-01-01 10:00 ." +:+ newline.

(** A window whose table was last sorted by name, ascending. *)
Definition listing_explorer : explorer :=
  {| current_path := "/storage/emulated/0"; table := [("old", "File", "-", "-")];
     symlink_targets := ∅; shown := []; sort_indicator := (0%nat, false);
     sort_combo := 0%nat |}.

Lemma C1_witness :
  exists self' rows,
    process_directory_listing String.ltb listing_explorer listing_output false = Ret self' /\
    Forall2 describes (List.filter listed (splitlines listing_output)) rows /\
    table self' =
      sorted_table String.ltb listing_explorer
        (parent_rows (current_path listing_explorer) ++ List.map cells (sort_rows rows)) /\
    Permutation (table self')
      (parent_rows (current_path listing_explorer) ++ List.map cells rows) /\
    length (table self') =
      (length (parent_rows (current_path listing_explorer))
       + length (List.filter listed (splitlines listing_output)))%nat /\
    sort_indicator self' = (sort_combo listing_explorer, false).
Proof.
  refine (proj1 (C1_process_directory_listing_rows String.ltb listing_explorer
                   listing_output false eq_refl _)).
  vm_compute. reflexivity.
Defined.

(** The rows are inserted folders first; sorted by name in the order of the
    code points, the table shows the file between the two folders, and the
    target of the link, recorded for the row it was inserted at, is now
    with the row of the file. *)
Example process_directory_listing_table :
  ((fun self' => (table self', symlink_targets self')) <$>
   match process_directory_listing String.ltb listing_explorer listing_output false with
   | Ret self' => Some self'
   | Raise _ => None
   end) =
  Some ([ ("..", "Folder", "-", "-");
          ("Download", "Folder", "-", "2024-01-01 10:00");
          ("notes.txt", "TXT", "1.5 KB", "2024-01-01 10:00");
          ("sdcard", "Folder", "-", "2024-01-01 10:00") ],
        {[ 2%nat := "/storage/self/primary" ]}).
Proof. vm_compute. reflexivity. Qed.

(** A file named ['->'] is listed by [ls] on a line of 8 fields, and gets no
    row: its name part is cut at the arrow, which leaves an empty name. *)
Example listing_row_arrow_name :
  length (fields_max 7 "-rw-r--r-- 1 root root 0 2024-01-01 10:00 ->") = 8%nat /\
  skipped "-rw-r--r-- 1 root root 0 2024-01-01 10:00 ->" = false /\
  listing_row "-rw-r--r-- 1 root root 0 2024-01-01 10:00 ->" = Ret None.
Proof. repeat split; vm_compute; reflexivity. Qed.

Definition C1_line : string := "-rw-r--r-- 1 root root 0 2024-01-01 10:00 ->".

(** C1 fails as stated: the line of a file named ['->'] splits into 8
    fields, is not one of the lines passed over, and its entry is not named
    ['.'] or ['..'], yet it gets no row (its name part is cut at the arrow,
    which leaves an empty name); and the table of a directory that is not a
    root has a row, ['..'], that no line gave. *)
Lemma C1_counterexample :
  length (fields_max 7 C1_line) = 8%nat /\
  skipped C1_line = false /\
  (table <$> match process_directory_listing String.ltb listing_explorer C1_line false with
             | Ret self' => Some self'
             | Raise _ => None
             end) = Some [("..", "Folder", "-", "-")].
Proof. repeat split; vm_compute; reflexivity. Qed.

(** A size too large for a [float] is not caught by [format_size_safe]: the
    listing raises. *)
Example process_directory_listing_huge_size :
  process_directory_listing String.ltb listing_explorer
    ("-rw-r--r-- 1 root root 1" +:+ zeros 400 +:+ " 2024-01-01 10:00 big") false =
  Raise (OverflowError "integer division result too large for a float").
Proof. vm_compute. reflexivity. Qed.

End Listing.

(* ===================================================================== *)
(** * Part XIII.  The order of the rows                                   *)
(* ===================================================================== *)

Section RowOrder.
Import Py Proc Os Spec fileexplorer.

(** [b] may follow [a]: the name of [b], in lower case, is not before the
    name of [a]. *)
Definition name_le (a b : row) : Prop :=
  String.ltb (lower (name b)) (lower (name a)) = false.

(** [b] may follow [a] in the order of the keys. *)
Definition key_le (a b : row) : Prop := key_lt (sort_key b) (sort_key a) = false.

Definition is_file (r : row) : bool := negb (is_folder r).

Lemma string_ltb_asym (a b : string) : String.ltb a b = true -> String.ltb b a = false.
Proof.
  unfold String.ltb. rewrite (String.compare_antisym a b).
  destruct (String.compare b a); simpl; congruence.
Qed.

Lemma key_lt_asym (a b : bool * string) : key_lt a b = true -> key_lt b a = false.
Proof.
  unfold key_lt. destruct a as [fa na], b as [fb nb]. cbn [fst snd].
  destruct fa, fb; cbn; try congruence; apply string_ltb_asym.
Qed.

Lemma insert_row_HdRel (r a : row) (l : list row) :
  key_le a r -> HdRel key_le a l -> HdRel key_le a (insert_row r l).
Proof.
  intros Har Hl. destruct l as [|x l]; cbn [insert_row]; [now constructor|].
  destruct (key_lt (sort_key x) (sort_key r)); constructor;
    [now inversion Hl | assumption].
Qed.

Lemma insert_row_Sorted (r : row) (l : list row) :
  Sorted key_le l -> Sorted key_le (insert_row r l).
Proof.
  induction l as [|x l IH]; intros Hs; cbn [insert_row].
  - repeat constructor.
  - inversion Hs as [|? ? Hs' Hhd]; subst.
    destruct (key_lt (sort_key x) (sort_key r)) eqn:Hxr.
    + constructor; [now apply IH|].
      apply insert_row_HdRel; [|assumption]. now apply key_lt_asym.
    + constructor; [assumption|]. now constructor.
Qed.

Lemma sort_rows_Sorted (rows : list row) : Sorted key_le (sort_rows rows).
Proof.
  unfold sort_rows. induction rows as [|r rows IH]; cbn [foldr]; [constructor|].
  now apply insert_row_Sorted.
Qed.

Lemma key_le_same_kind (a b : row) :
  is_folder a = is_folder b -> key_le a b -> name_le a b.
Proof.
  unfold key_le, name_le, key_lt, sort_key. cbn [fst snd]. intros ->.
  now rewrite eqb_reflx.
Qed.

Lemma Sorted_same_kind (f : bool) (l : list row) :
  Forall (fun r => is_folder r = f) l -> Sorted key_le l -> Sorted name_le l.
Proof.
  intros Hall Hs. induction Hs as [|a l Hs IH Hhd]; [constructor|].
  inversion Hall as [|? ? Ha Hl]; subst. constructor; [now apply IH|].
  destruct Hhd as [|b l Hab]; constructor.
  inversion Hl; subst. apply key_le_same_kind; [congruence|assumption].
Qed.

Lemma insert_row_folder (r : row) (fs gs : list row) :
  is_folder r = true -> Forall (fun x => is_folder x = false) gs ->
  insert_row r (fs ++ gs) = insert_row r fs ++ gs.
Proof.
  intros Hr Hgs. induction fs as [|x fs IH]; cbn [insert_row app].
  - destruct gs as [|g gs]; [reflexivity|]. cbn [insert_row].
    inversion Hgs as [|? ? Hg _]; subst.
    assert (Hlt : key_lt (sort_key g) (sort_key r) = false).
    { unfold key_lt, sort_key. cbn [fst snd]. now rewrite Hg, Hr. }
    now rewrite Hlt.
  - destruct (key_lt (sort_key x) (sort_key r)); [now rewrite IH|reflexivity].
Qed.

Lemma insert_row_file (r : row) (fs gs : list row) :
  is_folder r = false -> Forall (fun x => is_folder x = true) fs ->
  insert_row r (fs ++ gs) = fs ++ insert_row r gs.
Proof.
  intros Hr Hfs. induction fs as [|x fs IH]; cbn [insert_row app]; [reflexivity|].
  inversion Hfs as [|? ? Hx Hfs']; subst.
  assert (Hlt : key_lt (sort_key x) (sort_key r) = true).
  { unfold key_lt, sort_key. cbn [fst snd]. now rewrite Hx, Hr. }
  now rewrite Hlt, (IH Hfs').
Qed.

Lemma sort_rows_kind (f : bool) (rows : list row) :
  Forall (fun r => is_folder r = f) rows ->
  Forall (fun r => is_folder r = f) (sort_rows rows).
Proof.
  intros H. apply Forall_forall. intros r Hin.
  rewrite (sort_rows_Permutation rows) in Hin.
  rewrite Forall_forall in H. now apply H.
Qed.

Lemma filter_kind (f : bool) (rows : list row) :
  Forall (fun r => is_folder r = f)
         (List.filter (fun r => Bool.eqb (is_folder r) f) rows).
Proof.
  induction rows as [|r rows IH]; cbn [List.filter]; [constructor|].
  destruct (Bool.eqb (is_folder r) f) eqn:E; [|assumption].
  constructor; [now apply eqb_prop|assumption].
Qed.

Lemma sort_rows_groups (rows : list row) :
  sort_rows rows =
  sort_rows (List.filter (fun r => Bool.eqb (is_folder r) true) rows)
  ++ sort_rows (List.filter (fun r => Bool.eqb (is_folder r) false) rows).
Proof.
  induction rows as [|r rows IH]; [reflexivity|].
  change (sort_rows (r :: rows)) with (insert_row r (sort_rows rows)).
  cbn [List.filter]. rewrite IH. destruct (is_folder r) eqn:Hr; cbn [Bool.eqb].
  - change (sort_rows (r :: ?l)) with (insert_row r (sort_rows l)).
    apply insert_row_folder; [assumption|].
    apply sort_rows_kind, filter_kind.
  - change (sort_rows (r :: ?l)) with (insert_row r (sort_rows l)).
    apply insert_row_file; [assumption|].
    apply sort_rows_kind, filter_kind.
Qed.

(** [rows.sort(key=lambda x: (not x[5], x[0].lower()))] keeps the rows,
    puts the folders before the files, and orders each of the two groups
    by name in lower case. *)
Theorem sort_rows_folders_first (rows : list row) :
  Permutation (sort_rows rows) rows /\
  (exists folders files,
     sort_rows rows = folders ++ files /\
     Permutation folders (List.filter is_folder rows) /\
     Permutation files (List.filter is_file rows) /\
     Sorted name_le folders /\ Sorted name_le files).
Proof.
  split; [apply sort_rows_Permutation|].
  exists (sort_rows (List.filter (fun r => Bool.eqb (is_folder r) true) rows)),
         (sort_rows (List.filter (fun r => Bool.eqb (is_folder r) false) rows)).
  split; [apply sort_rows_groups|].
  assert (Hfolders : List.filter (fun r => Bool.eqb (is_folder r) true) rows
                     = List.filter is_folder rows).
  { apply List.filter_ext. intros r. now destruct (is_folder r). }
  assert (Hfiles : List.filter (fun r => Bool.eqb (is_folder r) false) rows
                   = List.filter is_file rows).
  { apply List.filter_ext. intros r. unfold is_file. now destruct (is_folder r). }
  split; [rewrite <- Hfolders; apply sort_rows_Permutation|].
  split; [rewrite <- Hfiles; apply sort_rows_Permutation|].
  split.
  - apply (Sorted_same_kind true); [apply sort_rows_kind, filter_kind|apply sort_rows_Sorted].
  - apply (Sorted_same_kind false); [apply sort_rows_kind, filter_kind|apply sort_rows_Sorted].
Qed.

End RowOrder.

(* ===================================================================== *)
(** * Part XIV.  Back, forward and up                                     *)
(* ===================================================================== *)

Section Navigation.
Import Py Proc Os navigation.

Lemma last_item_snoc {A} (l : list A) (x : A) : last_item (l ++ [x]) = Some x.
Proof. unfold last_item. apply last_snoc. Qed.

Lemma but_last_snoc {A} (l : list A) (x : A) : but_last (l ++ [x]) = l.
Proof. unfold but_last. apply removelast_last. Qed.

Lemma last_item_Some {A} (l : list A) (x : A) :
  last_item l = Some x -> l = but_last l ++ [x].
Proof.
  unfold last_item, but_last. intros H.
  destruct (exists_last (l := l)) as (l' & a & ->).
  - intros ->. discriminate.
  - rewrite last_snoc in H. injection H as ->. now rewrite removelast_last.
Qed.

Lemma last_item_nonempty {A} (l : list A) : l <> [] -> exists x, last_item l = Some x.
Proof.
  intros H. destruct (exists_last H) as (l' & a & ->). exists a. apply last_item_snoc.
Qed.

(** A move made from the path field is undone by [go_back]: the window is
    at the path it left, with the history it had, and the path it came
    back from is the one [go_forward] leads to. *)
Theorem go_back_change_path (self : window) :
  strip (path_field self) <> EmptyString ->
  strip (path_field self) <> current_path self ->
  current_path (change_path self) = strip (path_field self) /\
  current_path (go_back (change_path self)) = current_path self /\
  history_stack (go_back (change_path self)) = history_stack self /\
  forward_stack (go_back (change_path self)) = [strip (path_field self)] /\
  path_field (go_back (change_path self)) = current_path self /\
  current_path (go_forward (go_back (change_path self))) = strip (path_field self).
Proof.
  intros Hne Hmove. unfold change_path.
  apply nonempty_true in Hne. rewrite Hne.
  destruct (String.eqb_spec (strip (path_field self)) (current_path self)) as [|_];
    [contradiction|].
  cbn [andb negb]. unfold visit, go_back.
  cbn [set_back_enabled refresh_file_list with_path current_path history_stack
       forward_stack path_field back_enabled forward_enabled].
  rewrite last_item_snoc, but_last_snoc.
  cbn [set_back_enabled refresh_file_list with_path current_path history_stack
       forward_stack path_field back_enabled forward_enabled app].
  repeat split.
Qed.

Definition at_sdcard (typed : string) : window :=
  {| adb_path := "adb"; root_access := false;
     current_path := "/storage/emulated/0";
     history_stack := []; forward_stack := [];
     back_enabled := false; forward_enabled := false;
     path_field := typed; search_field := EmptyString;
     table := []; symlink_targets := ∅; status := []; started := [] |}.

Lemma go_back_change_path_witness :
  current_path (change_path (at_sdcard " /system ")) = "/system" /\
  current_path (go_back (change_path (at_sdcard " /system "))) = "/storage/emulated/0" /\
  history_stack (go_back (change_path (at_sdcard " /system "))) = [] /\
  forward_stack (go_back (change_path (at_sdcard " /system "))) = ["/system"] /\
  path_field (go_back (change_path (at_sdcard " /system "))) = "/storage/emulated/0" /\
  current_path (go_forward (go_back (change_path (at_sdcard " /system ")))) = "/system".
Proof.
  refine (go_back_change_path (at_sdcard " /system ") _ _); vm_compute; discriminate.
Defined.

(** [go_back] and [go_forward] undo each other: after both, path, history
    and forward stack are what they were. *)
Theorem go_back_go_forward_inverse (self : window) :
  (history_stack self <> [] ->
   current_path (go_forward (go_back self)) = current_path self /\
   history_stack (go_forward (go_back self)) = history_stack self /\
   forward_stack (go_forward (go_back self)) = forward_stack self) /\
  (forward_stack self <> [] ->
   current_path (go_back (go_forward self)) = current_path self /\
   history_stack (go_back (go_forward self)) = history_stack self /\
   forward_stack (go_back (go_forward self)) = forward_stack self) /\
  (history_stack self = [] -> go_back self = self) /\
  (forward_stack self = [] -> go_forward self = self).
Proof.
  repeat apply conj.
  - intros H. destruct (last_item_nonempty _ H) as [x Hx].
    unfold go_back. rewrite Hx. unfold go_forward.
    cbn [set_back_enabled set_forward_enabled refresh_file_list with_path current_path
         history_stack forward_stack path_field back_enabled forward_enabled].
    rewrite last_item_snoc, but_last_snoc.
    cbn [set_back_enabled set_forward_enabled refresh_file_list with_path current_path
         history_stack forward_stack path_field back_enabled forward_enabled].
    repeat split. symmetry. now apply last_item_Some.
  - intros H. destruct (last_item_nonempty _ H) as [x Hx].
    unfold go_forward. rewrite Hx. unfold go_back.
    cbn [set_back_enabled set_forward_enabled refresh_file_list with_path current_path
         history_stack forward_stack path_field back_enabled forward_enabled].
    rewrite last_item_snoc, but_last_snoc.
    cbn [set_back_enabled set_forward_enabled refresh_file_list with_path current_path
         history_stack forward_stack path_field back_enabled forward_enabled].
    repeat split. symmetry. now apply last_item_Some.
  - intros H. unfold go_back. now rewrite H.
  - intros H. unfold go_forward. now rewrite H.
Qed.

(** *** The buttons follow the stacks *)

(** What the user does at the window. *)
Inductive action :=
  | TypePath (text : string)
  | PressEnter
  | Back
  | Forward
  | Up
  | Refresh.

Definition type_path (text : string) (self : window) : window :=
  {| adb_path := adb_path self; root_access := root_access self;
     current_path := current_path self;
     history_stack := history_stack self; forward_stack := forward_stack self;
     back_enabled := back_enabled self; forward_enabled := forward_enabled self;
     path_field := text;
     search_field := search_field self; table := table self;
     symlink_targets := symlink_targets self;
     status := status self; started := started self |}.

Definition act (a : action) (self : window) : window :=
  match a with
  | TypePath text => type_path text self
  | PressEnter => change_path self
  | Back => go_back self
  | Forward => go_forward self
  | Up => go_to_parent_directory self
  | Refresh => refresh_file_list self
  end.

(** The window [__init__] builds. *)
Definition initial (adb : string) : window :=
  refresh_file_list
    {| adb_path := adb; root_access := false;
       current_path := "/storage/emulated/0";
       history_stack := []; forward_stack := [];
       back_enabled := false; forward_enabled := false;
       path_field := "/storage/emulated/0"; search_field := EmptyString;
       table := []; symlink_targets := ∅; status := []; started := [] |}.

Definition has_items {A} (l : list A) : bool :=
  match l with [] => false | _ => true end.

(** Each button is enabled exactly when its stack is not empty. *)
Definition buttons_follow (self : window) : Prop :=
  back_enabled self = has_items (history_stack self) /\
  forward_enabled self = has_items (forward_stack self).

Lemma has_items_snoc {A} (l : list A) (x : A) : has_items (l ++ [x]) = true.
Proof. now destruct l. Qed.

Lemma act_buttons_follow (a : action) (self : window) :
  buttons_follow self -> buttons_follow (act a self).
Proof.
  intros [Hb Hf]. destruct a; cbn [act].
  - now split.
  - unfold change_path.
    destruct (nonempty (strip (path_field self))
              && negb (String.eqb (strip (path_field self)) (current_path self)));
      [|now split].
    split; cbn; [now rewrite has_items_snoc|reflexivity].
  - unfold go_back. destruct (last_item (history_stack self)); [|now split].
    split; cbn; [reflexivity|now rewrite has_items_snoc].
  - unfold go_forward. destruct (last_item (forward_stack self)); [|now split].
    split; cbn; [now rewrite has_items_snoc|reflexivity].
  - unfold go_to_parent_directory.
    destruct (nonempty (dirname (current_path self))
              && negb (String.eqb (dirname (current_path self)) (current_path self)));
      [|now split].
    split; cbn; [now rewrite has_items_snoc|reflexivity].
  - now split.
Qed.

(** Whatever the user does from the start, Back is enabled exactly when
    there is a path to go back to, and Forward exactly when there is one to
    go forward to. *)
Theorem buttons_follow_stacks (adb : string) (actions : list action) :
  buttons_follow (foldl (fun self a => act a self) (initial adb) actions).
Proof.
  assert (H : forall self, buttons_follow self ->
                buttons_follow (foldl (fun self a => act a self) self actions)).
  { induction actions as [|a actions IH]; intros self Hs; [assumption|].
    cbn [foldl]. apply IH. now apply act_buttons_follow. }
  apply H. now split.
Qed.

(** *** Up *)

Lemma rstrip_sep_no_slash (d : string) : endswith d "/" = false -> rstrip_sep d = d.
Proof.
  induction d as [|c d IH]; [reflexivity|].
  cbn [endswith rstrip_sep]. intros [Hc Hd]%orb_false_elim.
  destruct d as [|c' d'].
  - cbn [rstrip_sep]. cbn [String.eqb] in Hc.
    destruct (Ascii.eqb c "/"); [discriminate|reflexivity].
  - now rewrite (IH Hd).
Qed.

Lemma rstrip_sep_slash (d : string) : rstrip_sep (d +:+ "/") = rstrip_sep d.
Proof.
  induction d as [|c d IH]; [reflexivity|].
  change (String c d +:+ "/") with (String c (d +:+ "/")).
  cbn [rstrip_sep]. now rewrite IH.
Qed.

Lemma not_all_slashes (d : string) :
  d <> EmptyString -> endswith d "/" = false ->
  all_chars (fun c => Ascii.eqb c "/") (d +:+ "/") = false.
Proof.
  induction d as [|c d IH]; [congruence|]. intros _.
  change (String c d +:+ "/") with (String c (d +:+ "/")).
  cbn [endswith all_chars]. intros [Hc Hd]%orb_false_elim.
  destruct d as [|c' d'].
  - cbn [String.eqb] in Hc. destruct (Ascii.eqb c "/"); [discriminate|reflexivity].
  - rewrite IH by (congruence || assumption). apply andb_false_r.
Qed.

Lemma no_slash_not_absolute (name : string) :
  contains "/" name = false -> startswith name "/" = false.
Proof. unfold startswith. destruct name; cbn [contains]; [reflexivity|]. now intros [H _]%orb_false_elim. Qed.

Lemma dirname_path_join (d name : string) :
  contains "/" name = false ->
  d = "/" \/ (d <> EmptyString /\ endswith d "/" = false) ->
  dirname (path_join d name) = d.
Proof.
  intros Hname Hd. unfold path_join. rewrite (no_slash_not_absolute name Hname).
  destruct Hd as [->|[Hne Hend]].
  - change (negb (nonempty "/") || endswith "/" "/") with true. cbv iota.
    unfold dirname.
    rewrite (proj2 (rsplit1_Some "/" ("/" +:+ name) EmptyString name) (conj eq_refl Hname)).
    reflexivity.
  - apply nonempty_true in Hne as Hne'. rewrite Hne', Hend. cbn [negb orb].
    unfold dirname.
    rewrite (proj2 (rsplit1_Some "/" (d +:+ "/" +:+ name) d name) (conj eq_refl Hname)).
    cbv zeta. rewrite (not_all_slashes d Hne Hend), rstrip_sep_slash.
    now apply rstrip_sep_no_slash.
Qed.

(** Up leads from a folder back to the directory it was entered from, and
    does nothing at the root or at a path without a slash. *)
Theorem go_to_parent_directory_up (self : window) (d name : string) :
  contains "/" name = false ->
  d = "/" \/ (d <> EmptyString /\ endswith d "/" = false) ->
  current_path self = path_join d name ->
  current_path (go_to_parent_directory self) = d /\
  (forall w, current_path w = "/" -> go_to_parent_directory w = w) /\
  (forall w, contains "/" (current_path w) = false -> go_to_parent_directory w = w).
Proof.
  intros Hname Hd Hpath. split; [|split].
  - unfold go_to_parent_directory. rewrite Hpath, (dirname_path_join d name Hname Hd).
    destruct (nonempty d && negb (String.eqb d (path_join d name))) eqn:Hmove.
    + reflexivity.
    + rewrite Hpath. apply andb_false_iff in Hmove as [Hempty|Hsame].
      * apply nonempty_false in Hempty. destruct Hd as [->|[Hne _]]; congruence.
      * apply negb_false_iff, String.eqb_eq in Hsame. congruence.
  - intros w Hw. unfold go_to_parent_directory. now rewrite Hw.
  - intros w Hw. unfold go_to_parent_directory, dirname.
    now rewrite (proj2 (rsplit1_None "/" (current_path w)) Hw).
Qed.

Lemma go_to_parent_directory_up_witness :
  current_path (go_to_parent_directory (at_sdcard EmptyString)) = "/storage/emulated".
Proof.
  refine (proj1 (go_to_parent_directory_up (at_sdcard EmptyString) "/storage/emulated" "0"
                   eq_refl (or_intror (conj _ eq_refl)) eq_refl)).
  discriminate.
Defined.

Example dirname_examples :
  List.map dirname ["/"; "//"; "/a"; "/a/b"; "/a/b/"; "a"; EmptyString; "a//b"; "//a"] =
  ["/"; "//"; "/"; "/a"; "/a/b"; EmptyString; EmptyString; "a"; "//"].
Proof. reflexivity. Qed.

End Navigation.

(* ===================================================================== *)
(** * Part XV.  The permission grid                                       *)
(* ===================================================================== *)

Section PermissionGrid.
Import Py Proc Os chmod_dialog.

(** An octal digit. *)
Definition octal (n : Z) : Prop := 0 <= n <= 7.

Lemma bits_for_octal (col : column) : octal (bits_for col).
Proof. destruct col as [[] [] []]; vm_compute; split; discriminate. Qed.

Lemma octal_cases (n : Z) :
  octal n -> n = 0 \/ n = 1 \/ n = 2 \/ n = 3 \/ n = 4 \/ n = 5 \/ n = 6 \/ n = 7.
Proof. unfold octal. lia. Qed.

Lemma set_bits_bits_for (col : column) : set_bits (bits_for col) = col.
Proof. destruct col as [[] [] []]; reflexivity. Qed.

Lemma bits_for_set_bits (n : Z) : octal n -> bits_for (set_bits n) = n.
Proof.
  intros H. destruct (octal_cases n H) as [->|[->|[->|[->|[->|[->|[->| ->]]]]]]];
    reflexivity.
Qed.

(** What [set_checkboxes_from_mode] does for a mode of three octal digits. *)
Lemma set_checkboxes_from_digits (o g t : Z) (boxes : checkboxes) :
  octal o -> octal g -> octal t ->
  set_checkboxes_from_mode (str_of_int o +:+ str_of_int g +:+ str_of_int t) boxes =
    {| owner := set_bits o; group := set_bits g; other := set_bits t |} /\
  set_checkboxes_from_mode ("0" +:+ str_of_int o +:+ str_of_int g +:+ str_of_int t) boxes =
    {| owner := set_bits o; group := set_bits g; other := set_bits t |}.
Proof.
  intros Ho Hg Ht.
  destruct (octal_cases o Ho) as [->|[->|[->|[->|[->|[->|[->| ->]]]]]]];
  destruct (octal_cases g Hg) as [->|[->|[->|[->|[->|[->|[->| ->]]]]]]];
  destruct (octal_cases t Ht) as [->|[->|[->|[->|[->|[->|[->| ->]]]]]]];
  split; reflexivity.
Qed.

(** The mode read off the grid is three octal digits, and setting the grid
    from it gives the same grid back, whatever the grid showed before. *)
Theorem perms_to_mode_round_trip (boxes before : checkboxes) :
  String.length (perms_to_mode boxes) = 3%nat /\
  all_chars (fun c => between 48 55 c) (perms_to_mode boxes) = true /\
  set_checkboxes_from_mode (perms_to_mode boxes) before = boxes /\
  set_checkboxes_from_mode ("0" +:+ perms_to_mode boxes) before = boxes.
Proof.
  destruct boxes as [[[] [] []] [[] [] []] [[] [] []]]; repeat split.
Qed.

(** A mode of three octal digits, with or without a leading zero, is the
    mode read back from the grid it sets. *)
Theorem set_checkboxes_from_mode_round_trip (o g t : Z) (boxes : checkboxes) :
  octal o -> octal g -> octal t ->
  perms_to_mode (set_checkboxes_from_mode
                   (str_of_int o +:+ str_of_int g +:+ str_of_int t) boxes)
    = str_of_int o +:+ str_of_int g +:+ str_of_int t /\
  perms_to_mode (set_checkboxes_from_mode
                   ("0" +:+ str_of_int o +:+ str_of_int g +:+ str_of_int t) boxes)
    = str_of_int o +:+ str_of_int g +:+ str_of_int t.
Proof.
  intros Ho Hg Ht.
  destruct (set_checkboxes_from_digits o g t boxes Ho Hg Ht) as [-> ->].
  unfold perms_to_mode. cbn [owner group other].
  now rewrite !bits_for_set_bits.
Qed.

Definition all_off : checkboxes :=
  {| owner := {| r := false; w := false; x := false |};
     group := {| r := false; w := false; x := false |};
     other := {| r := false; w := false; x := false |} |}.

Lemma set_checkboxes_from_mode_round_trip_witness :
  perms_to_mode (set_checkboxes_from_mode "755" all_off) = "755" /\
  perms_to_mode (set_checkboxes_from_mode "0755" all_off) = "755".
Proof.
  refine (set_checkboxes_from_mode_round_trip 7 5 5 all_off _ _ _);
    vm_compute; split; discriminate.
Defined.

(** A text that is not a mode leaves the grid as it is: too short, too
    long, or with a character [int] rejects. *)
Example set_checkboxes_from_mode_rejects (boxes : checkboxes) :
  set_checkboxes_from_mode "75" boxes = boxes /\
  set_checkboxes_from_mode "07555" boxes = boxes /\
  set_checkboxes_from_mode "7a5" boxes = boxes /\
  set_checkboxes_from_mode "7 5" boxes = boxes /\
  set_checkboxes_from_mode EmptyString boxes = boxes.
Proof. repeat split. Qed.

End PermissionGrid.

(* ===================================================================== *)
(** * Part XVI.  Flashing a partition                                     *)
(* ===================================================================== *)

Section Flashing.
Import Py Proc Os Spec Outcome partitionmanager.

(** The three commands of [PartitionFlashWorker.run]. *)
Definition push_command (ptp image_path partition_name : string) : cmdline :=
  Argv [adb ptp; "push"; image_path; "/sdcard/" +:+ partition_name +:+ ".img"].

Definition dd_command (ptp partition_name : string) : cmdline :=
  Argv [adb ptp; "shell"; "su"; "-c";
        "dd if=/sdcard/" +:+ partition_name +:+ ".img of=/dev/block/by-name/"
        +:+ partition_name].

Definition rm_command (ptp partition_name : string) : cmdline :=
  Argv [adb ptp; "shell"; "su"; "-c"; "rm /sdcard/" +:+ partition_name +:+ ".img"].

(** The flag a [finished_with_status] signal carries. *)
Definition flash_status (e : event) : option bool :=
  match e with
  | finished_with_status success => Some success
  | _ => None
  end.

(** When the processes it starts exit, [PartitionFlashWorker.run] returns
    and emits [finished_with_status] once, as its last signal.  The flag is
    [True] exactly when both the push and the [dd] exit with code 0.  After
    a failed push nothing else is started; after a push that succeeded the
    image is written and then removed from the device, also when writing
    it failed. *)
Theorem PartitionFlashWorker_run_status (ptp : string) (partition : partition_info)
    (image_path : string) (w : world) (s : state event) :
  (forall n c, exits (behaviour w n c) = true) ->
  let n := length (spawned s) in
  let pushed := succeeds (behaviour w n (push_command ptp image_path (name partition))) in
  let written := succeeds (behaviour w (S n) (dd_command ptp (name partition))) in
  let r := PartitionFlashWorker_run ptp partition image_path w s in
  fst r = Returns (pushed && written) /\
  omap flash_status (new_events s (snd r)) = [pushed && written] /\
  last (new_events s (snd r)) = Some (finished_with_status (pushed && written)) /\
  new_commands s (snd r) =
    if pushed
    then [ push_command ptp image_path (name partition);
           dd_command ptp (name partition);
           rm_command ptp (name partition) ]
    else [ push_command ptp image_path (name partition) ].
Proof.
  intros Hexit n pushed written r. subst r pushed written n.
  unfold PartitionFlashWorker_run, try_catch. cbv zeta.
  fold (push_command ptp image_path (name partition)).
  fold (dd_command ptp (name partition)). fold (rm_command ptp (name partition)).
  run_steps. rewrite mbind_run_None. cbv zeta. run_steps.
  pose proof (Hexit (length (spawned s)) (push_command ptp image_path (name partition))) as H1.
  destruct (behaviour w (length (spawned s)) (push_command ptp image_path (name partition)))
    as [d1 rc1 out1 err1| |]; try discriminate. clear H1.
  cbn [succeeds]. run_steps.
  destruct (rc1 =? 0); cbn [negb andb]; run_steps.
  - rewrite mbind_run_None. cbv zeta. run_steps. rewrite length_app, Nat.add_1_r.
    pose proof (Hexit (S (length (spawned s))) (dd_command ptp (name partition))) as H2.
    destruct (behaviour w (S (length (spawned s))) (dd_command ptp (name partition)))
      as [d2 rc2 out2 err2| |]; try discriminate. clear H2.
    cbn [succeeds]. run_steps.
    destruct (rc2 =? 0); cbn [negb]; run_steps;
      rewrite mbind_run_None; cbv zeta; run_steps;
      match goal with
      | |- context [behaviour w ?k (rm_command ptp (name partition))] =>
          pose proof (Hexit k (rm_command ptp (name partition))) as H3;
          destruct (behaviour w k (rm_command ptp (name partition)))
            as [d3 rc3 out3 err3| |]; try discriminate; clear H3
      end;
      run_steps; destruct (rc3 =? 0); cbn [negb]; run_steps;
      unfold ret; cbn [fst snd]; rewrite <- !app_assoc;
      unfold new_commands; rewrite new_calls_snoc, new_events_snoc;
      (repeat split; apply last_snoc_cons).
  - unfold ret. cbn [fst snd].
    rewrite <- !app_assoc. unfold new_commands. rewrite new_calls_snoc, new_events_snoc.
    repeat split.
Qed.

Definition flash_boot : partition_info :=
  {| name := "boot"; path := "/dev/block/sda1"; permissions := "lrwxrwxrwx";
     size_bytes := 67108864; size_human := "64.00 MB" |}.

(** A device on which every command exits with the code [rc]. *)
Definition exit_world (rc : Z) : world :=
  {| behaviour := fun _ _ => Exits 0 rc EmptyString EmptyString;
     cpe_text := fun _ _ => EmptyString;
     path_exists := fun _ _ => false;
     readline_error := all_text |}.

Lemma PartitionFlashWorker_run_status_witness :
  fst (PartitionFlashWorker_run "pt" flash_boot "boot.img" (exit_world 0) start)
  = Returns true.
Proof.
  exact (proj1 (PartitionFlashWorker_run_status "pt" flash_boot "boot.img" (exit_world 0)
                  start (fun _ _ => eq_refl))).
Defined.

(** When [dd] cannot be started the status is [False] and the image pushed
    is left on the device: [rm] is not run. *)
Example PartitionFlashWorker_run_dd_cannot_start :
  let w := {| behaviour := fun n _ =>
                match n with
                | O => Exits 0 0 EmptyString EmptyString
                | _ => CannotStart (OSError "No such file or directory")
                end;
              cpe_text := fun _ _ => EmptyString;
              path_exists := fun _ _ => false;
              readline_error := all_text |} in
  fst (PartitionFlashWorker_run "pt" flash_boot "boot.img" w start) = Returns false /\
  List.map call_cmd (spawned (snd (PartitionFlashWorker_run "pt" flash_boot "boot.img" w start)))
  = [push_command "pt" "boot.img" "boot"; dd_command "pt" "boot"].
Proof. split; reflexivity. Qed.

End Flashing.

(* ===================================================================== *)
(** * Part XVII.  Pulling partitions                                      *)
(* ===================================================================== *)

Section Pulling.
Import Py Proc Os Spec Outcome partitionpull.

Definition copy_command (ptp partition_name : string) : cmdline :=
  Argv [partitionmanager.adb ptp; "shell"; "su"; "-c";
        "dd if=/dev/block/by-name/" +:+ partition_name
        +:+ " of=/sdcard/" +:+ partition_name +:+ ".img"].

Definition pull_command (ptp partition_name save_dir : string) : cmdline :=
  Argv [partitionmanager.adb ptp; "pull"; "/sdcard/" +:+ partition_name +:+ ".img"; save_dir].

Definition remove_command (ptp partition_name : string) : cmdline :=
  Argv [partitionmanager.adb ptp; "shell"; "su"; "-c";
        "rm /sdcard/" +:+ partition_name +:+ ".img"].

(** What a [finished_with_status] signal carries. *)
Definition pull_status (e : event) : option (bool * nat * nat) :=
  match e with
  | finished_with_status success success_count total_count =>
      Some (success, success_count, total_count)
  | _ => None
  end.

Definition call_of (cmd : cmdline) : call := {| call_cmd := cmd; call_timeout := None |}.

(** One partition: the commands started, and whether it was pulled. *)
Lemma pull_one_spec (ptp save_dir : string) (current total : nat) (pname : string)
    (w : world) (s : state event) :
  (forall n c, exits (behaviour w n c) = true) ->
  let n := length (spawned s) in
  let copied := succeeds (behaviour w n (copy_command ptp pname)) in
  let pulled := succeeds (behaviour w (S n) (pull_command ptp pname save_dir)) in
  exists evs,
    pull_one ptp save_dir current total pname w s =
      (Returns (copied && pulled),
       {| spawned := spawned s ++
            List.map call_of
              (copy_command ptp pname ::
               if copied
               then pull_command ptp pname save_dir ::
                    (if pulled then [remove_command ptp pname] else [])
               else []);
          emitted := emitted s ++ evs |}) /\
    omap pull_status evs = [].
Proof.
  intros Hexit n copied pulled. subst n copied pulled.
  unfold pull_one. cbv zeta.
  fold (copy_command ptp pname). fold (pull_command ptp pname save_dir).
  fold (remove_command ptp pname).
  run_steps. rewrite mbind_run_None. cbv zeta. run_steps.
  pose proof (Hexit (length (spawned s)) (copy_command ptp pname)) as H1.
  destruct (behaviour w (length (spawned s)) (copy_command ptp pname))
    as [d1 rc1 out1 err1| |]; try discriminate. clear H1.
  cbn [succeeds]. run_steps.
  destruct (rc1 =? 0); cbn [negb andb]; run_steps.
  - rewrite mbind_run_None. cbv zeta. run_steps. rewrite length_app, Nat.add_1_r.
    pose proof (Hexit (S (length (spawned s))) (pull_command ptp pname save_dir)) as H2.
    destruct (behaviour w (S (length (spawned s))) (pull_command ptp pname save_dir))
      as [d2 rc2 out2 err2| |]; try discriminate. clear H2.
    cbn [succeeds]. run_steps.
    destruct (rc2 =? 0); cbn [negb]; run_steps.
    + rewrite mbind_run_None. cbv zeta. run_steps.
      match goal with
      | |- context [behaviour w ?k (remove_command ptp pname)] =>
          pose proof (Hexit k (remove_command ptp pname)) as H3;
          destruct (behaviour w k (remove_command ptp pname))
            as [d3 rc3 out3 err3| |]; try discriminate; clear H3
      end.
      run_steps. destruct (rc3 =? 0); cbn [negb]; run_steps; unfold ret;
        rewrite <- !app_assoc; (eexists; split; [reflexivity|reflexivity]).
    + unfold ret. rewrite <- !app_assoc. eexists; split; reflexivity.
  - unfold ret. rewrite <- !app_assoc. eexists; split; reflexivity.
Qed.

(** The three commands for one partition. *)
Definition pull_commands (ptp save_dir : string) (p : partitionmanager.partition_info)
  : list cmdline :=
  [ copy_command ptp (partitionmanager.name p);
    pull_command ptp (partitionmanager.name p) save_dir;
    remove_command ptp (partitionmanager.name p) ].

(** The run of the loop from the [n]-th process on: for each partition
    the commands started for it and whether it was pulled, which is when
    its copy and its pull both exit with code 0. *)
Fixpoint pull_runs (ptp save_dir : string) (w : world) (n : nat)
    (partitions : list partitionmanager.partition_info) : list (list cmdline * bool) :=
  match partitions with
  | [] => []
  | p :: rest =>
      let pname := partitionmanager.name p in
      let copied := succeeds (behaviour w n (copy_command ptp pname)) in
      let pulled := succeeds (behaviour w (S n) (pull_command ptp pname save_dir)) in
      let commands :=
        copy_command ptp pname ::
        (if copied
         then pull_command ptp pname save_dir ::
              (if pulled then [remove_command ptp pname] else [])
         else []) in
      (commands, copied && pulled)
      :: pull_runs ptp save_dir w (n + length commands) rest
  end.

(** The number of partitions pulled. *)
Definition pulled_count (runs : list (list cmdline * bool)) : nat :=
  length (List.filter snd runs).

Lemma pull_all_spec (ptp save_dir : string) (w : world)
    (partitions : list partitionmanager.partition_info) :
  (forall n c, exits (behaviour w n c) = true) ->
  forall (current total successful : nat) (s : state event),
  let runs := pull_runs ptp save_dir w (length (spawned s)) partitions in
  exists evs,
    pull_all ptp save_dir current total successful partitions w s =
      (Returns (successful + pulled_count runs)%nat,
       {| spawned := spawned s ++ List.map call_of (concat (List.map fst runs));
          emitted := emitted s ++ evs |}) /\
    omap pull_status evs = [].
Proof.
  intros Hexit. induction partitions as [|p rest IH]; intros current total successful s.
  - exists []. cbn [pull_all pull_runs List.map concat pulled_count List.filter length].
    unfold ret. rewrite !app_nil_r, Nat.add_0_r. split; [|reflexivity]. now destruct s.
  - cbn [pull_all pull_runs]. cbv zeta.
    destruct (pull_one_spec ptp save_dir current total (partitionmanager.name p) w s Hexit)
      as (evs1 & Hone & Hq1).
    cbv zeta in Hone. rewrite (mbind_Returns _ _ _ _ _ _ Hone).
    set (copied := succeeds (behaviour w (length (spawned s))
                               (copy_command ptp (partitionmanager.name p)))) in *.
    set (pulled := succeeds (behaviour w (S (length (spawned s)))
                               (pull_command ptp (partitionmanager.name p) save_dir))) in *.
    set (commands := copy_command ptp (partitionmanager.name p) :: _) in *.
    match goal with
    | |- context [pull_all _ _ _ _ ?succ rest w ?s1] =>
        destruct (IH (S current) total succ s1) as (evs2 & Hall & Hq2)
    end.
    cbv zeta in Hall. cbn [spawned emitted] in Hall.
    rewrite length_app, length_map in Hall. rewrite Hall.
    exists (evs1 ++ evs2). split; [|now rewrite omap_app, Hq1, Hq2].
    cbn [List.map concat fst].
    f_equal; [f_equal|f_equal].
    + unfold pulled_count. cbn [List.filter snd].
      destruct (copied && pulled); cbn [length]; lia.
    + now rewrite <- !app_assoc, <- List.map_app.
    + now rewrite <- !app_assoc.
Qed.

Lemma pull_runs_length (ptp save_dir : string) (w : world)
    (partitions : list partitionmanager.partition_info) (n : nat) :
  length (pull_runs ptp save_dir w n partitions) = length partitions.
Proof.
  revert n. induction partitions as [|p rest IH]; intros n; cbn [pull_runs length];
    [reflexivity|]. cbv zeta. cbn [length]. now rewrite IH.
Qed.

Lemma pull_runs_all_succeed (ptp save_dir : string) (w : world)
    (partitions : list partitionmanager.partition_info) (n : nat) :
  (forall n c, succeeds (behaviour w n c) = true) ->
  pull_runs ptp save_dir w n partitions =
  List.map (fun p => (pull_commands ptp save_dir p, true)) partitions.
Proof.
  intros Hok. revert n. induction partitions as [|p rest IH]; intros n;
    cbn [pull_runs List.map]; [reflexivity|].
  cbv zeta. rewrite !Hok, IH. reflexivity.
Qed.

Lemma pull_runs_all_fail (ptp save_dir : string) (w : world)
    (partitions : list partitionmanager.partition_info) (n : nat) :
  (forall n c, succeeds (behaviour w n c) = false) ->
  pull_runs ptp save_dir w n partitions =
  List.map (fun p => ([copy_command ptp (partitionmanager.name p)], false)) partitions.
Proof.
  intros Hko. revert n. induction partitions as [|p rest IH]; intros n;
    cbn [pull_runs List.map]; [reflexivity|].
  cbv zeta. rewrite !Hko, IH. reflexivity.
Qed.

Lemma pulled_count_all {A} (f : A -> list cmdline) (b : bool) (l : list A) :
  pulled_count (List.map (fun p => (f p, b)) l) = if b then length l else 0%nat.
Proof.
  unfold pulled_count. induction l as [|x l IH]; cbn [List.map List.filter snd];
    [now destruct b|]. destruct b; cbn [length]; [now rewrite IH|exact IH].
Qed.

Lemma concat_singletons {A B} (g : A -> B) (l : list A) :
  concat (List.map (fun p => [g p]) l) = List.map g l.
Proof. induction l as [|x l IH]; cbn [List.map concat app]; [reflexivity|now rewrite IH]. Qed.

(** When the processes it starts exit, [PartitionPullWorker.run] returns
    and emits [finished_with_status] once, as its last signal, with the
    number of partitions pulled, the number selected, and the flag that
    says whether the first is positive.  A partition is pulled when its
    copy and its pull both exit with code 0; the commands started are, for
    each partition in turn, the copy, then the pull when the copy
    succeeded, then the removal when the pull succeeded.  So when every
    command exits with code 0 all the partitions are pulled, by copy, pull
    and remove for each in turn; when every command fails none is, and
    only the copies are tried. *)
Theorem PartitionPullWorker_run_reports (ptp save_dir : string)
    (selected : list partitionmanager.partition_info) (w : world) (s : state event) :
  (forall n c, exits (behaviour w n c) = true) ->
  let r := PartitionPullWorker_run ptp selected save_dir w s in
  let runs := pull_runs ptp save_dir w (length (spawned s)) selected in
  let pulled := pulled_count runs in
  fst r = Returns tt /\
  omap pull_status (new_events s (snd r)) =
    [((0 <? pulled)%nat, pulled, length selected)] /\
  last (new_events s (snd r)) =
    Some (finished_with_status (0 <? pulled)%nat pulled (length selected)) /\
  new_commands s (snd r) = concat (List.map fst runs) /\
  (pulled <= length selected)%nat /\
  ((forall n c, succeeds (behaviour w n c) = true) ->
   pulled = length selected /\
   new_commands s (snd r) = concat (List.map (pull_commands ptp save_dir) selected)) /\
  ((forall n c, succeeds (behaviour w n c) = false) ->
   pulled = 0%nat /\
   new_commands s (snd r) =
     List.map (fun p => copy_command ptp (partitionmanager.name p)) selected).
Proof.
  intros Hexit r runs pulled. subst r pulled.
  destruct (pull_all_spec ptp save_dir w selected Hexit 1 (length selected) 0 s)
    as (evs & Hall & Hq).
  cbv zeta in Hall. fold runs in Hall.
  unfold PartitionPullWorker_run, try_catch. cbv zeta.
  rewrite (mbind_Returns _ _ _ _ _ _ Hall). cbn [Nat.add].
  rewrite emit_spec. cbn [fst snd spawned emitted].
  rewrite <- app_assoc. unfold new_commands. rewrite new_calls_snoc, new_events_snoc.
  assert (Hmap : forall cs, List.map call_cmd (List.map call_of cs) = cs).
  { intros cs. rewrite List.map_map. apply List.map_id. }
  rewrite Hmap, omap_app, Hq, last_snoc.
  split; [reflexivity|]. split; [reflexivity|]. split; [reflexivity|].
  split; [reflexivity|]. split; [|split].
  - unfold pulled_count. rewrite <- (pull_runs_length ptp save_dir w selected
                                        (length (spawned s))).
    apply filter_length_le.
  - intros Hok. subst runs. rewrite (pull_runs_all_succeed _ _ _ _ _ Hok).
    rewrite pulled_count_all, List.map_map. cbn [fst]. split; reflexivity.
  - intros Hko. subst runs. rewrite (pull_runs_all_fail _ _ _ _ _ Hko).
    rewrite pulled_count_all, List.map_map. cbn [fst]. split; [reflexivity|].
    apply concat_singletons.
Qed.

(** The processes exit with code 0, except that the pull of the second of
    three partitions fails. *)
Definition second_pull_fails : world :=
  {| behaviour := fun n _ =>
       match n with
       | 4%nat => Exits 0 1 EmptyString "remote object does not exist"
       | _ => Exits 0 0 EmptyString EmptyString
       end;
     cpe_text := fun _ _ => EmptyString;
     path_exists := fun _ _ => false;
     readline_error := all_text |}.

Lemma PartitionPullWorker_run_reports_witness :
  omap pull_status
    (new_events start
       (snd (PartitionPullWorker_run "pt" [flash_boot; flash_boot; flash_boot] "out"
               second_pull_fails start)))
  = [(true, 2%nat, 3%nat)] /\
  new_commands start
    (snd (PartitionPullWorker_run "pt" [flash_boot; flash_boot; flash_boot] "out"
            second_pull_fails start))
  = [ copy_command "pt" "boot"; pull_command "pt" "boot" "out"; remove_command "pt" "boot";
      copy_command "pt" "boot"; pull_command "pt" "boot" "out";
      copy_command "pt" "boot"; pull_command "pt" "boot" "out"; remove_command "pt" "boot" ].
Proof.
  pose proof (PartitionPullWorker_run_reports "pt" "out" [flash_boot; flash_boot; flash_boot]
                second_pull_fails start
                (fun n _ => match n with 4%nat => eq_refl | _ => eq_refl end))
    as (_ & Hstatus & _ & Hcommands & _).
  split; [exact Hstatus|exact Hcommands].
Defined.

(** A pull that fails after the copy leaves the image on the device: the
    [rm] is skipped.  A command that cannot be started ends the run with
    count 0, whatever was pulled before. *)
Example PartitionPullWorker_run_failures :
  let failing_pull := {| behaviour := fun n _ =>
                           match n with
                           | 1%nat => Exits 0 1 EmptyString "remote object does not exist"
                           | _ => Exits 0 0 EmptyString EmptyString
                           end;
                         cpe_text := fun _ _ => EmptyString;
                         path_exists := fun _ _ => false;
                         readline_error := all_text |} in
  let lost := {| behaviour := fun n _ =>
                   match n with
                   | 3%nat => CannotStart (OSError "No such file or directory")
                   | _ => Exits 0 0 EmptyString EmptyString
                   end;
                 cpe_text := fun _ _ => EmptyString;
                 path_exists := fun _ _ => false;
                 readline_error := all_text |} in
  List.map call_cmd
    (spawned (snd (PartitionPullWorker_run "pt" [flash_boot] "out" failing_pull start)))
  = [copy_command "pt" "boot"; pull_command "pt" "boot" "out"] /\
  omap pull_status
    (emitted (snd (PartitionPullWorker_run "pt" [flash_boot; flash_boot] "out" lost start)))
  = [(false, 0%nat, 2%nat)].
Proof. split; vm_compute; reflexivity. Qed.

End Pulling.

(* ===================================================================== *)
(** * Part XVIII.  How the loading of the partitions ends                 *)
(* ===================================================================== *)

Section EventFrames.
Import Py Proc Os.
Context {E : Type}.

(** A run adds only events that satisfy [P]. *)
Definition emits {A} (P : E -> Prop) (m : M E A) : Prop :=
  forall w s, exists evs, emitted (snd (m w s)) = emitted s ++ evs /\ Forall P evs.

Lemma emits_ret {A} (P : E -> Prop) (a : A) : emits P (ret a).
Proof. intros w s. exists []. now rewrite app_nil_r. Qed.

Lemma emits_raise {A} (P : E -> Prop) (e : exn) : emits P (raise (A:=A) e).
Proof. intros w s. exists []. now rewrite app_nil_r. Qed.

Lemma emits_lift {A} (P : E -> Prop) (r : res A) : emits P (lift r).
Proof. destruct r; [apply emits_ret|apply emits_raise]. Qed.

Lemma emits_emit (P : E -> Prop) (e : E) : P e -> emits P (emit e).
Proof. intros H w s. exists [e]. split; [reflexivity|now constructor]. Qed.

Lemma emits_run (P : E -> Prop) (cmd : cmdline) (timeout : option N) :
  emits P (run cmd timeout).
Proof.
  intros w s. exists []. rewrite app_nil_r. split; [|constructor].
  unfold run, mbind, spawn.
  destruct (behaviour w (length (spawned s)) cmd), timeout; try reflexivity.
  cbv beta iota. now destruct (n <? seconds)%N.
Qed.

Lemma emits_mbind {A B} (P : E -> Prop) (m : M E A) (k : A -> M E B) :
  emits P m -> (forall a, emits P (k a)) -> emits P (mbind m k).
Proof.
  intros Hm Hk w s. unfold mbind. destruct (Hm w s) as (evs1 & H1 & HP1).
  destruct (m w s) as [[a|e|] s1]; cbn [snd] in *.
  - destruct (Hk a w s1) as (evs2 & H2 & HP2). exists (evs1 ++ evs2).
    rewrite H2, H1, <- app_assoc. split; [reflexivity|now apply Forall_app].
  - now exists evs1.
  - now exists evs1.
Qed.

Lemma emits_try_catch {A} (P : E -> Prop) (m : M E A) (h : exn -> M E A) :
  emits P m -> (forall e, emits P (h e)) -> emits P (try_catch m h).
Proof.
  intros Hm Hh w s. unfold try_catch. destruct (Hm w s) as (evs1 & H1 & HP1).
  destruct (m w s) as [[a|e|] s1]; cbn [snd] in *.
  - now exists evs1.
  - destruct (Hh e w s1) as (evs2 & H2 & HP2). exists (evs1 ++ evs2).
    rewrite H2, H1, <- app_assoc. split; [reflexivity|now apply Forall_app].
  - now exists evs1.
Qed.

End EventFrames.

Ltac emits_solve :=
  repeat first
    [ apply emits_ret | apply emits_raise | apply emits_lift | apply emits_run
    | apply emits_emit; exact I
    | apply emits_mbind; [|intros ?]
    | apply emits_try_catch; [|intros ?]
    | progress cbv zeta
    | match goal with |- emits _ (if ?c then _ else _) => destruct c end ].

Section LoadingEnds.
Import Py Proc Os Spec Outcome partitionmanager.

(** The signals of the loop over the lines. *)
Definition progress_or_log (e : event) : Prop :=
  match e with
  | progress_update _ _ | log_message _ => True
  | _ => False
  end.

Lemma get_partition_size_emits (ptp pname : string) :
  emits progress_or_log (get_partition_size ptp pname).
Proof. unfold get_partition_size. emits_solve. Qed.

Lemma load_line_emits (ptp : string) (current total : nat) (line : string) :
  emits progress_or_log (load_line ptp current total line).
Proof.
  unfold load_line. emits_solve.
Qed.

Lemma load_lines_emits (ptp : string) (lines : list string) (current total : nat) :
  emits progress_or_log (load_lines ptp current total lines).
Proof.
  revert current. induction lines as [|line rest IH]; intros current; cbn [load_lines].
  - apply emits_ret.
  - apply emits_mbind; [apply load_line_emits|]. intros p.
    apply emits_mbind; [apply IH|]. intros ps. apply emits_ret.
Qed.

Definition ls_command (ptp : string) : cmdline :=
  Argv [adb ptp; "shell"; "ls -l /dev/block/by-name"].

(** The signals a run of [PartitionLoadWorker.run] ends with, by what the
    [ls] does. *)
Definition ending (ls : process) (final : list event) : Prop :=
  match ls with
  | Exits _ rc out err =>
      if rc =? 0 then
        if (1 <? length (splitlines out))%nat then
          exists partitions,
            final = [ partitions_loaded partitions;
                      log_message ("Loaded " +:+ str_of_int (Z.of_nat (length partitions))
                                   +:+ " partitions from device");
                      finished_loading ]
        else final = [error_occurred "No partitions found or device not accessible."]
      else final = [error_occurred ("Failed to load partitions:" +:+ newline +:+ strip err)]
  | CannotStart e =>
      final = [error_occurred ("Error loading partitions:" +:+ newline +:+ exn_text e)]
  | NeverExits _ => False
  end.

(** When the processes it starts end, [PartitionLoadWorker.run] returns,
    and after its progress and log signals it ends either with
    [partitions_loaded], a log line and [finished_loading], or with one
    [error_occurred]: the first when [ls] exits with code 0 and prints
    more than one line, the second otherwise.  When [ls] fails no other
    command is started. *)
Theorem PartitionLoadWorker_run_ends (ptp : string) (w : world) (s : state event) :
  (forall n c, terminates (behaviour w n c) = true) ->
  let r := PartitionLoadWorker_run ptp w s in
  let ls := behaviour w (length (spawned s)) (ls_command ptp) in
  fst r = Returns tt /\
  (exists evs final,
     new_events s (snd r) = evs ++ final /\
     Forall progress_or_log evs /\ ending ls final) /\
  (succeeds ls = false -> new_commands s (snd r) = [ls_command ptp]).
Proof.
  intros Hterm r ls. subst r ls.
  unfold PartitionLoadWorker_run, try_catch. fold (ls_command ptp).
  run_steps. rewrite mbind_run_None. cbv zeta. run_steps.
  pose proof (Hterm (length (spawned s)) (ls_command ptp)) as H1.
  destruct (behaviour w (length (spawned s)) (ls_command ptp))
    as [d rc out err|out|e]; [|discriminate|]; clear H1; cbn [ending succeeds].
  - run_steps. destruct (rc =? 0); cbn [negb].
    + destruct (decide (length (splitlines out) <= 1)%nat) as [Hle|Hgt].
      * run_steps. cbn [fst snd]. unfold new_commands.
        rewrite new_calls_snoc, <- app_assoc, new_events_snoc.
        split; [reflexivity|]. split; [|discriminate].
        exists [log_message "Loading partitions from device..."]. eexists.
        split; [reflexivity|]. split; [repeat constructor|].
        destruct (Nat.ltb_spec 1 (length (splitlines out))); [lia|reflexivity].
      * cbv zeta.
        match goal with
        | |- context [mbind (load_lines ptp 0 ?t ?ls) _ w ?s1] =>
            destruct (load_lines_spec ptp w ls Hterm 0%nat t s1)
              as (s2 & evs & Hload & Hem & _);
            destruct (load_lines_emits ptp ls 0%nat t w s1) as (evs' & Hem' & Hlog)
        end.
        rewrite Hload in Hem'. cbn [snd] in Hem'. rewrite Hem in Hem'.
        apply app_inv_head in Hem'. subst evs'.
        rewrite (mbind_Returns _ _ _ _ _ _ Hload). run_steps. cbn [fst snd].
        split; [reflexivity|]. split; [|discriminate].
        unfold new_events. cbn [emitted]. rewrite Hem. cbn [emitted].
        rewrite <- !app_assoc, drop_app_length.
        exists (log_message "Loading partitions from device..." :: evs). eexists.
        split; [reflexivity|]. split; [constructor; [exact I|assumption]|].
        destruct (Nat.ltb_spec 1 (length (splitlines out))); [|lia].
        eexists. reflexivity.
    + run_steps. cbn [fst snd]. unfold new_commands.
      rewrite new_calls_snoc, <- app_assoc, new_events_snoc.
      split; [reflexivity|]. split; [|reflexivity].
      exists [log_message "Loading partitions from device..."]. eexists.
      split; [reflexivity|]. split; [repeat constructor|reflexivity].
  - run_steps. cbn [fst snd]. unfold new_commands.
    rewrite new_calls_snoc, <- app_assoc, new_events_snoc.
    split; [reflexivity|]. split; [|reflexivity].
    exists [log_message "Loading partitions from device..."]. eexists.
    split; [reflexivity|]. split; [repeat constructor|reflexivity].
Qed.

Lemma PartitionLoadWorker_run_ends_witness :
  fst (PartitionLoadWorker_run "pt" (exit_world 1) start) = Returns tt.
Proof.
  exact (proj1 (PartitionLoadWorker_run_ends "pt" (exit_world 1) start (fun _ _ => eq_refl))).
Defined.

End LoadingEnds.

(* ===================================================================== *)
(** * Part XIX.  Transfers                                                *)
(* ===================================================================== *)

Section Transfers.
Import Py Proc Os Spec Outcome fileexplorer.

Lemma progress_events_no_slot (lines : list string) :
  progress_events (fun _ => []) lines = List.map transfer_progress lines.
Proof. induction lines as [|l lines IH]; cbn [progress_events flat_map List.map app];
         [reflexivity|]. fold (progress_events (fun _ => []) lines). now rewrite IH. Qed.

(** [TransferRunner.run] with no slot connected to its signals.  When the
    transfer comes to an end (the process ends, or reading its output
    fails), [run] returns having emitted one [transfer_progress] for every
    line read, in order, and then [transfer_finished] once.  The error flag
    is [False] exactly when the process exited with code 0 and all its
    output was read; the destination is then the last argument (when there
    are at least two), and the text is the last line read or, if that is
    empty, 'Transfer completed'.  On an error the destination is empty, and
    the text is that of the exception when starting the process or reading
    its output raised, and otherwise the last line read or, if that is
    empty, 'Transfer failed (code ...)'. *)
Theorem TransferRunner_run_finishes (t : TransferRunner) (w : world) (s : state event) :
  let n := length (spawned s) in
  let p := behaviour w n (Argv (tr_adb_path t :: args t)) in
  let last_line := List.last (lines_of w n p) EmptyString in
  transfer_ends w n p = true ->
  exists text is_error dest s',
    TransferRunner_run no_slot t w s = (Returns (text, is_error, dest), s') /\
    new_events s s' =
      List.map transfer_progress (lines_of w n p) ++ [transfer_finished text is_error dest] /\
    new_commands s s' = [Argv (tr_adb_path t :: args t)] /\
    is_error = negb (transferred w n p) /\
    (is_error = true -> dest = EmptyString) /\
    (is_error = false ->
     dest = (if decide (2 <= length (args t))%nat then List.last (args t) EmptyString
             else EmptyString) /\
     text = if nonempty last_line then last_line else "Transfer completed") /\
    (forall e, read_failure w n p = Some e -> text = exn_text e) /\
    (forall d rc out err,
       p = Exits d rc out err -> read_failure w n p = None -> rc <> 0 ->
       text = if nonempty last_line then last_line
              else "Transfer failed (code " +:+ str_of_int rc +:+ ")").
Proof.
  intros n p last_line Hends. subst n p last_line.
  rewrite (TransferRunner_run_spec _ _ no_slot_emits). cbv zeta. rewrite Hends.
  exists (fst (fst (transfer_report t w (length (spawned s))
                      (behaviour w (length (spawned s)) (Argv (tr_adb_path t :: args t)))))).
  exists (snd (fst (transfer_report t w (length (spawned s))
                      (behaviour w (length (spawned s)) (Argv (tr_adb_path t :: args t)))))).
  exists (snd (transfer_report t w (length (spawned s))
                 (behaviour w (length (spawned s)) (Argv (tr_adb_path t :: args t))))).
  eexists. split.
  { f_equal. f_equal. now destruct (transfer_report _ _ _ _) as [[? ?] ?]. }
  unfold new_commands, new_events, new_calls. cbn [spawned emitted].
  rewrite !drop_app_length, progress_events_no_slot.
  split; [reflexivity|]. split; [reflexivity|].
  split; [now apply transfer_report_error|].
  revert Hends. unfold transfer_ends, transfer_report, transferred.
  destruct (behaviour w (length (spawned s)) (Argv (tr_adb_path t :: args t)))
    as [d rc out err|out|e];
    (destruct (read_failure w (length (spawned s)) _) as [e'|] eqn:Hfail;
     [|rewrite bool_decide_eq_false_2 by (intros [? ?]; discriminate)]);
    cbn [terminates orb fst snd]; intros Hends; try discriminate.
  - repeat split; try discriminate. now intros e [= <-].
  - destruct (rc =? 0) eqn:Hrc; cbn [fst snd negb]; repeat split; try discriminate.
    + intros d' rc' out' err' [= <- <- <- <-] _ Hne. apply Z.eqb_eq in Hrc. contradiction.
    + now intros d' rc' out' err' [= <- <- <- <-] _ _.
  - repeat split; try discriminate. now intros e [= <-].
  - repeat split; try discriminate. now intros e0 [= <-].
Qed.

Definition pull_runner : TransferRunner :=
  {| tr_adb_path := "adb"; args := ["pull"; "/sdcard/a.txt"; "/tmp/a.txt"] |}.

Definition pull_world : world :=
  {| behaviour := fun _ _ =>
       Exits 1 0 ("[ 50%] /sdcard/a.txt" +:+ newline
                  +:+ "/sdcard/a.txt: 1 file pulled" +:+ newline) EmptyString;
     cpe_text := fun _ _ => EmptyString;
     path_exists := fun _ _ => true;
     readline_error := all_text |}.

Lemma TransferRunner_run_finishes_witness :
  exists text is_error dest s',
    TransferRunner_run no_slot pull_runner pull_world start =
      (Returns (text, is_error, dest), s') /\
    new_events start s' =
      [ transfer_progress "[ 50%] /sdcard/a.txt";
        transfer_progress "/sdcard/a.txt: 1 file pulled";
        transfer_finished text is_error dest ] /\
    is_error = false.
Proof.
  destruct (TransferRunner_run_finishes pull_runner pull_world start eq_refl)
    as (text & is_error & dest & s' & Hrun & Hev & _ & Herr & _).
  exists text, is_error, dest, s'. split; [exact Hrun|]. split; [exact Hev|exact Herr].
Defined.

(** The process exits with code 0, but its second line is not text: one
    line of progress, and the transfer ends as an error that carries the
    text of the exception. *)
Example TransferRunner_run_undecodable :
  let w := {| behaviour := behaviour pull_world;
              cpe_text := fun _ _ => EmptyString;
              path_exists := fun _ _ => true;
              readline_error := fun _ =>
                Some (1%nat, ValueError "'utf-8' codec can't decode byte 0xff in position 0: invalid start byte") |} in
  TransferRunner_run no_slot pull_runner w start =
  (Returns ("'utf-8' codec can't decode byte 0xff in position 0: invalid start byte",
            true, EmptyString),
   {| spawned := [{| call_cmd := Argv ["adb"; "pull"; "/sdcard/a.txt"; "/tmp/a.txt"];
                     call_timeout := None |}];
      emitted := [ transfer_progress "[ 50%] /sdcard/a.txt";
                   transfer_finished
                     "'utf-8' codec can't decode byte 0xff in position 0: invalid start byte"
                     true EmptyString ] |}).
Proof. vm_compute. reflexivity. Qed.

End Transfers.

(* ===================================================================== *)
(** * Part XX.  The selection of applications                             *)
(* ===================================================================== *)

Section Selection.
Import Py Proc Os appmanager.

(** The packages of the rows whose box is checked. *)
Definition checked_packages (rows : list model_row) : gset string :=
  list_to_set (List.map package_name (List.filter checked rows)).

(** [selected_packages] holds exactly the packages of the checked rows. *)
Definition selection_matches (self : AppManagerUI) : Prop :=
  selected_packages self = checked_packages (model self).

Definition packages (self : AppManagerUI) : list string :=
  List.map package_name (model self).

Lemma checked_packages_cons (r : model_row) (rows : list model_row) :
  checked_packages (r :: rows) =
  if checked r then {[ package_name r ]} ∪ checked_packages rows
  else checked_packages rows.
Proof. unfold checked_packages. cbn [List.filter]. now destruct (checked r). Qed.

Lemma checked_packages_subset (rows : list model_row) (p : string) :
  p ∈ checked_packages rows -> In p (List.map package_name rows).
Proof.
  induction rows as [|r rows IH]; [unfold checked_packages; cbn; set_solver|].
  rewrite checked_packages_cons. cbn [List.map In]. destruct (checked r).
  - intros [->%elem_of_singleton|H]%elem_of_union; [now left|right; now apply IH].
  - intros H. right. now apply IH.
Qed.

Lemma set_checked_same (r : model_row) : set_checked (checked r) r = r.
Proof. now destruct r. Qed.

Lemma set_checked_twice (a b : bool) (r : model_row) :
  set_checked a (set_checked b r) = set_checked a r.
Proof. reflexivity. Qed.

(** Checking or unchecking one row of a table whose packages are all
    different adds its package to the checked ones, or removes it. *)
Lemma checked_packages_insert (rows : list model_row) (row : nat) (r : model_row) (b : bool) :
  List.NoDup (List.map package_name rows) -> rows !! row = Some r ->
  checked_packages (<[row := set_checked b r]> rows) =
  if b then {[ package_name r ]} ∪ checked_packages rows
  else checked_packages rows ∖ {[ package_name r ]}.
Proof.
  revert row. induction rows as [|a rows IH]; intros row Hnd Hrow; [discriminate|].
  cbn [List.map] in Hnd. apply List.NoDup_cons_iff in Hnd as [Ha Hnd].
  destruct row as [|row]; cbn in Hrow.
  - injection Hrow as ->. cbn [insert list_insert].
    change (<[0%nat := set_checked b r]> (r :: rows)) with (set_checked b r :: rows).
    rewrite !checked_packages_cons. cbn [checked package_name set_checked].
    assert (Hout : package_name r ∉ checked_packages rows).
    { intros H. apply Ha. now apply checked_packages_subset. }
    destruct b, (checked r); set_solver.
  - change (<[S row := set_checked b r]> (a :: rows))
      with (a :: <[row := set_checked b r]> rows).
    rewrite !checked_packages_cons, (IH row Hnd Hrow).
    assert (Hne : package_name a <> package_name r).
    { intros Heq. apply Ha. rewrite Heq. apply List.in_map.
      apply list_elem_of_In. eapply list_elem_of_lookup_2. exact Hrow. }
    destruct b, (checked a); set_solver.
Qed.

Lemma packages_insert (rows : list model_row) (row : nat) (r : model_row) (b : bool) :
  rows !! row = Some r ->
  List.map package_name (<[row := set_checked b r]> rows) = List.map package_name rows.
Proof.
  revert row. induction rows as [|a rows IH]; intros row Hrow; [discriminate|].
  destruct row as [|row]; cbn in Hrow.
  - now injection Hrow as ->.
  - change (<[S row := set_checked b r]> (a :: rows))
      with (a :: <[row := set_checked b r]> rows).
    cbn [List.map]. now rewrite (IH row Hrow).
Qed.

Lemma checked_packages_none (rows : list model_row) :
  checked_packages (List.map (set_checked false) rows) = ∅.
Proof.
  induction rows as [|r rows IH]; [reflexivity|].
  cbn [List.map]. now rewrite checked_packages_cons.
Qed.

Lemma checked_packages_preset (P : gset string) (rows : list model_row) :
  checked_packages
    (List.map (fun r => if bool_decide (package_name r ∈ P)
                        then set_checked true r else r)
              (List.map (set_checked false) rows))
  = P ∩ list_to_set (List.map package_name (List.map (set_checked false) rows)).
Proof.
  induction rows as [|r rows IH]; [unfold checked_packages; cbn; set_solver|].
  cbn [List.map]. rewrite checked_packages_cons, IH.
  cbn [package_name set_checked].
  rewrite list_to_set_cons.
  clear IH.
  generalize (list_to_set (C:=gset string)
                (List.map package_name (List.map (set_checked false) rows))).
  intros S. case_bool_decide as Hin; cbn [checked set_checked package_name]; set_solver.
Qed.

Lemma toggle_selection_matches (row : nat) (self : AppManagerUI) :
  List.NoDup (packages self) -> selection_matches self ->
  selection_matches (toggle_selection row self) /\
  packages (toggle_selection row self) = packages self.
Proof.
  unfold selection_matches, packages, toggle_selection. intros Hnd Hsel.
  destruct (model self !! row) as [r|] eqn:Hrow; [|now split].
  cbn [selected_packages model]. split.
  - rewrite (checked_packages_insert _ _ _ _ Hnd Hrow), Hsel.
    now destruct (negb (checked r)).
  - now apply packages_insert.
Qed.

Lemma _apply_preset_matches (preset_path : string) (files : gmap string json)
    (self : AppManagerUI) :
  selection_matches self ->
  selection_matches (_apply_preset preset_path files self) /\
  packages (_apply_preset preset_path files self) = packages self.
Proof.
  unfold selection_matches, packages, _apply_preset. intros Hsel.
  destruct (load_preset_members preset_path files) as [[data items]|e]; [|now split].
  destruct data as [| | |members]; try now split.
  destruct items as [|item items]; [now split|].
  unfold deselect_all, log. cbn [model selected_packages].
  rewrite check_rows_spec. cbn [model selected_packages].
  rewrite checked_packages_preset. split.
  - match goal with
    | |- context [list_to_set ?l] => generalize (list_to_set (C:=gset string) l)
    end.
    generalize (strings_of (item :: items)). clear. intros. set_solver.
  - rewrite !List.map_map. apply List.map_ext. intros r.
    case_bool_decide; reflexivity.
Qed.

(** In a table whose packages are all different, if [selected_packages]
    holds exactly the packages of the checked rows, it still does after a
    click on any row, after [deselect_all] and after [_apply_preset] of any
    file; none of the three changes the packages listed. *)
Theorem selection_matches_checked_rows (self : AppManagerUI) :
  List.NoDup (packages self) -> selection_matches self ->
  (forall row,
     selection_matches (toggle_selection row self) /\
     packages (toggle_selection row self) = packages self) /\
  (selection_matches (deselect_all self) /\
   packages (deselect_all self) = packages self) /\
  (forall preset_path files,
     selection_matches (_apply_preset preset_path files self) /\
     packages (_apply_preset preset_path files self) = packages self).
Proof.
  intros Hnd Hsel. split; [|split].
  - intros row. now apply toggle_selection_matches.
  - unfold selection_matches, packages, deselect_all, log. cbn [model selected_packages].
    rewrite checked_packages_none. split; [reflexivity|].
    rewrite List.map_map. apply List.map_ext. now intros [].
  - intros path files. now apply _apply_preset_matches.
Qed.

Lemma toggle_selection_row (row : nat) (self : AppManagerUI) (r : model_row) :
  model self !! row = Some r ->
  toggle_selection row self =
  {| selected_packages :=
       if negb (checked r) then {[ package_name r ]} ∪ selected_packages self
       else selected_packages self ∖ {[ package_name r ]};
     model := <[row := set_checked (negb (checked r)) r]> (model self);
     log_output := log_output self; boxes := boxes self |}.
Proof. unfold toggle_selection. now intros ->. Qed.

(** Two clicks on the same row leave the selection and the check boxes as
    they were. *)
Theorem toggle_selection_twice (row : nat) (self : AppManagerUI) :
  List.NoDup (packages self) -> selection_matches self ->
  selected_packages (toggle_selection row (toggle_selection row self))
    = selected_packages self /\
  model (toggle_selection row (toggle_selection row self)) = model self.
Proof.
  unfold selection_matches, packages. intros Hnd Hsel.
  destruct (model self !! row) as [r|] eqn:Hrow.
  2: { unfold toggle_selection. now rewrite !Hrow. }
  assert (Hlt : (row < length (model self))%nat) by (eapply lookup_lt_Some; exact Hrow).
  rewrite (toggle_selection_row row self r Hrow).
  rewrite (toggle_selection_row row _ (set_checked (negb (checked r)) r))
    by (cbn [model]; now apply list_lookup_insert_eq).
  cbn [checked package_name set_checked selected_packages model].
  rewrite list_insert_insert_eq, negb_involutive.
  change (set_checked (checked r) (set_checked (negb (checked r)) r))
    with (set_checked (checked r) r).
  rewrite set_checked_same, (list_insert_id _ _ _ Hrow). split; [|reflexivity].
  assert (Hin : checked r = true <-> package_name r ∈ selected_packages self).
  { rewrite Hsel. split.
    - intros Hc. unfold checked_packages. apply elem_of_list_to_set, list_elem_of_In.
      apply List.in_map, List.filter_In. split; [|assumption].
      apply list_elem_of_In. eapply list_elem_of_lookup_2. exact Hrow.
    - intros Hp. destruct (checked r) eqn:Hc; [reflexivity|]. exfalso.
      pose proof (checked_packages_insert _ _ _ false Hnd Hrow) as Hins.
      cbv iota in Hins.
      assert (Hsame : set_checked false r = r) by (rewrite <- Hc; apply set_checked_same).
      rewrite Hsame, (list_insert_id _ _ _ Hrow) in Hins.
      clear -Hins Hp. set_solver. }
  destruct (checked r); cbn [negb].
  - assert (package_name r ∈ selected_packages self) by now apply Hin.
    apply set_eq. intros p. rewrite elem_of_union, elem_of_difference, elem_of_singleton.
    destruct (decide (p = package_name r)) as [->|]; tauto.
  - assert (Hout : package_name r ∉ selected_packages self)
      by (intros H; apply Hin in H; discriminate).
    clear -Hout. set_solver.
Qed.

Definition app_row (c : bool) (p : string) : model_row :=
  {| checked := c; app_name := p; package_name := p; status := "Enabled";
     app_type := "User App" |}.

Definition two_apps : AppManagerUI :=
  {| selected_packages := {[ "com.c" ]};
     model := [app_row false "com.a"; app_row true "com.c"];
     log_output := []; boxes := [] |}.

Lemma two_apps_NoDup : List.NoDup (packages two_apps).
Proof.
  unfold packages. cbn. constructor; [cbn; intros [H|[]]; discriminate|].
  constructor; [intros []|constructor].
Defined.

Lemma two_apps_matches : selection_matches two_apps.
Proof. unfold selection_matches, checked_packages. cbn. set_solver. Defined.

Lemma selection_matches_checked_rows_witness :
  selection_matches (toggle_selection 0 two_apps) /\
  packages (toggle_selection 0 two_apps) = packages two_apps.
Proof.
  exact (proj1 (selection_matches_checked_rows two_apps two_apps_NoDup two_apps_matches)
               0%nat).
Defined.

Lemma toggle_selection_twice_witness :
  selected_packages (toggle_selection 1 (toggle_selection 1 two_apps))
    = selected_packages two_apps /\
  model (toggle_selection 1 (toggle_selection 1 two_apps)) = model two_apps.
Proof. exact (toggle_selection_twice 1 two_apps two_apps_NoDup two_apps_matches). Defined.

(** With the same package on two rows the selection can lose track: after
    the second row is checked and unchecked, the first is still checked
    and its package is no longer selected. *)
Example toggle_selection_duplicate_package :
  let self := {| selected_packages := {[ "com.a" ]};
                 model := [app_row true "com.a"; app_row false "com.a"];
                 log_output := []; boxes := [] |} in
  let after := toggle_selection 1 (toggle_selection 1 self) in
  List.map checked (model after) = [true; false] /\
  selected_packages after = ∅.
Proof. split; [reflexivity|]. cbn. set_solver. Qed.

End Selection.

(* ===================================================================== *)
(** * Part XXI.  The IMEI and the boot animation                          *)
(* ===================================================================== *)

Section Imei.
Import Py Proc Os adbfunc.

(** The decimal digits of a text, in order. *)
Fixpoint digits_in (s : string) : string :=
  match s with
  | EmptyString => EmptyString
  | String c s' => if isdecimal_char c then String c (digits_in s') else digits_in s'
  end.

Lemma join_nil_cons (x : string) (l : list string) :
  join EmptyString (x :: l) = x +:+ join EmptyString l.
Proof.
  unfold join. destruct l as [|y l]; cbn [String.concat].
  - now rewrite append_nil_r.
  - reflexivity.
Qed.

Lemma digit_runs_join (s cur : string) :
  join EmptyString (digit_runs cur s) = cur +:+ digits_in s.
Proof.
  revert cur. induction s as [|c s IH]; intros cur; cbn [digit_runs digits_in].
  - rewrite append_nil_r. destruct cur; reflexivity.
  - destruct (isdecimal_char c).
    + rewrite IH, append_assoc. reflexivity.
    + destruct cur as [|a cur]; cbn [nonempty].
      * apply IH.
      * now rewrite join_nil_cons, IH.
Qed.

Lemma digit_runs_nil (s : string) :
  digit_runs EmptyString s = [] -> digits_in s = EmptyString.
Proof.
  intros H. pose proof (digit_runs_join s EmptyString) as Hj. rewrite H in Hj.
  symmetry. exact Hj.
Qed.

Lemma digits_in_decimal (s : string) : all_chars isdecimal_char (digits_in s) = true.
Proof.
  induction s as [|c s IH]; [reflexivity|]. cbn [digits_in].
  destruct (isdecimal_char c) eqn:Hc; [|assumption].
  cbn [all_chars]. now rewrite Hc.
Qed.

Lemma substring_all_chars (p : ascii -> bool) (s : string) (n : nat) :
  all_chars p s = true -> all_chars p (String.substring 0 n s) = true.
Proof.
  revert n. induction s as [|c s IH]; intros n; [now destruct n|].
  cbn [all_chars]. intros [Hc Hs]%andb_true_iff. destruct n as [|n]; [reflexivity|].
  cbn [String.substring all_chars]. now rewrite Hc, IH.
Qed.

Lemma substring_length_min (s : string) (n : nat) :
  String.length (String.substring 0 n s) = Nat.min n (String.length s).
Proof.
  revert n. induction s as [|c s IH]; intros n; [now destruct n|].
  destruct n as [|n]; [reflexivity|]. cbn [String.substring String.length Nat.min].
  now rewrite IH.
Qed.

(** [_parse_imei] gives the decimal digits of the output, cut after the
    fifteenth, when there are at least 14 of them, and 'Unknown' if not:
    its result is 'Unknown' or 14 or 15 decimal digits. *)
Theorem _parse_imei_digits (raw_output : string) :
  _parse_imei raw_output =
    (if decide (14 <= String.length (digits_in raw_output))%nat
     then take 15 (digits_in raw_output) else "Unknown") /\
  (_parse_imei raw_output = "Unknown" \/
   all_chars isdecimal_char (_parse_imei raw_output) = true /\
   (14 <= String.length (_parse_imei raw_output) <= 15)%nat).
Proof.
  assert (Heq : _parse_imei raw_output =
    (if decide (14 <= String.length (digits_in raw_output))%nat
     then take 15 (digits_in raw_output) else "Unknown")).
  { unfold _parse_imei.
    pose proof (digit_runs_join raw_output EmptyString) as Hj. cbn [String.append] in Hj.
    destruct (digit_runs EmptyString raw_output) as [|m ms] eqn:Hruns.
    - rewrite (digit_runs_nil raw_output Hruns). reflexivity.
    - now rewrite Hj. }
  split; [exact Heq|]. rewrite Heq.
  destruct (decide (14 <= String.length (digits_in raw_output))%nat) as [Hlen|Hlen];
    [right|now left].
  unfold take. split.
  - apply substring_all_chars, digits_in_decimal.
  - rewrite substring_length_min. lia.
Qed.

Example _parse_imei_parcel :
  _parse_imei ("Result: Parcel(" +:+ newline
               +:+ "  0x00000000: 00000000 0000000f 00350033 00320031 '........3.5.1.2.'")
  = "000000000000000" /\
  _parse_imei "service not found" = "Unknown" /\
  _parse_imei "35 209900 176148" = "35209900176148".
Proof. repeat split. Qed.

End Imei.

Section BootAnimation.
Import Py Proc Os Spec Outcome bootanimpaths.

Definition ls_call (adb_cmd p : string) : call :=
  {| call_cmd := Argv [adb_cmd; "shell"; "su"; "-c"; "ls " +:+ quoted p];
     call_timeout := Some 6%N |}.

(** What the guarded [subprocess.run] of one path gives: the finished
    process, or nothing when it timed out or could not be started. *)
Definition listed_within (t : N) (p : process) : option CompletedProcess :=
  match p with
  | Exits d rc out err =>
      if (t <? d)%N then None else Some {| returncode := rc; stdout := out; stderr := err |}
  | _ => None
  end.

Lemma try_run_spec {E} (cmd : cmdline) (t : N) (w : world) (s : state E) :
  try_catch (mbind (run cmd (Some t)) (fun proc => ret (Some proc))) (fun _ => ret None) w s =
  (Returns (listed_within t (behaviour w (length (spawned s)) cmd)),
   {| spawned := spawned s ++ [{| call_cmd := cmd; call_timeout := Some t |}];
      emitted := emitted s |}).
Proof.
  unfold try_catch, mbind, run, mbind, spawn, listed_within. cbv beta iota.
  destruct (behaviour w (length (spawned s)) cmd) as [d rc out err| |]; try reflexivity.
  cbv beta iota. now destruct (t <? d)%N.
Qed.

Lemma find_in_spec (adb_cmd : string) (paths : list string) (w : world)
    (s : state Empty_set) :
  exists r tried rest,
    find_in adb_cmd paths w s =
      (Returns r,
       {| spawned := spawned s ++ List.map (ls_call adb_cmd) tried; emitted := emitted s |}) /\
    paths = tried ++ rest /\
    match r with
    | Some p => last tried = Some p
    | None => rest = []
    end.
Proof.
  revert s. induction paths as [|p paths IH]; intros s.
  - exists None, [], []. cbn [find_in List.map]. unfold ret. rewrite app_nil_r.
    split; [now destruct s|]. now split.
  - cbn [find_in]. unfold mbind at 1. rewrite try_run_spec.
    set (s1 := {| spawned := _; emitted := _ |}).
    destruct (IH s1) as (r & tried & rest & Hrun & Hpaths & Hr).
    assert (Hnext : exists r' tried' rest',
              find_in adb_cmd paths w s1 =
                (Returns r',
                 {| spawned := spawned s ++ List.map (ls_call adb_cmd) (p :: tried');
                    emitted := emitted s |}) /\
              p :: paths = (p :: tried') ++ rest' /\
              match r' with Some q => last (p :: tried') = Some q | None => rest' = [] end).
    { exists r, tried, rest. rewrite Hrun. subst s1. cbn [spawned emitted List.map].
      rewrite <- app_assoc. split; [reflexivity|]. split; [now rewrite Hpaths|].
      destruct r as [q|]; [|assumption].
      destruct tried as [|t tried]; [discriminate|]. exact Hr. }
    destruct Hnext as (r' & tried' & rest' & Hrun' & Hpaths' & Hr').
    destruct (listed_within 6 (behaviour w (length (spawned s))
                (Argv [adb_cmd; "shell"; "su"; "-c"; "ls " +:+ quoted p]))) as [proc|];
      [|now exists r', (p :: tried'), rest'].
    destruct (found proc); [|now exists r', (p :: tried'), rest'].
    exists (Some p), [p], paths. unfold ret. subst s1. cbn [List.map].
    split; [reflexivity|]. now split.
Qed.

(** [find_remote_path_sync] always returns: every [ls] has a timeout of 6
    seconds and its exceptions are passed over.  The four paths are tried
    in order, up to the one returned; when none is returned all four have
    been tried. *)
Theorem find_remote_path_sync_tries_in_order (adb_cmd : string) (w : world)
    (s : state Empty_set) :
  exists r tried rest,
    fst (find_remote_path_sync adb_cmd w s) = Returns r /\
    new_calls s (snd (find_remote_path_sync adb_cmd w s)) = List.map (ls_call adb_cmd) tried /\
    BOOT_PATHS = tried ++ rest /\
    match r with
    | Some p => last tried = Some p /\ In p BOOT_PATHS
    | None => tried = BOOT_PATHS
    end.
Proof.
  unfold find_remote_path_sync.
  destruct (find_in_spec adb_cmd BOOT_PATHS w s) as (r & tried & rest & Hrun & Hpaths & Hr).
  exists r, tried, rest. rewrite Hrun. cbn [fst snd].
  split; [reflexivity|]. split; [apply new_calls_snoc|]. split; [assumption|].
  destruct r as [p|].
  - split; [assumption|]. rewrite Hpaths. apply in_or_app. left.
    apply list_elem_of_In. rewrite last_lookup in Hr.
    eapply list_elem_of_lookup_2. exact Hr.
  - subst rest. now rewrite app_nil_r in Hpaths.
Qed.

Example find_remote_path_sync_second_path :
  let w := {| behaviour := fun n _ =>
                match n with
                | O => Exits 0 1 EmptyString "ls: No such file or directory"
                | _ => Exits 0 0 "/system/product/media/bootanimation.zip" EmptyString
                end;
              cpe_text := fun _ _ => EmptyString;
              path_exists := fun _ _ => false;
              readline_error := all_text |} in
  fst (find_remote_path_sync "adb" w start) =
    Returns (Some "/system/product/media/bootanimation.zip") /\
  fst (find_remote_path_sync "adb" (exit_world 1) start) = Returns None /\
  length (spawned (snd (find_remote_path_sync "adb" (exit_world 1) start))) = 4%nat.
Proof. repeat split. Qed.

End BootAnimation.

Section Inversion.
Import Py Proc Os.
Context {E : Type}.

(** Reading a run backwards from what it returned. *)

Lemma mbind_Returns_inv {A B} (m : M E A) (k : A -> M E B) w (s : state E) (b : B) s' :
  mbind m k w s = (Returns b, s') ->
  exists a s1, m w s = (Returns a, s1) /\ k a w s1 = (Returns b, s').
Proof.
  unfold mbind. destruct (m w s) as [[a|e|] s1]; [|discriminate|discriminate].
  intros H. now exists a, s1.
Qed.

Lemma try_catch_Returns_inv {A} (m : M E A) (h : exn -> M E A) w (s : state E) (b : A) s' :
  try_catch m h w s = (Returns b, s') ->
  m w s = (Returns b, s') \/
  exists e s1, m w s = (Raises e, s1) /\ h e w s1 = (Returns b, s').
Proof.
  unfold try_catch. destruct (m w s) as [[a|e|] s1]; [now left| |discriminate].
  intros H. right. now exists e, s1.
Qed.

Lemma run_Returns_inv (cmd : cmdline) (t : option N) w (s : state E)
    (r : CompletedProcess) (s' : state E) :
  run cmd t w s = (Returns r, s') ->
  s' = {| spawned := spawned s ++ [{| call_cmd := cmd; call_timeout := t |}];
          emitted := emitted s |} /\
  exists d, behaviour w (length (spawned s)) cmd
            = Exits d (returncode r) (stdout r) (stderr r).
Proof.
  unfold run, mbind, spawn. cbv beta iota.
  destruct (behaviour w (length (spawned s)) cmd) as [d rc out err|out|e], t as [t|];
    cbv beta iota; try discriminate.
  - destruct (t <? d)%N; [discriminate|]. intros [= <- <-]. split; [reflexivity|now exists d].
  - intros [= <- <-]. split; [reflexivity|now exists d].
Qed.

End Inversion.

Section PullSound.
Import Py Proc Os Spec Outcome bootanimcreator.

Definition tmp_pull (adb_cmd local_dest : string) : cmdline :=
  Argv [adb_cmd; "pull"; tmp_remote; local_dest].

(** Between the states [s] and [s'] an [adb pull] of the temporary copy
    was started, exited with code 0, and left the local file in place. *)
Definition pulled (w : world) (adb_cmd local_dest : string) (s s' : state Empty_set) : Prop :=
  exists i,
    (length (spawned s) <= i)%nat /\
    spawned s' !! i = Some {| call_cmd := tmp_pull adb_cmd local_dest;
                              call_timeout := Some 90%N |} /\
    succeeds (behaviour w i (tmp_pull adb_cmd local_dest)) = true /\
    path_exists w (S i) local_dest = true.

Lemma pull_tmp_true (adb_cmd local_dest : string) w (s s' : state Empty_set) :
  pull_tmp adb_cmd local_dest w s = (Returns true, s') ->
  pulled w adb_cmd local_dest s s' /\
  length (spawned s') = S (length (spawned s)).
Proof.
  unfold pull_tmp. fold (tmp_pull adb_cmd local_dest).
  intros (r & s1 & Hrun & Hk)%mbind_Returns_inv.
  apply run_Returns_inv in Hrun as (-> & d & Hb).
  destruct (returncode r =? 0) eqn:Hrc; [|discriminate].
  unfold exists_path in Hk. cbn [spawned] in Hk. injection Hk as Hex <-.
  rewrite length_app, Nat.add_1_r in Hex. cbn [spawned]. split.
  - exists (length (spawned s)). split; [lia|]. split.
    + cbn [spawned]. rewrite lookup_app_r by lia. now rewrite Nat.sub_diag.
    + rewrite Hb. cbn [succeeds]. now split.
  - now rewrite length_app, Nat.add_1_r.
Qed.

Lemma pulled_before (w : world) (adb_cmd local_dest : string) (s0 s s' : state Empty_set) :
  (length (spawned s0) <= length (spawned s))%nat ->
  pulled w adb_cmd local_dest s s' -> pulled w adb_cmd local_dest s0 s'.
Proof. intros Hle (i & Hi & H). exists i. split; [lia|exact H]. Qed.

Lemma pulled_after (w : world) (adb_cmd local_dest : string) (s s1 : state Empty_set)
    (c : call) (evs : list Empty_set) :
  pulled w adb_cmd local_dest s s1 ->
  pulled w adb_cmd local_dest s {| spawned := spawned s1 ++ [c]; emitted := evs |}.
Proof.
  intros (i & Hi & Hl & H). exists i. split; [assumption|]. split; [|exact H].
  cbn [spawned]. rewrite lookup_app_l; [assumption|]. eapply lookup_lt_Some. exact Hl.
Qed.

(** The end that the three methods share: pull, and remove the copy with
    whatever command the method uses. *)
Lemma pull_then_remove (adb_cmd local_dest : string) (rm : cmdline) w
    (s s' : state Empty_set) :
  (ok <- pull_tmp adb_cmd local_dest ;;
   if ok then (run rm None ;; ret true) else ret false)%eff w s = (Returns true, s') ->
  pulled w adb_cmd local_dest s s'.
Proof.
  intros (ok & s1 & Hpull & Hk)%mbind_Returns_inv.
  destruct ok; [|discriminate].
  apply pull_tmp_true in Hpull as [Hpulled _].
  apply mbind_Returns_inv in Hk as (r & s2 & Hrm & Hret).
  apply run_Returns_inv in Hrm as (-> & _). injection Hret as <-.
  now apply pulled_after.
Qed.

Lemma after_run (cmd : cmdline) (t : option N) w (s s1 : state Empty_set)
    (r : CompletedProcess) :
  run cmd t w s = (Returns r, s1) -> (length (spawned s) <= length (spawned s1))%nat.
Proof.
  intros (-> & _)%run_Returns_inv. cbn [spawned]. rewrite length_app. lia.
Qed.

Lemma pull_by_argv_true (remote_path adb_cmd local_dest : string) w (s s' : state Empty_set) :
  pull_by_argv remote_path adb_cmd local_dest w s = (Returns true, s') ->
  pulled w adb_cmd local_dest s s'.
Proof.
  unfold pull_by_argv.
  intros [H|(e & s1 & _ & H)]%try_catch_Returns_inv; [|discriminate].
  apply mbind_Returns_inv in H as (cp & s1 & Hcp & H).
  destruct (returncode cp =? 0); [|discriminate].
  apply pull_then_remove in H. eapply pulled_before; [|exact H].
  eapply after_run. exact Hcp.
Qed.

Lemma pull_by_shell_true (remote_path adb_cmd local_dest : string) w (s s' : state Empty_set) :
  pull_by_shell remote_path adb_cmd local_dest w s = (Returns true, s') ->
  pulled w adb_cmd local_dest s s'.
Proof.
  unfold pull_by_shell.
  intros [H|(e & s1 & _ & H)]%try_catch_Returns_inv; [|discriminate].
  apply mbind_Returns_inv in H as (cp & s1 & Hcp & H).
  destruct (returncode cp =? 0); [|discriminate].
  apply pull_then_remove in H. eapply pulled_before; [|exact H].
  eapply after_run. exact Hcp.
Qed.

Lemma pull_by_steps_true (remote_path adb_cmd local_dest : string) w (s s' : state Empty_set) :
  pull_by_steps remote_path adb_cmd local_dest w s = (Returns true, s') ->
  pulled w adb_cmd local_dest s s'.
Proof.
  unfold pull_by_steps.
  intros [H|(e & s1 & _ & H)]%try_catch_Returns_inv; [|discriminate].
  apply mbind_Returns_inv in H as (p1 & s1 & Hp1 & H).
  destruct (returncode p1 =? 0); [|discriminate].
  apply mbind_Returns_inv in H as (p2 & s2 & Hp2 & H).
  destruct (returncode p2 =? 0); [|discriminate].
  apply pull_then_remove in H. eapply pulled_before; [|exact H].
  apply after_run in Hp1. apply after_run in Hp2. lia.
Qed.

Lemma grows {A} (m : M Empty_set A) (n : nat) w (s : state Empty_set) a s1 :
  at_most is_pull n m -> m w s = (Returns a, s1) ->
  (length (spawned s) <= length (spawned s1))%nat.
Proof.
  intros Hm Hrun. destruct (Hm w s) as (cs & Hcs & _). rewrite Hrun in Hcs.
  cbn [snd] in Hcs. rewrite Hcs, length_app. lia.
Qed.

(** [pull_root_zip_sync] returns [True] only when one of its [adb pull]s
    of the temporary copy exited with code 0 and the local file existed
    right after it; without a destination it raises before anything is
    started. *)
Theorem pull_root_zip_sync_true_means_pulled (remote_path adb_cmd local_dest : string)
    (w : world) (s : state Empty_set) :
  fst (pull_root_zip_sync remote_path adb_cmd (Some local_dest) w s) = Returns true ->
  pulled w adb_cmd local_dest s
         (snd (pull_root_zip_sync remote_path adb_cmd (Some local_dest) w s)) /\
  pull_root_zip_sync remote_path adb_cmd None w s =
    (Raises (RuntimeError "local_dest must be specified"), s).
Proof.
  intros Htrue. split; [|reflexivity].
  destruct (pull_root_zip_sync remote_path adb_cmd (Some local_dest) w s) as [o s'] eqn:Hrun.
  cbn [fst snd] in *. subst o. unfold pull_root_zip_sync in Hrun.
  apply mbind_Returns_inv in Hrun as (ok1 & s1 & H1 & Hrun).
  destruct ok1.
  { injection Hrun as <-. now apply pull_by_argv_true in H1. }
  pose proof (grows _ _ _ _ _ _ (pull_by_argv_at_most remote_path adb_cmd local_dest) H1) as Hle1.
  apply mbind_Returns_inv in Hrun as (ok2 & s2 & H2 & Hrun).
  destruct ok2.
  { injection Hrun as <-. apply pull_by_shell_true in H2.
    eapply pulled_before; [exact Hle1|exact H2]. }
  pose proof (grows _ _ _ _ _ _ (pull_by_shell_at_most remote_path adb_cmd local_dest) H2) as Hle2.
  apply pull_by_steps_true in Hrun. eapply pulled_before; [|exact Hrun]. lia.
Qed.

(** A device on which every command succeeds and the file pulled is there. *)
Definition rooted_world : world :=
  {| behaviour := fun _ _ => Exits 1 0 EmptyString EmptyString;
     cpe_text := fun _ _ => EmptyString;
     path_exists := fun _ _ => true;
     readline_error := all_text |}.

Lemma pull_root_zip_sync_true_means_pulled_witness :
  pulled rooted_world "adb" "boot.zip" start
    (snd (pull_root_zip_sync "/system/media/bootanimation.zip" "adb" (Some "boot.zip")
            rooted_world start)).
Proof.
  exact (proj1 (pull_root_zip_sync_true_means_pulled "/system/media/bootanimation.zip"
                  "adb" "boot.zip" rooted_world start eq_refl)).
Defined.

(** The file pulled by the first method is pulled again when the removal
    of the temporary copy cannot be started: the exception is caught by
    the [except] of the method, which then counts as failed. *)
Example pull_root_zip_sync_pulls_twice :
  let w := {| behaviour := fun n _ =>
                match n with
                | 2%nat => CannotStart (OSError "Too many open files")
                | _ => Exits 1 0 EmptyString EmptyString
                end;
              cpe_text := fun _ _ => EmptyString;
              path_exists := fun _ _ => true;
              readline_error := all_text |} in
  fst (pull_root_zip_sync "/system/media/bootanimation.zip" "adb" (Some "boot.zip") w start)
    = Returns true /\
  length (List.filter is_pull
            (spawned (snd (pull_root_zip_sync "/system/media/bootanimation.zip" "adb"
                             (Some "boot.zip") w start)))) = 2%nat.
Proof. split; reflexivity. Qed.

End PullSound.

(* ===================================================================== *)
(** * Part XXII.  The applications loaded                                 *)
(* ===================================================================== *)

Section LoadedApps.
Import Py Proc Os Spec Outcome appmanager appsort.

Lemma parse_app_info_type (line app_name package_name app_type : string) :
  parse_app_info line = Some (app_name, package_name, app_type) ->
  package_name <> EmptyString /\
  (app_type = "User App" \/ app_type = "System App" \/ app_type = "Vendor App"
   \/ app_type = "Unknown").
Proof.
  unfold parse_app_info. cbv zeta.
  destruct (nonempty (strip (List.last (split "=" line) EmptyString))) eqn:Hn;
    [|discriminate].
  intros [= _ <- <-]. split; [now apply nonempty_true|].
  destruct (contains "/data/app/" _); [now left|].
  destruct (contains "/system/app/" _ || contains "/system/priv-app/" _);
    [right; now left|].
  destruct (contains "/vendor/" _); [right; right; now left|now repeat right].
Qed.

(** Every application [load_apps] lists has a name and a package that are
    not empty, a status that [STATUS_ORDER] ranks and a type that
    [APP_TYPE_ORDER] ranks: sorting the Status and App Type columns never
    falls back on the rank 99 of unknown values.  On these two columns
    [lessThan] is a strict order by rank. *)
Theorem loaded_apps_are_ranked :
  (forall (output : string) (packages : list string)
          (app_name package_name status app_type : string),
     In (app_name, package_name, status, app_type)
        (collect_apps (disabled_set output) packages) ->
     app_name <> EmptyString /\ package_name <> EmptyString /\
     STATUS_ORDER status < 99 /\ APP_TYPE_ORDER app_type < 99) /\
  (forall column a b c,
     lessThan column a a <> Some true /\
     (lessThan column a b = Some true -> lessThan column b a = Some false) /\
     (lessThan column a b = Some true -> lessThan column b c = Some true ->
      lessThan column a c = Some true)).
Proof.
  split.
  - intros output packages n p st t Hin.
    apply collect_apps_In in Hin as (line & n' & p' & t' & _ & Hparse & Hn & Heq).
    injection Heq as -> -> -> ->.
    destruct (parse_app_info_type _ _ _ _ Hparse) as [Hp Ht].
    split; [assumption|]. split; [assumption|]. split.
    + now case_bool_decide.
    + destruct Ht as [->|[->|[->| ->]]]; reflexivity.
  - intros column a b c. unfold lessThan.
    destruct (column =? 3); [|destruct (column =? 4)].
    + repeat split.
      * intros [= H]. apply Z.ltb_lt in H. lia.
      * intros [= H]. apply Z.ltb_lt in H. f_equal. apply Z.ltb_ge. lia.
      * intros [= H1] [= H2]. apply Z.ltb_lt in H1, H2. f_equal. apply Z.ltb_lt. lia.
    + repeat split.
      * intros [= H]. apply Z.ltb_lt in H. lia.
      * intros [= H]. apply Z.ltb_lt in H. f_equal. apply Z.ltb_ge. lia.
      * intros [= H1] [= H2]. apply Z.ltb_lt in H1, H2. f_equal. apply Z.ltb_lt. lia.
    + repeat split; discriminate.
Qed.

Definition list_f (ptp : string) : cmdline :=
  Argv [path_join ptp "adb"; "shell"; "pm"; "list"; "packages"; "-f"].

Definition list_d (ptp : string) : cmdline :=
  Argv [path_join ptp "adb"; "shell"; "pm"; "list"; "packages"; "-d"].

(** The list an [apps_loaded] signal carries. *)
Definition loaded_apps (e : event) : option (list app) :=
  match e with
  | apps_loaded apps => Some apps
  | _ => None
  end.

Definition is_finished (e : event) : bool :=
  match e with
  | finished => true
  | _ => false
  end.

Definition output_of (p : process) : string :=
  match p with
  | Exits _ _ out _ => out
  | _ => EmptyString
  end.

(** When the processes it starts end, [AppManagerWorker.run] for
    'load_apps' returns and emits [finished] once, as its last signal.
    [apps_loaded] is emitted, once, exactly when [pm list packages -f]
    exits with code 0 and [pm list packages -d] exits: the code of the
    second command is not looked at.  When the first command fails the
    second is not started. *)
Theorem AppManagerWorker_run_finishes (ptp : string) (w : world) (s : state event) :
  (forall n c, terminates (behaviour w n c) = true) ->
  let r := AppManagerWorker_run ptp w s in
  let first := behaviour w (length (spawned s)) (list_f ptp) in
  let second := behaviour w (S (length (spawned s))) (list_d ptp) in
  fst r = Returns tt /\
  last (new_events s (snd r)) = Some finished /\
  length (List.filter is_finished (new_events s (snd r))) = 1%nat /\
  omap loaded_apps (new_events s (snd r)) =
    (if succeeds first && exits second
     then [collect_apps (disabled_set (output_of second)) (splitlines (output_of first))]
     else []) /\
  new_commands s (snd r) =
    (if succeeds first then [list_f ptp; list_d ptp] else [list_f ptp]).
Proof.
  intros Hterm. cbv zeta.
  destruct (AppManagerWorker_run ptp w s) as [o s'] eqn:Hrun. cbn [fst snd].
  revert Hrun.
  unfold AppManagerWorker_run, load_apps, _run_adb_command, try_catch.
  fold (list_f ptp). fold (list_d ptp).
  run_steps. unfold mbind at 1. run_steps.
  rewrite mbind_run_None. cbv zeta. run_steps.
  pose proof (Hterm (length (spawned s)) (list_f ptp)) as H1.
  destruct (behaviour w (length (spawned s)) (list_f ptp))
    as [d1 rc1 out1 err1|out|e1]; [|discriminate|]; clear H1; cbn [succeeds output_of].
  - run_steps. destruct (rc1 =? 0); cbn [negb andb].
    + cbv zeta. rewrite mbind_run_None. cbv zeta. run_steps.
      rewrite length_app, Nat.add_1_r.
      pose proof (Hterm (S (length (spawned s))) (list_d ptp)) as H2.
      destruct (behaviour w (S (length (spawned s))) (list_d ptp))
        as [d2 rc2 out2 err2|out|e2]; [|discriminate|]; clear H2; cbn [exits output_of].
      * run_steps. intros [= <- <-]. unfold new_commands.
        rewrite <- ?app_assoc; rewrite new_calls_snoc, new_events_snoc.
        repeat split.
      * run_steps. intros [= <- <-]. unfold new_commands.
        rewrite <- ?app_assoc; rewrite new_calls_snoc, new_events_snoc.
        repeat split.
    + run_steps. intros [= <- <-]. unfold new_commands.
      rewrite <- ?app_assoc; rewrite new_calls_snoc, new_events_snoc.
      repeat split.
  - run_steps. intros [= <- <-]. unfold new_commands.
    rewrite <- ?app_assoc; rewrite new_calls_snoc, new_events_snoc.
    repeat split.
Qed.

Lemma AppManagerWorker_run_finishes_witness :
  fst (AppManagerWorker_run "pt" (exit_world 0) start) = Returns tt /\
  last (new_events start (snd (AppManagerWorker_run "pt" (exit_world 0) start)))
    = Some finished.
Proof.
  destruct (AppManagerWorker_run_finishes "pt" (exit_world 0) start (fun _ _ => eq_refl))
    as (H1 & H2 & _).
  split; [exact H1|exact H2].
Defined.

End LoadedApps.

(* ===================================================================== *)
(** * Part XXIII.  Presets that cannot be used                             *)
(* ===================================================================== *)

Section PresetEdges.
Import Py Proc Os appmanager.

(** The files [_apply_preset] cannot use: it leaves the selection and the
    check boxes alone unless the file holds an object whose
    'selected_packages' is a collection that is not empty.  A file that
    does not exist gives the message box 'Error Loading Preset' and no log
    line; an object without packages gives a log line and no message
    box. *)
Theorem _apply_preset_unusable_file (preset_path : string) (files : gmap string json)
    (self : AppManagerUI) :
  ((forall members items,
      files !! preset_path = Some (JObject members) ->
      set_of (dict_get "selected_packages" members (JArray [])) = Ret items ->
      items = []) ->
   selected_packages (_apply_preset preset_path files self) = selected_packages self /\
   model (_apply_preset preset_path files self) = model self) /\
  (files !! preset_path = None ->
   exists text,
     _apply_preset preset_path files self =
       show_box (critical "Error Loading Preset" ("Failed to load preset: " +:+ text)) self) /\
  (forall members,
     files !! preset_path = Some (JObject members) ->
     dict_get "selected_packages" members (JArray []) = JArray [] ->
     _apply_preset preset_path files self = log "Preset is empty or invalid." self).
Proof.
  split; [|split].
  - intros Hunusable. unfold _apply_preset, load_preset_members.
    destruct (files !! preset_path) as [[| | |members]|] eqn:Hfile; try now split.
    destruct (set_of (dict_get "selected_packages" members (JArray []))) as [items|e] eqn:Hset;
      cbn [bind]; [|now split].
    rewrite (Hunusable members items eq_refl Hset). now split.
  - intros Hfile. unfold _apply_preset, load_preset_members. rewrite Hfile.
    eexists. reflexivity.
  - intros members Hfile Hempty. unfold _apply_preset, load_preset_members.
    now rewrite Hfile, Hempty.
Qed.

End PresetEdges.

(* ===================================================================== *)
(** * Part XXIV.  The selection of partitions                             *)
(* ===================================================================== *)

Section PartitionSelection.
Import Py Proc Os partitionselect.

Definition names (l : list partitionmanager.partition_info) : list string :=
  List.map partitionmanager.name l.

Lemma existsb_named (name : string) (l : list partitionmanager.partition_info) :
  existsb (named name) l = true <-> In name (names l).
Proof.
  unfold names. rewrite existsb_exists, in_map_iff. unfold named.
  split; intros (p & H1 & H2).
  - apply String.eqb_eq in H2. now exists p.
  - exists p. split; [assumption|]. now apply String.eqb_eq.
Qed.

Lemma names_filter_out (name : string) (l : list partitionmanager.partition_info) :
  List.NoDup (names l) ->
  List.NoDup (names (List.filter (fun p => negb (named name p)) l)) /\
  ~ In name (names (List.filter (fun p => negb (named name p)) l)).
Proof.
  intros Hnd. split.
  - induction l as [|p l IH]; [constructor|].
    cbn [names List.map] in Hnd. apply List.NoDup_cons_iff in Hnd as [Hp Hnd].
    cbn [List.filter]. destruct (negb (named name p)); [|now apply IH].
    cbn [names List.map]. constructor; [|now apply IH].
    intros Hin. apply Hp. unfold names in *. apply in_map_iff in Hin as (q & Hq & Hin).
    apply List.filter_In in Hin as [Hin _]. apply in_map_iff. now exists q.
  - unfold names. rewrite in_map_iff. intros (q & Hq & Hin).
    apply List.filter_In in Hin as [_ Hneg]. unfold named in Hneg.
    rewrite Hq, String.eqb_refl in Hneg. discriminate.
Qed.

(** A click on a row of a table that has a check box for every partition
    loaded returns; afterwards no two partitions selected have the same
    name (if none had before), and a partition with the name of the row is
    selected exactly when the box of the row is checked. *)
Theorem toggle_selection_by_name (row : nat) (self : window)
    (p : partitionmanager.partition_info) :
  length (boxes self) = length (partitions_data self) ->
  partitions_data self !! row = Some p ->
  List.NoDup (names (selected_partitions self)) ->
  exists self',
    toggle_selection row self = Ret self' /\
    List.NoDup (names (selected_partitions self')) /\
    boxes self' !! row = negb <$> (boxes self !! row) /\
    (In (partitionmanager.name p) (names (selected_partitions self'))
     <-> boxes self' !! row = Some true) /\
    partitions_data self' = partitions_data self.
Proof.
  intros Hlen Hrow Hnd. unfold toggle_selection.
  assert (Hlt : (row < length (partitions_data self))%nat)
    by (eapply lookup_lt_Some; exact Hrow).
  destruct (decide (length (partitions_data self) <= row)%nat); [lia|].
  destruct (lookup_lt_is_Some_2 (boxes self) row) as [b Hb]; [lia|].
  unfold checkState at 1. rewrite Hb. cbn [bind].
  unfold update_selection_from_checkbox, checkState, index.
  cbn [boxes partitions_data selected_partitions log_window status].
  rewrite list_lookup_insert_eq by lia. rewrite Hrow. cbn [bind].
  destruct b; cbn [negb].
  - destruct (names_filter_out (partitionmanager.name p) _ Hnd) as [Hnd' Hout].
    eexists. split; [reflexivity|]. cbn [selected_partitions boxes partitions_data].
    rewrite list_lookup_insert_eq by lia.
    split; [assumption|]. split; [reflexivity|]. split; [|reflexivity].
    split; [contradiction|discriminate].
  - destruct (existsb (named (partitionmanager.name p)) (selected_partitions self)) eqn:Hex;
      cbn [negb]; (eexists; split; [reflexivity|]);
      cbn [selected_partitions boxes partitions_data];
      rewrite list_lookup_insert_eq by lia.
    + split; [assumption|]. split; [reflexivity|]. split; [|reflexivity].
      split; [reflexivity|]. intros _. now apply existsb_named.
    + assert (Hout : ~ In (partitionmanager.name p) (names (selected_partitions self))).
      { intros Hin. apply existsb_named in Hin. congruence. }
      split.
      * unfold names. rewrite List.map_app. apply NoDup_ListNoDup, NoDup_app.
        split; [now apply NoDup_ListNoDup|]. split.
        -- intros x Hx Hk. apply list_elem_of_In in Hk. destruct Hk as [<-|[]].
           apply Hout. now apply list_elem_of_In.
        -- cbn. apply NoDup_singleton.
      * split; [reflexivity|]. split; [|reflexivity].
        split; [reflexivity|]. intros _. unfold names. rewrite List.map_app.
        apply in_or_app. right. now left.
Qed.

(** The button 'Select / Unselect All' on a table that has a check box for
    every partition loaded returns, and keeps the number of boxes.  If a
    box was unchecked, every box is checked afterwards and the partitions
    selected are the partitions loaded, in their order; if none was, every
    box is unchecked and nothing is selected. *)
Theorem toggle_partition_selection_all (self : window) :
  length (boxes self) = length (partitions_data self) ->
  exists self',
    toggle_partition_selection self = Ret self' /\
    length (boxes self') = length (boxes self) /\
    partitions_data self' = partitions_data self /\
    (forall row b, boxes self' !! row = Some b -> b = existsb negb (boxes self)) /\
    selected_partitions self' =
      (if existsb negb (boxes self) then partitions_data self else []).
Proof.
  intros Hlen. unfold toggle_partition_selection.
  destruct (existsb negb (boxes self)) eqn:Hany.
  - match goal with |- context [bind (?f _ _)] => set (rows := f) end.
    assert (Hrows : forall n row, (row + n = length (partitions_data self))%nat ->
                    rows n row = Ret (drop row (partitions_data self))).
    { induction n as [|n IH]; intros row Hn.
      - cbn. rewrite drop_ge by lia. reflexivity.
      - destruct (lookup_lt_is_Some_2 (partitions_data self) row) as [p Hp]; [lia|].
        cbn [rows]. unfold index. rewrite Hp. cbn [bind].
        fold rows. rewrite IH by lia. cbn [bind].
        now rewrite (drop_S _ _ _ Hp). }
    rewrite Hrows by lia. cbn [bind]. rewrite drop_0.
    eexists. split; [reflexivity|]. cbn [boxes partitions_data selected_partitions].
    rewrite length_map. repeat split.
    intros row b Hb. rewrite list_lookup_fmap in Hb.
    destruct (boxes self !! row); cbn in Hb; congruence.
  - eexists. split; [reflexivity|]. cbn [boxes partitions_data selected_partitions].
    rewrite length_map. repeat split.
    intros row b Hb. rewrite list_lookup_fmap in Hb.
    destruct (boxes self !! row); cbn in Hb; congruence.
Qed.

Definition part (n : string) : partitionmanager.partition_info :=
  {| partitionmanager.name := n;
     partitionmanager.path := "/dev/block/by-name/" +:+ n;
     partitionmanager.permissions := "lrwxrwxrwx";
     partitionmanager.size_bytes := 67108864;
     partitionmanager.size_human := "64.00 MB" |}.

Definition two_partitions : window :=
  {| partitions_data := [part "boot"; part "recovery"]; boxes := [true; false];
     selected_partitions := [part "boot"]; log_window := []; status := [] |}.

Lemma toggle_selection_by_name_witness :
  exists self',
    toggle_selection 1 two_partitions = Ret self' /\
    List.NoDup (names (selected_partitions self')) /\
    boxes self' !! 1%nat = negb <$> (boxes two_partitions !! 1%nat) /\
    (In (partitionmanager.name (part "recovery")) (names (selected_partitions self'))
     <-> boxes self' !! 1%nat = Some true) /\
    partitions_data self' = partitions_data two_partitions.
Proof.
  apply (toggle_selection_by_name 1 two_partitions (part "recovery")).
  - reflexivity.
  - reflexivity.
  - cbn. constructor; [intros []|constructor].
Defined.

Lemma toggle_partition_selection_all_witness :
  exists self',
    toggle_partition_selection two_partitions = Ret self' /\
    length (boxes self') = length (boxes two_partitions) /\
    partitions_data self' = partitions_data two_partitions /\
    (forall row b, boxes self' !! row = Some b -> b = existsb negb (boxes two_partitions)) /\
    selected_partitions self' =
      (if existsb negb (boxes two_partitions) then partitions_data two_partitions else []).
Proof. apply (toggle_partition_selection_all two_partitions). reflexivity. Defined.

(** A table with more check boxes than partitions loaded: the button
    raises [IndexError] at the first row without data. *)
Example toggle_partition_selection_more_rows :
  toggle_partition_selection
    {| partitions_data := [part "boot"]; boxes := [true; false];
       selected_partitions := []; log_window := []; status := [] |}
  = Raise (IndexError "list index out of range").
Proof. reflexivity. Qed.

(** Two partitions loaded with one name: after 'Select / Unselect All'
    both are selected, and a click on the row of the first removes both. *)
Example toggle_selection_same_name :
  let w := {| partitions_data := [part "boot"; part "boot"]; boxes := [false; false];
              selected_partitions := []; log_window := []; status := [] |} in
  exists w1 w2,
    toggle_partition_selection w = Ret w1 /\
    selected_partitions w1 = [part "boot"; part "boot"] /\
    toggle_selection 0 w1 = Ret w2 /\
    selected_partitions w2 = [] /\ boxes w2 = [false; true].
Proof. cbv zeta. eexists _, _. repeat split. Qed.

End PartitionSelection.

(* ===================================================================== *)
(** * Part XXV.  Installing the APKs of a backup                          *)
(* ===================================================================== *)

Section Installing.
Import Py Proc Os Spec appinstall.

(** The process ran and returned 0. *)
Definition succeeded (p : process) : bool :=
  match p with
  | Exits _ rc _ _ => rc =? 0
  | _ => false
  end.

(** The process exits, or cannot be started. *)
Definition ends (p : process) : Prop :=
  match p with
  | NeverExits _ => False
  | _ => True
  end.

Definition adb_command (ptp : string) (command_args : list string) : cmdline :=
  Argv (path_join ptp "adb" :: command_args).

Definition adb_call (ptp : string) (command_args : list string) : call :=
  {| call_cmd := adb_command ptp command_args; call_timeout := None |}.

(** The arguments of the commands [_install_apks] runs. *)
Definition install_commands (apk_files : list string) : list (list string) :=
  if is_split_apk apk_files then ["install-multiple" :: "-r" :: apk_files]
  else List.map (fun apk => ["install"; "-r"; apk]) apk_files.

(** Every one of the commands, started after [n] others, succeeds. *)
Fixpoint all_succeed (ptp : string) (w : world) (n : nat) (commands : list (list string))
  : bool :=
  match commands with
  | [] => true
  | command_args :: rest =>
      succeeded (behaviour w n (adb_command ptp command_args))
      && all_succeed ptp w (S n) rest
  end.

Lemma all_succeed_lookup (ptp : string) (w : world) (commands : list (list string)) (n : nat) :
  all_succeed ptp w n commands = true <->
  forall i command_args, commands !! i = Some command_args ->
    succeeded (behaviour w (n + i) (adb_command ptp command_args)) = true.
Proof.
  revert n. induction commands as [|c rest IH]; intros n; cbn [all_succeed].
  - split; [intros _ i a H; discriminate|reflexivity].
  - rewrite andb_true_iff, IH. split.
    + intros [Hc Hrest] [|i] a Hi.
      * injection Hi as <-. now rewrite Nat.add_0_r.
      * replace (n + S i)%nat with (S n + i)%nat by lia. now apply Hrest.
    + intros H. split.
      * specialize (H 0%nat c eq_refl). now rewrite Nat.add_0_r in H.
      * intros i a Hi. replace (S n + i)%nat with (n + S i)%nat by lia. now apply H.
Qed.

Lemma log_lines_quiet (lines : list string) :
  quiet (for_each lines
           (fun line => if nonempty (strip line) then emit (log_message (strip line))
                        else ret tt)).
Proof.
  apply quiet_for_each. intros line.
  destruct (nonempty (strip line)); [apply quiet_emit|apply quiet_ret].
Qed.

Lemma progress_if_named_quiet (current_app status : string) :
  quiet (progress_if_named current_app status).
Proof.
  unfold progress_if_named. destruct (nonempty current_app); [apply quiet_emit|apply quiet_ret].
Qed.

(** One installation command whose process ends: the call returns whether
    the process returned 0, having started this one process. *)
Lemma _execute_install_command_spec (ptp : string) (command_args : list string)
    (current_app : string) (w : world) (s : state event) :
  ends (behaviour w (length (spawned s)) (adb_command ptp command_args)) ->
  exists evs,
    _execute_install_command ptp command_args current_app w s =
    (Returns (succeeded (behaviour w (length (spawned s)) (adb_command ptp command_args))),
     {| spawned := spawned s ++ [adb_call ptp command_args];
        emitted := emitted s ++ evs |}).
Proof.
  intros Hends.
  destruct (_execute_install_command ptp command_args current_app w s) as [o s'] eqn:Hrun.
  revert Hrun. unfold _execute_install_command, try_catch.
  unfold mbind at 1, spawn at 1. cbv beta iota. fold (adb_command ptp command_args).
  destruct (behaviour w (length (spawned s)) (adb_command ptp command_args))
    as [d rc out err|out|e]; [| contradiction |].
  - unfold mbind at 1.
    match goal with |- context [for_each ?l ?b w ?s0] =>
      destruct (log_lines_quiet l w s0) as ([] & es & ->) end.
    cbn [spawned emitted succeeded].
    destruct (rc =? 0); cbn [negb]; unfold mbind at 1; rewrite emit_spec;
      unfold mbind at 1;
      match goal with |- context [progress_if_named ?a ?t w ?s0] =>
        destruct (progress_if_named_quiet a t w s0) as ([] & es' & ->) end;
      unfold ret; cbn [spawned emitted]; intros [= <- <-];
      rewrite <- !app_assoc; eexists; reflexivity.
  - unfold raise at 1. cbv beta iota. unfold mbind at 1. rewrite emit_spec.
    unfold mbind at 1.
    match goal with |- context [progress_if_named ?a ?t w ?s0] =>
      destruct (progress_if_named_quiet a t w s0) as ([] & es' & ->) end.
    unfold ret; cbn [spawned emitted succeeded]; intros [= <- <-].
    rewrite <- !app_assoc; eexists; reflexivity.
Qed.

Lemma install_each_spec (ptp current_app : string) (total : nat) (w : world)
    (apk_files : list string) :
  (forall n cmd, ends (behaviour w n cmd)) ->
  forall (i : nat) (success : bool) (s : state event),
  exists evs,
    install_each ptp current_app total i apk_files success w s =
    (Returns (success
              && all_succeed ptp w (length (spawned s))
                   (List.map (fun apk => ["install"; "-r"; apk]) apk_files)),
     {| spawned := spawned s
                   ++ List.map (adb_call ptp)
                        (List.map (fun apk => ["install"; "-r"; apk]) apk_files);
        emitted := emitted s ++ evs |}).
Proof.
  intros Hends. induction apk_files as [|apk rest IH]; intros i success s.
  - exists []. cbn. rewrite !app_nil_r, andb_true_r. now destruct s.
  - cbn [install_each List.map all_succeed].
    unfold mbind at 1. rewrite emit_spec. unfold mbind at 1.
    match goal with |- context [_execute_install_command ?p ?a ?c w ?s0] =>
      destruct (_execute_install_command_spec p a c w s0 (Hends _ _)) as (es & ->) end.
    cbn [spawned emitted].
    match goal with |- context [install_each _ _ _ _ _ ?b w ?s0] =>
      destruct (IH (S i) b s0) as (es' & ->) end.
    cbn [spawned emitted]. rewrite length_app, Nat.add_1_r.
    exists ([backup_progress current_app
               ("Installing APK " +:+ count (S i) +:+ "/" +:+ count total)] ++ es ++ es').
    f_equal; [|f_equal].
    + f_equal.
      destruct (succeeded (behaviour w (length (spawned s))
                             (adb_command ptp ["install"; "-r"; apk])));
        cbn [negb andb]; [reflexivity|now rewrite andb_false_r].
    + now rewrite <- app_assoc.
    + now rewrite <- !app_assoc.
Qed.

(** [_install_apks] in a world where every process exits or cannot be
    started: it returns; the processes it started are the ones of
    [install_commands], in that order, each of them started whether or
    not the ones before it succeeded; and it returns [True] exactly when
    there is a file and every one of these processes returned 0. *)
Theorem _install_apks_installs_every_file (ptp current_app : string)
    (apk_files : list string) (w : world) (s : state event) :
  (forall n cmd, ends (behaviour w n cmd)) ->
  exists b s',
    _install_apks ptp apk_files current_app w s = (Returns b, s') /\
    new_calls s s' = List.map (adb_call ptp) (install_commands apk_files) /\
    (b = true <->
     apk_files <> [] /\
     forall i command_args, install_commands apk_files !! i = Some command_args ->
       succeeded (behaviour w (length (spawned s) + i) (adb_command ptp command_args)) = true).
Proof.
  intros Hends. unfold _install_apks, install_commands.
  destruct apk_files as [|apk rest].
  - exists false, s. split; [reflexivity|]. split.
    + unfold new_calls. now rewrite drop_all.
    + split; [discriminate|]. now intros [[] _].
  - set (apk_files := apk :: rest). destruct (is_split_apk apk_files).
    + unfold mbind at 1. rewrite emit_spec. unfold mbind at 1. rewrite emit_spec.
      match goal with |- context [_execute_install_command ?p ?a ?c w ?s0] =>
        destruct (_execute_install_command_spec p a c w s0 (Hends _ _)) as (es & ->) end.
      cbn [spawned emitted]. eexists _, _. split; [reflexivity|]. split.
      * apply new_calls_snoc.
      * rewrite <- all_succeed_lookup. cbn [all_succeed]. rewrite andb_true_r.
        split; [|tauto]. intros ->. split; [discriminate|reflexivity].
    + unfold mbind at 1. rewrite emit_spec.
      match goal with |- context [install_each ?p ?c ?t ?i ?l ?b w ?s0] =>
        destruct (install_each_spec p c t w l Hends i b s0) as (es & ->) end.
      cbn [spawned emitted andb]. eexists _, _. split; [reflexivity|]. split.
      * apply new_calls_snoc.
      * rewrite <- all_succeed_lookup. split; [|tauto].
        intros ->. split; [discriminate|reflexivity].
Qed.

(** Two files, the first of which fails to install: both are tried, and
    the result is [False]. *)
Definition first_fails : world :=
  {| behaviour := fun n _ =>
       match n with
       | O => Exits 1 1 "Performing Streamed Install" "adb: failed to install a.apk"
       | _ => Exits 1 0 "Success" EmptyString
       end;
     cpe_text := fun _ _ => EmptyString;
     path_exists := fun _ _ => true;
     readline_error := all_text |}.

Lemma _install_apks_installs_every_file_witness :
  exists b s',
    _install_apks "pt" ["a.apk"; "b.apk"] "app" first_fails start = (Returns b, s') /\
    new_calls start s' = List.map (adb_call "pt") (install_commands ["a.apk"; "b.apk"]) /\
    (b = true <->
     ["a.apk"; "b.apk"] <> [] /\
     forall i command_args,
       install_commands ["a.apk"; "b.apk"] !! i = Some command_args ->
       succeeded (behaviour first_fails (length (spawned (start (E:=event))) + i)
                    (adb_command "pt" command_args)) = true).
Proof.
  apply (_install_apks_installs_every_file "pt" "app" ["a.apk"; "b.apk"] first_fails start).
  intros [|n] cmd; exact I.
Defined.

Example _install_apks_first_fails :
  fst (_install_apks "pt" ["a.apk"; "b.apk"] "app" first_fails start) = Returns false /\
  emitted (snd (_install_apks "pt" ["a.apk"; "b.apk"] "app" first_fails start)) =
  [ log_message "Installing 2 individual APK(s)...";
    backup_progress "app" "Installing APK 1/2";
    log_message "Performing Streamed Install";
    log_message "Installation failed: adb: failed to install a.apk";
    backup_progress "app" "Installation failed";
    backup_progress "app" "Installing APK 2/2";
    log_message "Success";
    log_message "Installation completed successfully";
    backup_progress "app" "Installation successful" ].
Proof. split; reflexivity. Qed.

End Installing.

(* ===================================================================== *)
(** * Part XXVI.  desc.txt, written and read back                         *)
(* ===================================================================== *)

Section BootAnimationDesc.
Import Py Os bootanimdesc.


























(** A superscript two counts as a digit for [isdigit] and is refused by
    [int]: the [ValueError] leaves the function. *)
Example parse_pulled_zip_sync_superscript :
  exists text,
    parse_pulled_zip_sync "/tmp/w/extracted" "/tmp/w/bootanimation.zip" true
      (Ret {| desc_txt := Some ("720 1280 30" +:+ newline +:+ "p "
                                +:+ String (ascii_of_N 178) " part0" +:+ newline);
              isdir := fun _ => true; files_in := fun _ => 10%nat |})
    = Raise (ValueError text).
Proof. eexists. reflexivity. Qed.

(** A line in the order Android documents, type, count, pause, path: the
    pause is taken for the folder and the path for the pause. *)
Example parse_pulled_zip_sync_android_order :
  parse_pulled_zip_sync "/tmp/w/extracted" "/tmp/w/bootanimation.zip" true
    (Ret {| desc_txt := Some ("720 1280 30" +:+ newline +:+ "c 0 10 part1" +:+ newline);
            isdir := fun p => String.eqb p "/tmp/w/extracted/part1";
            files_in := fun _ => 10%nat |})
  = Ret (Some {| width := 720; height := 1280; fps := 30;
                 parts := [ {| mode := "c"; loops := 0; folder := "10"; pause := 0;
                               frame_count := 0; folder_path := None |} ] |}).
Proof. reflexivity. Qed.

End BootAnimationDesc.
